(** * AsciiBird: a shallow embedding of [driver.c]

    The game state of [driver.c] (two pipes, the bird, the score counters)
    is embedded as records over [Z] and IEEE 754 values, and its functions
    as Rocq functions with explicit state passing.

    Arithmetic is the machine's:
    - [int] is a 32-bit two's complement integer; every [int] operation is
      followed by [Int.wrap] (C leaves signed overflow undefined; wrapping
      is what the usual targets do);
    - [float] is IEEE 754 binary32 and [double] is binary64, rounded to
      nearest-even after every operation (FLT_EVAL_METHOD 0), through the
      executable specification [SpecFloat] of the standard library;
    - a floating value converted to [int] is truncated toward zero.

    Calls that only draw ([mvprintw], [clear], [refresh]) or wait
    ([usleep]) do not touch the state modelled here and are left out of
    the state-passing functions; the drawing functions are embedded on
    their own, as the list of the [mvprintw] calls they make. *)

From Stdlib Require Import ZArith Bool List Lia Znumtheory.
From Stdlib Require Import Floats.SpecFloat.
From Stdlib Require Import QArith.
From Stdlib Require Import Ascii String DecimalString.
Import ListNotations.
Open Scope Z_scope.

(** ** [int]: 32-bit two's complement *)

Module Int.

Definition max : Z := 2147483647.
Definition min : Z := -2147483648.

Definition wrap (z : Z) : Z := (z + 2 ^ 31) mod 2 ^ 32 - 2 ^ 31.

Definition in_range (z : Z) : Prop := min <= z <= max.

Definition add (a b : Z) : Z := wrap (a + b).
Definition sub (a b : Z) : Z := wrap (a - b).
Definition mul (a b : Z) : Z := wrap (a * b).
(** C division truncates toward zero. *)
Definition div (a b : Z) : Z := wrap (Z.quot a b).

End Int.

(** [(char) c] for an [int] c, with [char] signed as on x86. *)
Definition char_of_int (c : Z) : Z := (c + 128) mod 256 - 128.

(** ** [float] and [double] *)

(** Truncation toward zero of a finite value; [None] on NaN and infinities. *)
Definition SFtrunc (x : spec_float) : option Z :=
  match x with
  | S754_zero _ => Some 0
  | S754_finite s m e =>
      Some (cond_Zopp s
              match e with
              | Z0 => Zpos m
              | Zpos p => Zpos m * 2 ^ Zpos p
              | Zneg p => Zpos m / 2 ^ Zpos p
              end)
  | S754_infinity _ | S754_nan => None
  end.

(** Conversion to [int].  C leaves the result undefined when the truncated
    value does not fit; the x86 conversion instructions give INT_MIN then. *)
Definition int_of_SF (x : spec_float) : Z :=
  match SFtrunc x with
  | Some z => if (Int.min <=? z) && (z <=? Int.max) then z else Int.min
  | None => Int.min
  end.

(** The exact rational value of a floating value (0 for NaN, infinities). *)
Definition SF2Q (x : spec_float) : Q :=
  match x with
  | S754_finite s m e =>
      match e with
      | Z0 => inject_Z (cond_Zopp s (Zpos m))
      | Zpos p => inject_Z (cond_Zopp s (Zpos m) * 2 ^ Zpos p)
      | Zneg p => Qmake (cond_Zopp s (Zpos m)) (2 ^ p)
      end
  | _ => 0%Q
  end.

Module F32.
Definition prec : Z := 24.
Definition emax : Z := 128.
Definition add := SFadd prec emax.
Definition sub := SFsub prec emax.
Definition mul := SFmul prec emax.
Definition div := SFdiv prec emax.
Definition of_int (z : Z) : spec_float := binary_normalize prec emax z 0 false.
(** [(float) x] for a double [x]. *)
Definition of_double (x : spec_float) : spec_float :=
  match x with
  | S754_finite s m e => binary_round prec emax s m e
  | _ => x
  end.
Definition to_int := int_of_SF.
End F32.

Module F64.
Definition prec : Z := 53.
Definition emax : Z := 1024.
Definition add := SFadd prec emax.
Definition sub := SFsub prec emax.
Definition mul := SFmul prec emax.
Definition div := SFdiv prec emax.
Definition of_int (z : Z) : spec_float := binary_normalize prec emax z 0 false.
(** [(double) x] for a float [x]: every float is a double. *)
Definition of_float (x : spec_float) : spec_float :=
  match x with
  | S754_finite s m e => binary_round prec emax s m e
  | _ => x
  end.
(** The decimal constant [n / 10^k] of the program text: the double
    nearest to it. *)
Definition lit (n : Z) (k : Z) : spec_float := div (of_int n) (of_int (10 ^ k)).
Definition to_int := int_of_SF.
End F64.

Definition float := spec_float.
Definition double := spec_float.

(** The value [m * 2 ^ e], counted in units of [2 ^ c]: an integer as
    soon as [c <= e]. *)
Definition sval (c m e : Z) : Z := m * 2 ^ (e - c).

(** A float with a full mantissa. *)
Definition normal (prec emax : Z) (m : positive) (e : Z) : Prop :=
  Zpos (digits2_pos m) = prec /\ emin prec emax <= e <= emax - prec.

(** ** Definitions of [driver.c] *)

Record vpipe := mk_vpipe {
  opening_height : float;
  center : Z
}.

Record flappy := mk_flappy {
  h0 : Z;
  t : Z
}.

(** *** Global constants *)

Definition GRAV : float := F32.of_double (F64.lit 5 2).          (* 0.05 *)
Definition V0 : float := F32.of_double (SFopp (F64.lit 5 1)).    (* -0.5 *)
Definition NUM_ROWS : Z := 24.
Definition NUM_COLS : Z := 80.
Definition PIPE_RADIUS : Z := 3.
Definition OPENING_WIDTH : Z := 7.
Definition FLAPPY_COL : Z := 10.
Definition SCORE_START_COL : Z := 62.

(** [INT_MAX] of <limits.h>, the key code [KEY_UP] of <ncurses.h>. *)
Definition INT_MAX : Z := Int.max.
Definition KEY_UP : Z := 259.
Definition KEY_q : Z := 113.

(** *** Global variables, and the two input sources

    [rand_calls] and [getch_calls] count the calls made so far to [rand()]
    and [getch()]; what the calls return is fixed by the section variables
    below. *)

Record globals := mk_globals {
  frame : Z;
  score : Z;
  sdigs : Z;
  best_score : Z;
  bdigs : Z;
  p1 : vpipe;
  p2 : vpipe;
  rand_calls : nat;
  getch_calls : nat
}.

Definition set_score (v : Z) (g : globals) : globals :=
  mk_globals (frame g) v (sdigs g) (best_score g) (bdigs g) (p1 g) (p2 g)
             (rand_calls g) (getch_calls g).
Definition set_sdigs (v : Z) (g : globals) : globals :=
  mk_globals (frame g) (score g) v (best_score g) (bdigs g) (p1 g) (p2 g)
             (rand_calls g) (getch_calls g).
Definition set_best_score (v : Z) (g : globals) : globals :=
  mk_globals (frame g) (score g) (sdigs g) v (bdigs g) (p1 g) (p2 g)
             (rand_calls g) (getch_calls g).
Definition set_bdigs (v : Z) (g : globals) : globals :=
  mk_globals (frame g) (score g) (sdigs g) (best_score g) v (p1 g) (p2 g)
             (rand_calls g) (getch_calls g).
Definition set_frame (v : Z) (g : globals) : globals :=
  mk_globals v (score g) (sdigs g) (best_score g) (bdigs g) (p1 g) (p2 g)
             (rand_calls g) (getch_calls g).

(** A [vpipe *]: the program only ever takes [&p1] and [&p2]. *)
Inductive pipe_ptr := ptr_p1 | ptr_p2.

Definition load (p : pipe_ptr) (g : globals) : vpipe :=
  match p with ptr_p1 => p1 g | ptr_p2 => p2 g end.

Definition store (p : pipe_ptr) (v : vpipe) (g : globals) : globals :=
  match p with
  | ptr_p1 => mk_globals (frame g) (score g) (sdigs g) (best_score g) (bdigs g)
                         v (p2 g) (rand_calls g) (getch_calls g)
  | ptr_p2 => mk_globals (frame g) (score g) (sdigs g) (best_score g) (bdigs g)
                         (p1 g) v (rand_calls g) (getch_calls g)
  end.

Definition store_center (p : pipe_ptr) (c : Z) (g : globals) : globals :=
  store p (mk_vpipe (opening_height (load p g)) c) g.

Definition store_opening_height (p : pipe_ptr) (o : float) (g : globals) : globals :=
  store p (mk_vpipe o (center (load p g))) g.

(** [rand() / ((float) INT_MAX) * 0.5 + 0.25], stored into a [float]:
    the division is a [float] division, the product and the sum are
    [double] operations. *)
Definition opening_of_rand (r : Z) : float :=
  F32.of_double
    (F64.add
       (F64.mul (F64.of_float (F32.div (F32.of_int r) (F32.of_int INT_MAX)))
                (F64.lit 5 1))
       (F64.lit 25 2)).

(** [(top ? 1 : -1) * OPENING_WIDTH / 2]: an [int] expression. *)
Definition half_opening (top : bool) : Z :=
  Int.div (Int.mul (if top then 1 else -1) OPENING_WIDTH) 2.

(** The expression returned by [get_orow], a [float], before its conversion
    to the [int] result. *)
Definition opening_edge (p : vpipe) (top : bool) : float :=
  F32.sub (F32.mul (opening_height p) (F32.of_int (Int.sub NUM_ROWS 1)))
          (F32.of_int (half_opening top)).

Definition get_orow (p : vpipe) (top : bool) : Z :=
  F32.to_int (opening_edge p top).

(** [f.h0 + V0 * f.t + 0.5 * GRAV * f.t * f.t] before its conversion to
    [int]: the left summand is a [float], the right one a [double]. *)
Definition flappy_height (f : flappy) : double :=
  F64.add
    (F64.of_float (F32.add (F32.of_int (h0 f)) (F32.mul V0 (F32.of_int (t f)))))
    (F64.mul (F64.mul (F64.mul (F64.lit 5 1) (F64.of_float GRAV))
                      (F64.of_int (t f)))
             (F64.of_int (t f))).

Definition get_flappy_position (f : flappy) : Z :=
  F64.to_int (flappy_height f).

Definition crashed_into_pipe (f : flappy) (p : vpipe) : bool :=
  if (FLAPPY_COL >=? Int.sub (Int.sub (center p) PIPE_RADIUS) 1) &&
     (FLAPPY_COL <=? Int.add (Int.add (center p) PIPE_RADIUS) 1)
  then
    if (get_flappy_position f >=? Int.add (get_orow p true) 1) &&
       (get_flappy_position f <=? Int.sub (get_orow p false) 1)
    then false
    else true
  else false.

Section Driver.

(** The value returned by the n-th call of [rand()] and of [getch()]. *)
Variable rand_value : nat -> Z.
Variable getch_value : nat -> Z.

Definition rand (g : globals) : Z * globals :=
  (rand_value (rand_calls g),
   mk_globals (frame g) (score g) (sdigs g) (best_score g) (bdigs g)
              (p1 g) (p2 g) (S (rand_calls g)) (getch_calls g)).

Definition getch (g : globals) : Z * globals :=
  (getch_value (getch_calls g),
   mk_globals (frame g) (score g) (sdigs g) (best_score g) (bdigs g)
              (p1 g) (p2 g) (rand_calls g) (S (getch_calls g))).

(** The body of the [if] of [pipe_refresh]: the wrap to the right. *)
Definition pipe_wrap (p : pipe_ptr) (g : globals) : globals :=
  let g := store_center p (Int.add NUM_COLS PIPE_RADIUS) g in
  let '(r, g) := rand g in
  let g := store_opening_height p (opening_of_rand r) g in
  let g := set_score (Int.add (score g) 1) g in
  if (sdigs g =? 1) && (score g >? 9) then set_sdigs (Int.add (sdigs g) 1) g
  else if (sdigs g =? 2) && (score g >? 99) then set_sdigs (Int.add (sdigs g) 1) g
  else g.

Definition pipe_off_screen (p : vpipe) : bool :=
  Int.add (center p) PIPE_RADIUS <? 0.

Definition pipe_refresh (p : pipe_ptr) (g : globals) : globals :=
  let g := if pipe_off_screen (load p g) then pipe_wrap p g else g in
  store_center p (Int.sub (center (load p g)) 1) g.

(** Outcome of a function that may call [exit]: either it returns a value,
    or the process ends; the globals are those at that moment. *)
Inductive result (A : Type) : Type :=
| Returned (a : A) (g : globals)
| Exited (g : globals).
Arguments Returned {A} a g.
Arguments Exited {A} g.

Definition failure_screen (g : globals) : result Z :=
  let '(ch, g) := getch g in
  if char_of_int ch =? KEY_q then Exited g
  else
    let g := if score g >? best_score g then set_best_score (score g) g else g in
    let g :=
      if (bdigs g =? 1) && (best_score g >? 9) then set_bdigs (Int.add (bdigs g) 1) g
      else if (bdigs g =? 2) && (best_score g >? 99) then set_bdigs (Int.add (bdigs g) 1) g
      else g in
    let g := set_score 0 g in
    let g := set_sdigs 1 g in
    Returned 1 g.

(** The test of [draw_flappy] against the ceiling and the floor. *)
Definition crashed_into_bounds (f : flappy) : bool :=
  let h := get_flappy_position f in
  (h <=? 0) || (h >=? Int.sub NUM_ROWS 1).

Definition draw_flappy (f : flappy) (g : globals) : result Z :=
  if crashed_into_bounds f then failure_screen g
  else if crashed_into_pipe f (p1 g) || crashed_into_pipe f (p2 g)
       then failure_screen g
       else Returned 0 g.

(** The locals of [main] that live across iterations. *)
Record locals := mk_locals {
  f : flappy;
  restart : Z
}.

(** The [if (restart)] block of [main]. *)
Definition start_game (l : locals) (g : globals) : locals * globals :=
  let g := store_center ptr_p1
             (F64.to_int (F64.mul (F64.lit 12 1) (F64.of_int (Int.sub NUM_COLS 1)))) g in
  let '(r, g) := rand g in
  let g := store_opening_height ptr_p1 (opening_of_rand r) g in
  let g := store_center ptr_p2
             (F64.to_int (F64.mul (F64.lit 175 2) (F64.of_int (Int.sub NUM_COLS 1)))) g in
  let '(r, g) := rand g in
  let g := store_opening_height ptr_p2 (opening_of_rand r) g in
  (mk_locals (mk_flappy (Int.div NUM_ROWS 2) 0) 0, g).

(** The [KEY_UP] and [default] cases of the [switch] of [main]. *)
Definition boost (f : flappy) : flappy := mk_flappy (get_flappy_position f) 0.
Definition fall (f : flappy) : flappy := mk_flappy (h0 f) (Int.add (t f) 1).

(** One iteration of the [while] loop of [main]. *)
Definition iteration (l : locals) (g : globals) : result locals :=
  let '(l, g) := if restart l =? 0 then (l, g) else start_game l g in
  let '(ch, g) := getch g in
  if ch =? KEY_q then Exited g
  else
    let l := if ch =? KEY_UP then mk_locals (boost (f l)) (restart l)
             else mk_locals (fall (f l)) (restart l) in
    let g := pipe_refresh ptr_p1 g in
    let g := pipe_refresh ptr_p2 g in
    match draw_flappy (f l) g with
    | Exited g => Exited g
    | Returned r g =>
        if r =? 0 then Returned l (set_frame (Int.add (frame g) 1) g)
        else Returned (mk_locals (f l) 1) g
    end.

(** [n] iterations of the loop, or fewer when the process exits. *)
Fixpoint iterations (n : nat) (l : locals) (g : globals) : result locals :=
  match n with
  | O => Returned l g
  | S n =>
      match iteration l g with
      | Exited g => Exited g
      | Returned l g => iterations n l g
      end
  end.

(** A sequence of [pipe_refresh] calls, on either pipe in any order. *)
Definition advances (ps : list pipe_ptr) (g : globals) : globals :=
  fold_left (fun g p => pipe_refresh p g) ps g.

(** The globals at the moment a result is produced. *)
Definition globals_of {A : Type} (r : result A) : globals :=
  match r with Returned _ g => g | Exited g => g end.

End Driver.

Arguments Returned {A} a g.
Arguments Exited {A} g.

(** The state in which [main] enters its loop: the globals as initialised,
    [restart = 1]; [f] is not yet initialised (any value [f0]). *)
Definition initial_globals : globals :=
  mk_globals 0 0 1 0 1 (mk_vpipe (S754_zero false) 0) (mk_vpipe (S754_zero false) 0)
             0%nat 0%nat.
Definition initial_locals (f0 : flappy) : locals := mk_locals f0 1.

(** An opening height that [pipe_wrap] or [start_game] can store. *)
Definition opening_in_range (o : float) : Prop :=
  exists m e, o = S754_finite false m e /\ bounded 24 128 m e = true /\
              (1 # 4 <= SF2Q o <= 3 # 4)%Q.

(** A pipe as the game keeps it: on its way from the right spawn column to
    the wrap column, with an opening height drawn by [opening_of_rand]. *)
Definition pipe_in_play (p : vpipe) : Prop :=
  - (PIPE_RADIUS + 1) <= center p <= 138 /\ opening_in_range (opening_height p).

(** A bird that passed the test against the ceiling and the floor. *)
Definition bird_in_play (f : flappy) : Prop :=
  0 < get_flappy_position f < NUM_ROWS - 1.

(** The state at the head of the loop of [main], once a game is running. *)
Definition in_play (l : locals) (g : globals) : Prop :=
  restart l = 0 ->
  bird_in_play (f l) /\ pipe_in_play (p1 g) /\ pipe_in_play (p2 g).

(** Sample inputs: a [rand()] that returns a constant, a keyboard on which
    the same key is read at every call ([-1] is ERR, no key pressed). *)
Definition rand_const (r : Z) : nat -> Z := fun _ => r.
Definition key_const (k : Z) : nat -> Z := fun _ => k.

(** The globals once the first game has been set up. *)
Definition spawn_globals (rand_value : nat -> Z) : globals :=
  snd (start_game rand_value (initial_locals (mk_flappy 0 0)) initial_globals).

(** The initial globals with the first pipe just off screen on the left. *)
Definition off_screen_globals : globals :=
  store_center ptr_p1 (-4) initial_globals.

(** The constant 0.5 as a [float], and a pipe with that opening. *)
Definition half_float : float := F32.of_double (F64.lit 5 1).
Definition quarter_float : float := F32.of_double (F64.lit 25 2).
Definition pipe_at (o : float) (c : Z) : vpipe := mk_vpipe o c.

(** *** Drawing

    The drawing functions of [driver.c] are embedded as the list of the
    [mvprintw(row, col, text)] calls they make, in order. *)

Record print := mk_print {
  print_row : Z;
  print_col : Z;
  print_text : string
}.

Definition chtostr (ch : ascii) : string := String ch EmptyString.

(** The values of [i] in [for (i = lo; i < hi; i++)] and in
    [for (i = hi; i > lo; i--)]. *)
Definition range_up (lo hi : Z) : list Z :=
  map (fun k => lo + Z.of_nat k) (seq 0 (Z.to_nat (hi - lo))).
Definition range_down (hi lo : Z) : list Z :=
  map (fun k => hi - Z.of_nat k) (seq 0 (Z.to_nat (hi - lo))).

(** The loop of [draw_floor_and_ceiling], from the value [i] of its
    counter.  The loop need not end (with [spacing = 0] it does not):
    [fuel] bounds the number of iterations, [None] is out of fuel. *)
Fixpoint floor_and_ceiling_loop (fuel : nat) (ceiling_row floor_row : Z) (c : string)
    (spacing : Z) (sd bd : Z) (i : Z) : option (list print) :=
  if i <? Int.sub NUM_COLS 1 then
    match fuel with
    | O => None
    | S fuel =>
        let out :=
          (if i <? Int.sub (Int.sub SCORE_START_COL sd) bd
           then [mk_print ceiling_row i c] else [])
          ++ [mk_print floor_row i c] in
        match floor_and_ceiling_loop fuel ceiling_row floor_row c spacing sd bd
                (Int.add i spacing) with
        | Some rest => Some (out ++ rest)
        | None => None
        end
    end
  else Some [].

Definition draw_floor_and_ceiling (fuel : nat) (ceiling_row floor_row : Z) (ch : ascii)
    (spacing col_start : Z) (g : globals) : option (list print) :=
  floor_and_ceiling_loop fuel ceiling_row floor_row (chtostr ch) spacing
    (sdigs g) (bdigs g) col_start.

(** The test that guards every [mvprintw] of [draw_pipe]. *)
Definition column_visible (x : Z) : bool :=
  (x >=? 0) && (x <? Int.sub NUM_COLS 1).

(** The body of the two loops over rows of [draw_pipe]. *)
Definition pipe_walls (p : vpipe) (vch : ascii) (i : Z) : list print :=
  (if column_visible (Int.sub (center p) PIPE_RADIUS)
   then [mk_print i (Int.sub (center p) PIPE_RADIUS) (chtostr vch)] else [])
  ++
  (if column_visible (Int.add (center p) PIPE_RADIUS)
   then [mk_print i (Int.add (center p) PIPE_RADIUS) (chtostr vch)] else []).

(** The two loops [for (i = -PIPE_RADIUS; i <= PIPE_RADIUS; i++)]. *)
Definition pipe_cap (p : vpipe) (hch : ascii) (row : Z) : list print :=
  flat_map
    (fun i => if column_visible (Int.add (center p) i)
              then [mk_print row (Int.add (center p) i) (chtostr hch)] else [])
    (range_up (- PIPE_RADIUS) (PIPE_RADIUS + 1)).

(** The value of [i] after the first loop over rows, and after the second. *)
Definition upper_terminus (p : vpipe) (ceiling_row : Z) : Z :=
  Z.max (Int.add ceiling_row 1) (get_orow p true).
Definition lower_terminus (p : vpipe) (floor_row : Z) : Z :=
  Z.min (Int.sub floor_row 1) (get_orow p false).

Definition draw_pipe (p : vpipe) (vch hcht hchb : ascii) (ceiling_row floor_row : Z)
    : list print :=
  flat_map (pipe_walls p vch) (range_up (Int.add ceiling_row 1) (get_orow p true))
  ++ pipe_cap p hcht (upper_terminus p ceiling_row)
  ++ flat_map (pipe_walls p vch) (range_down (Int.sub floor_row 1) (get_orow p false))
  ++ pipe_cap p hchb (lower_terminus p floor_row).

(** [GRAV * f.t + V0 > 0], the test "going down" of [draw_flappy]. *)
Definition going_down (f : flappy) : bool :=
  SFltb (F32.of_int 0) (F32.add (F32.mul GRAV (F32.of_int (t f))) V0).

(** The [mvprintw] calls of [draw_flappy] once both crash tests have
    passed, that is when it returns 0 (lines 332 to 373). *)
Definition flappy_prints (f : flappy) (frame : Z) : list print :=
  let h := get_flappy_position f in
  if going_down f then
    [ mk_print h (Int.sub FLAPPY_COL 1) (chtostr "\");
      mk_print (Int.sub h 1) (Int.sub FLAPPY_COL 2) (chtostr "\");
      mk_print h FLAPPY_COL (chtostr "0");
      mk_print h (Int.add FLAPPY_COL 1) (chtostr "/");
      mk_print (Int.sub h 1) (Int.add FLAPPY_COL 2) (chtostr "/") ]
  else
    (if Z.rem frame 6 <? 3
     then [ mk_print h (Int.sub FLAPPY_COL 1) (chtostr "/");
            mk_print (Int.add h 1) (Int.sub FLAPPY_COL 2) (chtostr "/") ]
     else [ mk_print h (Int.sub FLAPPY_COL 1) (chtostr "\");
            mk_print (Int.sub h 1) (Int.sub FLAPPY_COL 2) (chtostr "\") ])
    ++ [ mk_print h FLAPPY_COL (chtostr "0") ]
    ++ (if Z.rem frame 6 <? 3
        then [ mk_print h (Int.add FLAPPY_COL 1) (chtostr "\");
               mk_print (Int.add h 1) (Int.add FLAPPY_COL 2) (chtostr "\") ]
        else [ mk_print h (Int.add FLAPPY_COL 1) (chtostr "/");
               mk_print (Int.sub h 1) (Int.add FLAPPY_COL 2) (chtostr "/") ]).

(** What [printf] writes for ["%d"]. *)
Definition decimal (z : Z) : string := NilZero.string_of_int (Z.to_int z).

(** The score line, printed by [main] at the end of an iteration. *)
Definition score_line (g : globals) : print :=
  mk_print 0 (Int.sub (Int.sub SCORE_START_COL (bdigs g)) (sdigs g))
    (" Score: " ++ decimal (score g) ++ "  Best: " ++ decimal (best_score g))%string.

(** The [mvprintw] calls of an iteration of the loop of [main] in which
    the bird does not crash, in order; [b] is the bird and [g] the globals
    once the key is processed.  The pipes are drawn before they are
    refreshed, the bird and the score line after. *)
Definition frame_prints (rand_value : nat -> Z) (fuel : nat) (b : flappy) (g : globals)
    : option (list print) :=
  match draw_floor_and_ceiling fuel 0 (Int.sub NUM_ROWS 1) "/" 3 (Z.rem (frame g) 3) g with
  | None => None
  | Some fc =>
      let g3 := pipe_refresh rand_value ptr_p2 (pipe_refresh rand_value ptr_p1 g) in
      Some (fc
            ++ draw_pipe (p1 g) "|" "=" "=" 0 (Int.sub NUM_ROWS 1)
            ++ draw_pipe (p2 g) "|" "=" "=" 0 (Int.sub NUM_ROWS 1)
            ++ flappy_prints b (frame g3)
            ++ [score_line g3])
  end.

(** *** The counters of the score line

    The widths [sdigs] and [bdigs] as the program keeps them: [sdigs] is
    the number of digits of the score, 3 standing for three or more;
    [bdigs] is 1 while the best score has one digit, and otherwise at most
    the number of its digits. *)
Definition score_width_ok (g : globals) : Prop :=
  sdigs g = 1 /\ score g <= 9 \/ sdigs g = 2 /\ 10 <= score g <= 99 \/
  sdigs g = 3 /\ 100 <= score g.
Definition best_width_ok (g : globals) : Prop :=
  bdigs g = 1 /\ best_score g <= 9 \/ bdigs g = 2 /\ 10 <= best_score g \/
  bdigs g = 3 /\ 100 <= best_score g.

(** The counters after at most [k] iterations of the loop. *)
Definition counters_ok (k : nat) (g : globals) : Prop :=
  0 <= frame g <= Z.of_nat k /\
  (0 <= score g <= 2 * Z.of_nat k /\ score_width_ok g) /\
  (0 <= best_score g <= 2 * Z.of_nat k /\ best_width_ok g).

(** * Properties *)

(** ** [int] arithmetic *)

Module IntFacts.

Lemma wrap_range (z : Z) : Int.in_range (Int.wrap z).
Proof.
  unfold Int.in_range, Int.wrap, Int.min, Int.max.
  pose proof (Z.mod_pos_bound (z + 2 ^ 31) (2 ^ 32) ltac:(lia)). lia.
Qed.

Lemma wrap_small (z : Z) : Int.in_range z -> Int.wrap z = z.
Proof.
  unfold Int.in_range, Int.wrap, Int.min, Int.max. intros H.
  rewrite Z.mod_small; lia.
Qed.

Lemma wrap_wrap_add (a b : Z) : Int.wrap (Int.wrap a + b) = Int.wrap (a + b).
Proof.
  unfold Int.wrap.
  replace ((a + 2 ^ 31) mod 2 ^ 32 - 2 ^ 31 + b + 2 ^ 31)
    with ((a + 2 ^ 31) mod 2 ^ 32 + b) by lia.
  rewrite Zplus_mod_idemp_l. f_equal. f_equal. lia.
Qed.

Lemma wrap_above (z : Z) :
  Int.max < z <= Int.max + 2 ^ 32 -> Int.wrap z = z - 2 ^ 32.
Proof.
  unfold Int.wrap, Int.max. intros H.
  replace (z + 2 ^ 31) with (z - 2 ^ 32 + 2 ^ 31 + 1 * 2 ^ 32) by lia.
  rewrite Z.mod_add, Z.mod_small; lia.
Qed.

Lemma wrap_below (z : Z) :
  Int.min - 2 ^ 32 <= z < Int.min -> Int.wrap z = z + 2 ^ 32.
Proof.
  unfold Int.wrap, Int.min. intros H.
  replace (z + 2 ^ 31) with (z + 2 ^ 32 + 2 ^ 31 + (-1) * 2 ^ 32) by lia.
  rewrite Z.mod_add, Z.mod_small; lia.
Qed.

Lemma add_exact (a b : Z) : Int.in_range (a + b) -> Int.add a b = a + b.
Proof. apply wrap_small. Qed.

Lemma sub_exact (a b : Z) : Int.in_range (a - b) -> Int.sub a b = a - b.
Proof. apply wrap_small. Qed.

End IntFacts.

(** ** Rounding to nearest-even, as [SpecFloat] computes it *)

Lemma digits2_pos_bounds (p : positive) :
  2 ^ (Zpos (digits2_pos p) - 1) <= Zpos p < 2 ^ Zpos (digits2_pos p).
Proof.
  induction p as [p IH|p IH|]; cbn [digits2_pos].
  - rewrite Pos2Z.inj_succ, (Pos2Z.inj_xI p).
    replace (Z.succ (Zpos (digits2_pos p)) - 1) with (Z.succ (Zpos (digits2_pos p) - 1)) by lia.
    rewrite !Z.pow_succ_r by lia. lia.
  - rewrite Pos2Z.inj_succ, (Pos2Z.inj_xO p).
    replace (Z.succ (Zpos (digits2_pos p)) - 1) with (Z.succ (Zpos (digits2_pos p) - 1)) by lia.
    rewrite !Z.pow_succ_r by lia. lia.
  - cbn. lia.
Qed.

Lemma pow2_pos (k : Z) : 0 <= k -> 0 < 2 ^ k.
Proof. intros. apply Z.pow_pos_nonneg; lia. Qed.

Lemma pow2_le (a b : Z) : 0 <= a <= b -> 2 ^ a <= 2 ^ b.
Proof. intros. apply Z.pow_le_mono_r; lia. Qed.

Lemma pow2_lt (a b : Z) : 0 <= a < b -> 2 ^ a < 2 ^ b.
Proof. intros. apply Z.pow_lt_mono_r; lia. Qed.

Lemma pow2_split (a b : Z) : 0 <= a -> 0 <= b -> 2 ^ (a + b) = 2 ^ a * 2 ^ b.
Proof. intros. apply Z.pow_add_r; lia. Qed.

(** The number of digits is determined by the two powers around. *)
Lemma digits2_pos_unique (p : positive) (d : Z) :
  2 ^ (d - 1) <= Zpos p < 2 ^ d -> Zpos (digits2_pos p) = d.
Proof.
  intros [L U]. pose proof (digits2_pos_bounds p) as [L' U'].
  assert (0 < d).
  { destruct (Z.le_gt_cases d 0) as [N|]; [|assumption].
    destruct (Z.eq_dec d 0) as [->|]; [cbn in U; lia|].
    rewrite Z.pow_neg_r in U by lia. lia. }
  destruct (Z.lt_trichotomy (Zpos (digits2_pos p)) d) as [C|[C|C]]; [|exact C|].
  - pose proof (pow2_le (Zpos (digits2_pos p)) (d - 1) ltac:(lia)). lia.
  - pose proof (pow2_le d (Zpos (digits2_pos p) - 1) ltac:(lia)). lia.
Qed.

Lemma iter_pos_nat {A : Type} (f : A -> A) (n : positive) (x : A) :
  SpecFloat.iter_pos f n x = Nat.iter (Pos.to_nat n) f x.
Proof.
  revert x. induction n as [n IH|n IH|]; intros x; cbn [SpecFloat.iter_pos].
  - rewrite !IH, Pos2Nat.inj_xI, <- Nat.iter_succ_r, <- Nat.iter_add.
    f_equal. lia.
  - rewrite !IH, Pos2Nat.inj_xO, <- Nat.iter_add. f_equal. lia.
  - reflexivity.
Qed.

Lemma shr_1_spec (m : Z) (r s : bool) :
  0 <= m ->
  shr_1 (Build_shr_record m r s) = Build_shr_record (m / 2) (Z.odd m) (r || s).
Proof.
  intros H. destruct m as [|[p|p|]|]; try lia; cbn [shr_1]; f_equal.
  - rewrite (Pos2Z.inj_xI p). apply (Z.div_unique _ 2 _ 1); lia.
  - rewrite (Pos2Z.inj_xO p). apply (Z.div_unique _ 2 _ 0); lia.
Qed.

(** [k] right shifts divide the mantissa by [2 ^ k], and report an exact
    result when nothing but zeros is shifted out. *)
Lemma shr_nat_spec (k : nat) (m : Z) :
  0 <= m ->
  let r := Nat.iter k shr_1 (Build_shr_record m false false) in
  shr_m r = m / 2 ^ Z.of_nat k /\
  (m mod 2 ^ Z.of_nat k = 0 -> shr_r r = false /\ shr_s r = false).
Proof.
  intros Hm. induction k as [|k IH]; cbn zeta in *.
  - cbn. rewrite Z.div_1_r. auto.
  - rewrite Nat.iter_succ. destruct IH as [Em Ex].
    destruct (Nat.iter k shr_1 (Build_shr_record m false false)) as [mk rk sk].
    cbn [shr_m shr_r shr_s] in *.
    assert (P : 0 < 2 ^ Z.of_nat k) by (apply pow2_pos; lia).
    assert (Hk : 0 <= mk) by (subst mk; apply Z.div_pos; lia).
    rewrite shr_1_spec by exact Hk. cbn [shr_m shr_r shr_s].
    rewrite Nat2Z.inj_succ, Z.pow_succ_r by lia.
    split.
    + subst mk. rewrite Z.div_div by lia. f_equal. lia.
    + intros E.
      assert (D : m = 2 ^ Z.of_nat k * (2 * (m / (2 * 2 ^ Z.of_nat k)))).
      { pose proof (Z.div_mod m (2 * 2 ^ Z.of_nat k) ltac:(lia)). lia. }
      assert (E0 : m mod 2 ^ Z.of_nat k = 0).
      { rewrite D, Z.mul_comm. apply Z.mod_mul. lia. }
      destruct (Ex E0) as [-> ->]. split; [|reflexivity].
      subst mk. rewrite D at 1. rewrite Z.mul_comm, Z.div_mul by lia.
      rewrite Z.odd_mul. reflexivity.
Qed.

Lemma round_nearest_even_bounds (q : Z) (l : location) :
  q <= round_nearest_even q l <= q + 1 /\
  (l = loc_Exact -> round_nearest_even q l = q).
Proof.
  destruct l as [|[]]; cbn; try destruct (Z.even q); split; try lia; try discriminate; auto.
Qed.

Lemma sval_shift (c m e n : Z) :
  c <= e -> 0 <= n -> sval c m (e + n) = m * 2 ^ n * sval c 1 e.
Proof.
  intros. unfold sval. replace (e + n - c) with (n + (e - c)) by lia.
  rewrite pow2_split by lia. lia.
Qed.

Lemma sval_pos (c m e : Z) : c <= e -> 0 < m -> 0 < sval c m e.
Proof. intros. unfold sval. pose proof (pow2_pos (e - c) ltac:(lia)). nia. Qed.

Lemma sval_mono (c m m' e : Z) : c <= e -> m <= m' -> sval c m e <= sval c m' e.
Proof. intros. unfold sval. pose proof (pow2_pos (e - c) ltac:(lia)). nia. Qed.

Lemma sval_cancel (c m m' e : Z) : c <= e -> sval c m e <= sval c m' e -> m <= m'.
Proof. intros ? H. unfold sval in H. pose proof (pow2_pos (e - c) ltac:(lia)). nia. Qed.

Lemma sval_pow2 (c k e : Z) : c <= e -> 0 <= k -> sval c (2 ^ k) e = 2 ^ (k + e - c).
Proof.
  intros. unfold sval. rewrite <- pow2_split by lia. f_equal. lia.
Qed.

Section Rounding.

Variables prec emax : Z.
Hypothesis Hprec : 0 < prec.

Lemma fexp_cases (e : Z) :
  (fexp prec emax e = e - prec /\ (emin prec emax) <= e - prec) \/ (fexp prec emax e = (emin prec emax) /\ e - prec <= (emin prec emax)).
Proof. unfold SpecFloat.fexp. lia. Qed.

Lemma canonical_digits (m : positive) (e : Z) :
  canonical_mantissa prec emax m e = true ->
  Zpos m < 2 ^ prec /\ (emin prec emax) <= e /\
  ((emin prec emax) < e -> 2 ^ (prec - 1) <= Zpos m).
Proof.
  unfold canonical_mantissa. intros H. apply Z.eqb_eq in H.
  pose proof (digits2_pos_bounds m) as [L U].
  destruct (fexp_cases (Zpos (digits2_pos m) + e)) as [[E1 E2]|[E1 E2]];
    rewrite E1 in H.
  - assert (D : Zpos (digits2_pos m) = prec) by lia. rewrite D in *. repeat split; [exact U|lia|auto].
  - split; [|split; [lia|lia]].
    pose proof (pow2_le (Zpos (digits2_pos m)) prec ltac:(lia)). lia.
Qed.

Lemma shr_fexp_spec (m : positive) (e : Z) :
  let n := fexp prec emax (Zpos (digits2_pos m) + e) - e in
  0 <= n ->
  exists mrs, shr_fexp prec emax (Zpos m) e loc_Exact = (mrs, e + n) /\
              shr_m mrs = Zpos m / 2 ^ n /\
              (Zpos m mod 2 ^ n = 0 -> loc_of_shr_record mrs = loc_Exact).
Proof.
  intros n Hn. unfold shr_fexp, shr. cbn [Zdigits2 shr_record_of_loc].
  fold n. destruct n as [|p|p] eqn:E; try lia.
  - eexists. split; [rewrite Z.add_0_r; reflexivity|].
    cbn [shr_m]. rewrite Z.div_1_r. auto.
  - eexists. split; [reflexivity|].
    rewrite iter_pos_nat.
    destruct (shr_nat_spec (Pos.to_nat p) (Zpos m) ltac:(lia)) as [Em Ex].
    rewrite positive_nat_Z in Em, Ex. split; [exact Em|].
    intros Z0. destruct (Ex Z0) as [Er Es].
    destruct (Nat.iter (Pos.to_nat p) shr_1 _) as [mm rr ss]. cbn in *. subst. reflexivity.
Qed.

End Rounding.

(** Cancelling the positive factors of a scaled comparison. *)
Lemma scaled_le_cancel (a b x u : Z) :
  0 < u -> a * u <= b * (1 * x * u) -> a <= b * x.
Proof. intros Hu H. apply (Z.mul_le_mono_pos_r _ _ u Hu). lia. Qed.

Lemma scaled_ge_cancel (a b x u : Z) :
  0 < u -> b * (1 * x * u) <= a * u -> b * x <= a.
Proof. intros Hu H. apply (Z.mul_le_mono_pos_r _ _ u Hu). lia. Qed.

Lemma scaled_le_intro (a b x u : Z) :
  0 < x -> 0 < u -> a <= b -> a * x * u <= b * (1 * x * u).
Proof.
  intros Hx Hu H. replace (b * (1 * x * u)) with (b * x * u) by ring.
  apply Z.mul_le_mono_nonneg_r; [lia|]. apply Z.mul_le_mono_nonneg_r; lia.
Qed.

Lemma scaled_ge_intro (a b x u : Z) :
  0 < x -> 0 < u -> b <= a -> b * (1 * x * u) <= a * x * u.
Proof.
  intros Hx Hu H. replace (b * (1 * x * u)) with (b * x * u) by ring.
  apply Z.mul_le_mono_nonneg_r; [lia|]. apply Z.mul_le_mono_nonneg_r; lia.
Qed.

Section RoundAux.

Variables prec emax : Z.
Hypothesis Hprec : 0 < prec.

Lemma sval_one (c m e : Z) : sval c m e = m * sval c 1 e.
Proof. unfold sval. lia. Qed.

(** A canonical mantissa is below [2 ^ prec]: its value is below the
    power of two [prec] places above its exponent. *)
Lemma sval_canonical_lt (c : Z) (m : positive) (e e' : Z) :
  canonical_mantissa prec emax m e = true -> c <= e -> e < e' ->
  sval c (Zpos m) e < sval c (2 ^ (prec - 1)) e'.
Proof.
  intros Hm Hc He.
  destruct (canonical_digits prec emax Hprec m e Hm) as (Hlt & _).
  rewrite sval_pow2 by lia.
  apply Z.lt_le_trans with (sval c (2 ^ prec) e).
  - unfold sval. pose proof (pow2_pos (e - c) ltac:(lia)). nia.
  - rewrite sval_pow2 by lia. apply pow2_le. lia.
Qed.

Lemma binary_round_aux_bounds (s : bool) (mx : positive) (ex c : Z)
      (lm hm : positive) (le he : Z) :
  ex <= fexp prec emax (Zpos (digits2_pos mx) + ex) ->
  c <= ex -> c <= le -> c <= he ->
  canonical_mantissa prec emax lm le = true ->
  bounded prec emax hm he = true ->
  sval c (Zpos lm) le <= sval c (Zpos mx) ex <= sval c (Zpos hm) he ->
  exists m e,
    binary_round_aux prec emax s (Zpos mx) ex loc_Exact = S754_finite s m e /\
    bounded prec emax m e = true /\ ex <= e /\
    sval c (Zpos lm) le <= sval c (Zpos m) e <= sval c (Zpos hm) he.
Proof.
  intros Hn Hc Hcl Hch Hlo Hhi [HL HU].
  apply andb_prop in Hhi. destruct Hhi as [Hhic Hhib]. apply Z.leb_le in Hhib.
  destruct (canonical_digits prec emax Hprec lm le Hlo) as (Llt & Lmin & Lnorm).
  destruct (canonical_digits prec emax Hprec hm he Hhic) as (Hlt & Hmin & Hnorm).
  pose proof (digits2_pos_bounds mx) as [DL DU].
  pose proof (fexp_cases prec emax (Zpos (digits2_pos mx) + ex)) as FC.
  assert (Hn0 : 0 <= fexp prec emax (Zpos (digits2_pos mx) + ex) - ex) by lia.
  destruct (shr_fexp_spec prec emax mx ex Hn0) as (mrs & E1 & Em & Eexact).
  set (d := Zpos (digits2_pos mx)) in *.
  set (e1 := fexp prec emax (d + ex)) in *.
  set (n := e1 - ex) in *.
  assert (Emin1 : emin prec emax <= e1)
    by (unfold e1, SpecFloat.fexp; apply Z.le_max_r).
  replace (ex + n) with e1 in E1 by (unfold n; lia).
  set (q := Zpos mx / 2 ^ n) in *.
  assert (P2n : 0 < 2 ^ n) by (apply pow2_pos; lia).
  assert (Q1 : q * 2 ^ n <= Zpos mx)
    by (unfold q; rewrite Z.mul_comm; apply Z.mul_div_le; lia).
  assert (Q2 : Zpos mx < (q + 1) * 2 ^ n).
  { unfold q. rewrite Z.mul_comm. apply Z.mul_succ_div_gt. lia. }
  assert (Q3 : Zpos mx mod 2 ^ n <> 0 -> q * 2 ^ n < Zpos mx).
  { intros N. pose proof (Z.div_mod (Zpos mx) (2 ^ n) ltac:(lia)).
    pose proof (Z.mod_pos_bound (Zpos mx) (2 ^ n) P2n). fold q in H. lia. }
  set (u := sval c 1 ex).
  assert (Pu : 0 < u) by (apply sval_pos; lia).
  assert (V1 : forall m, sval c m e1 = m * 2 ^ n * u).
  { intros m. replace e1 with (ex + n) by (unfold n; lia).
    apply sval_shift; lia. }
  assert (Vx : sval c (Zpos mx) ex = Zpos mx * u) by apply sval_one.
  (* the exponent reached is at most that of the upper bound *)
  assert (A : e1 <= he).
  { destruct (Z.le_gt_cases e1 he) as [|C]; [assumption|exfalso].
    pose proof (sval_canonical_lt c hm he e1 Hhic Hch ltac:(lia)) as S1.
    assert (E : e1 = d + ex - prec) by lia.
    assert (S2 : sval c (2 ^ (prec - 1)) e1 <= sval c (Zpos mx) ex).
    { rewrite sval_pow2 by lia. replace (prec - 1 + e1 - c) with ((d - 1) + (ex - c)) by lia.
      rewrite pow2_split by lia. unfold sval.
      apply Z.mul_le_mono_nonneg_r; [|exact DL].
      apply Z.lt_le_incl, pow2_pos. lia. }
    lia. }
  (* the quotient fits in [prec] digits *)
  assert (B : q < 2 ^ prec).
  { unfold q. apply Z.div_lt_upper_bound; [lia|].
    apply Z.lt_le_trans with (2 ^ d); [exact DU|].
    rewrite <- pow2_split by lia. apply pow2_le. unfold n. lia. }
  (* and has exactly [prec] digits above the subnormal range *)
  assert (C : e1 = d + ex - prec -> 2 ^ (prec - 1) <= q).
  { intros E. unfold q. apply Z.div_le_lower_bound; [lia|].
    rewrite <- pow2_split by lia.
    replace (n + (prec - 1)) with (d - 1) by (unfold n; lia). exact DL. }
  assert (UBq : sval c q e1 <= sval c (Zpos hm) he /\
                (Zpos mx mod 2 ^ n <> 0 -> sval c (q + 1) e1 <= sval c (Zpos hm) he)).
  { replace he with (e1 + (he - e1)) by lia.
    rewrite (sval_shift c (Zpos hm) e1 (he - e1)) by lia.
    replace he with (e1 + (he - e1)) in HU by lia.
    rewrite (sval_shift c (Zpos hm) e1 (he - e1)) in HU by lia.
    rewrite !V1. rewrite V1, Vx in HU.
    set (K := Zpos hm * 2 ^ (he - e1)) in *.
    assert (HK : Zpos mx <= K * 2 ^ n) by (apply (scaled_le_cancel _ _ _ u Pu HU)).
    split.
    - assert (q <= K) by (apply (Z.mul_le_mono_pos_r _ _ (2 ^ n) P2n); lia).
      apply scaled_le_intro; assumption.
    - intros N. specialize (Q3 N).
      assert (q < K) by (apply (Z.mul_lt_mono_pos_r (2 ^ n) _ _ P2n); lia).
      apply scaled_le_intro; try assumption. lia. }
  assert (LBq : sval c (Zpos lm) le <= sval c q e1).
  { destruct (Z.le_gt_cases e1 le) as [G|G].
    - replace le with (e1 + (le - e1)) in * by lia.
      rewrite (sval_shift c (Zpos lm) e1 (le - e1)) in * by lia.
      rewrite !V1. rewrite V1, Vx in HL.
      set (K := Zpos lm * 2 ^ (le - e1)) in *.
      assert (HK : K * 2 ^ n <= Zpos mx) by (apply (scaled_ge_cancel _ _ _ u Pu HL)).
      assert (K <= q).
      { unfold q. apply Z.div_le_lower_bound; lia. }
      apply scaled_ge_intro; assumption.
    - pose proof (sval_canonical_lt c lm le e1 Hlo Hcl G) as S1.
      assert (E : e1 = d + ex - prec) by lia.
      pose proof (sval_mono c _ _ e1 ltac:(lia) (C E)). lia. }
  destruct (round_nearest_even_bounds q (loc_of_shr_record mrs)) as [[R1 R2] R3].
  set (m1 := round_nearest_even q (loc_of_shr_record mrs)) in *.
  assert (LB1 : sval c (Zpos lm) le <= sval c m1 e1).
  { pose proof (sval_mono c q m1 e1 ltac:(lia) R1). lia. }
  assert (UB1 : sval c m1 e1 <= sval c (Zpos hm) he).
  { destruct (Z.eq_dec (Zpos mx mod 2 ^ n) 0) as [Z0|N].
    - rewrite (R3 (Eexact Z0)). apply UBq.
    - pose proof (sval_mono c m1 (q + 1) e1 ltac:(lia) R2).
      pose proof (proj2 UBq N). lia. }
  assert (P1 : 0 < m1).
  { pose proof (sval_pos c (Zpos lm) le Hcl ltac:(lia)).
    destruct (Z.lt_ge_cases 0 m1) as [|G]; [assumption|exfalso].
    unfold sval in LB1.
    assert (m1 * 2 ^ (e1 - c) <= 0)
      by (apply Z.mul_nonpos_nonneg; [exact G|apply Z.lt_le_incl, pow2_pos; lia]).
    lia. }
  unfold binary_round_aux. rewrite E1. rewrite Em. fold q. fold m1.
  destruct m1 as [|p1|p1] eqn:Ep1; try lia.
  pose proof (digits2_pos_bounds p1) as [D1L D1U].
  destruct (Z.eq_dec (Zpos p1) (2 ^ prec)) as [Top|NTop].
  - (* the mantissa was rounded up to [2 ^ prec]: one more shift *)
    assert (D1 : Zpos (digits2_pos p1) = prec + 1).
    { apply digits2_pos_unique. rewrite Top.
      replace (prec + 1 - 1) with prec by lia.
      split; [lia|]. apply pow2_lt. lia. }
    assert (N1 : fexp prec emax (Zpos (digits2_pos p1) + e1) - e1 = 1).
    { rewrite D1. unfold SpecFloat.fexp. clear - Emin1 Hprec. lia. }
    destruct (shr_fexp_spec prec emax p1 e1 ltac:(lia)) as (mrs2 & E2 & Em2 & _).
    rewrite N1 in E2, Em2. rewrite E2, Em2.
    assert (Half : Zpos p1 / 2 ^ 1 = 2 ^ (prec - 1)).
    { rewrite Top. replace prec with (1 + (prec - 1)) at 1 by lia.
      rewrite pow2_split by lia. rewrite Z.mul_comm, Z.div_mul by lia.
      reflexivity. }
    rewrite Half.
    pose proof (pow2_pos (prec - 1) ltac:(lia)) as PP.
    destruct (2 ^ (prec - 1)) as [|pm|pm] eqn:Epm; try lia.
    assert (Lt : e1 < he).
    { destruct (Z.le_gt_cases he e1) as [G|]; [exfalso|assumption].
      assert (he = e1) by lia. subst he.
      apply sval_cancel in UB1; lia. }
    assert (Dm : Zpos (digits2_pos pm) = prec).
    { apply digits2_pos_unique. rewrite <- Epm. split; [lia|].
      apply pow2_lt. lia. }
    assert (Ov : (e1 + 1 <=? emax - prec) = true) by (apply Z.leb_le; lia).
    rewrite Ov. exists pm, (e1 + 1).
    split; [reflexivity|]. split; [|split].
    + unfold bounded, canonical_mantissa. rewrite Ov, Dm, andb_true_r.
      apply Z.eqb_eq. unfold SpecFloat.fexp. clear - Emin1 Hprec. lia.
    + unfold n in Hn0. lia.
    + assert (Same : sval c (Zpos pm) (e1 + 1) = sval c (Zpos p1) e1).
      { rewrite <- Epm, Top, !sval_pow2 by lia. f_equal. lia. }
      rewrite Same. lia.
  - (* no carry: the mantissa stays *)
    assert (N1 : fexp prec emax (Zpos (digits2_pos p1) + e1) - e1 = 0).
    { assert (Lt1 : Zpos p1 < 2 ^ prec) by (clear - R2 B NTop; lia).
      assert (Le1 : Zpos (digits2_pos p1) <= prec).
      { destruct (Z.le_gt_cases (Zpos (digits2_pos p1)) prec) as [|G]; [assumption|].
        pose proof (pow2_le prec (Zpos (digits2_pos p1) - 1) ltac:(lia)) as X.
        clear - X Lt1 D1L. lia. }
      destruct FC as [[F1 F2]|[F1 F2]]; fold d in F1, F2; fold e1 in F1.
      - assert (Ge1 : prec <= Zpos (digits2_pos p1)).
        { destruct (Z.le_gt_cases prec (Zpos (digits2_pos p1))) as [|G]; [assumption|].
          pose proof (C F1) as X1.
          pose proof (pow2_le (Zpos (digits2_pos p1)) (prec - 1) ltac:(lia)) as X2.
          clear - X1 X2 R1 D1U. lia. }
        unfold SpecFloat.fexp. clear - Emin1 Le1 Ge1. lia.
      - unfold SpecFloat.fexp. clear - F1 Le1. lia. }
    destruct (shr_fexp_spec prec emax p1 e1 ltac:(lia)) as (mrs2 & E2 & Em2 & _).
    rewrite N1 in E2, Em2. rewrite Z.add_0_r in E2. rewrite E2, Em2.
    change (2 ^ 0) with 1. rewrite Z.div_1_r.
    assert (Ov : (e1 <=? emax - prec) = true) by (apply Z.leb_le; lia).
    rewrite Ov. exists p1, e1.
    split; [reflexivity|]. split; [|split].
    + unfold bounded, canonical_mantissa. rewrite Ov, andb_true_r.
      apply Z.eqb_eq. lia.
    + unfold n in Hn0. lia.
    + lia.
Qed.

End RoundAux.

Lemma iter_xO_spec (d p : positive) : Zpos (Pos.iter xO p d) = Zpos p * 2 ^ Zpos d.
Proof.
  induction d as [|d IH] using Pos.peano_ind.
  - cbn. lia.
  - rewrite Pos.iter_succ, Pos2Z.inj_xO, IH, Pos2Z.inj_succ, Z.pow_succ_r by lia. lia.
Qed.

Lemma digits2_pos_shift (p : positive) (k : Z) (q : positive) :
  0 <= k -> Zpos q = Zpos p * 2 ^ k ->
  Zpos (digits2_pos q) = Zpos (digits2_pos p) + k.
Proof.
  intros Hk E. apply digits2_pos_unique. rewrite E.
  pose proof (digits2_pos_bounds p) as [L U].
  pose proof (pow2_pos k Hk).
  replace (Zpos (digits2_pos p) + k - 1) with ((Zpos (digits2_pos p) - 1) + k) by lia.
  rewrite !pow2_split by lia. nia.
Qed.

Section Round.

Variables prec emax : Z.
Hypothesis Hprec : 0 < prec.

(** What [shl_align] returns: the same value, at an exponent no larger
    than asked for. *)
Lemma shl_align_spec (mx : positive) (ex ex' : Z) :
  let '(mz, ez) := shl_align mx ex ex' in
  ez = Z.min ex ex' /\ Zpos mz = Zpos mx * 2 ^ (ex - ez).
Proof.
  unfold shl_align. destruct (ex' - ex) as [|p|p] eqn:E.
  - split; [lia|]. replace (ex - ex) with 0 by lia. cbn. lia.
  - split; [lia|]. replace (ex - ex) with 0 by lia. cbn. lia.
  - split; [lia|]. rewrite iter_xO_spec. f_equal. f_equal. lia.
Qed.

Lemma bounded_emin (m : positive) (e : Z) :
  bounded prec emax m e = true -> (emin prec emax) <= e.
Proof.
  intros H. apply andb_prop in H. destruct H as [H _].
  apply (canonical_digits prec emax Hprec m e H).
Qed.

(** Rounding a positive value that lies between two representable
    numbers gives a representable number between them. *)
Lemma binary_round_bounds (s : bool) (mx : positive) (ex c : Z)
      (lm hm : positive) (le he : Z) :
  c <= ex -> c <= (emin prec emax) ->
  bounded prec emax lm le = true ->
  bounded prec emax hm he = true ->
  sval c (Zpos lm) le <= sval c (Zpos mx) ex <= sval c (Zpos hm) he ->
  exists m e,
    binary_round prec emax s mx ex = S754_finite s m e /\
    bounded prec emax m e = true /\
    sval c (Zpos lm) le <= sval c (Zpos m) e <= sval c (Zpos hm) he.
Proof.
  intros Hc Hce Hlo Hhi HB.
  pose proof (bounded_emin lm le Hlo). pose proof (bounded_emin hm he Hhi).
  apply andb_prop in Hlo. destruct Hlo as [Hlo _].
  unfold binary_round.
  pose proof (shl_align_spec mx ex (fexp prec emax (Zpos (digits2_pos mx) + ex))) as SA.
  destruct (shl_align mx ex (fexp prec emax (Zpos (digits2_pos mx) + ex))) as [mz ez].
  destruct SA as [Ez Em].
  assert (Emin : (emin prec emax) <= fexp prec emax (Zpos (digits2_pos mx) + ex))
    by (unfold SpecFloat.fexp; lia).
  assert (Hk : 0 <= ex - ez) by lia.
  pose proof (digits2_pos_shift mx (ex - ez) mz Hk Em) as Dz.
  assert (Same : sval c (Zpos mz) ez = sval c (Zpos mx) ex).
  { unfold sval. rewrite Em. replace (ex - c) with ((ex - ez) + (ez - c)) by lia.
    rewrite pow2_split by lia. lia. }
  destruct (binary_round_aux_bounds prec emax Hprec s mz ez c lm hm le he)
    as (m & e & E & Bd & _ & Bs); try assumption; try lia.
  - rewrite Dz. replace (Zpos (digits2_pos mx) + (ex - ez) + ez)
      with (Zpos (digits2_pos mx) + ex) by lia. lia.
  - exists m, e. auto.
Qed.

(** Two representable numbers with the same value are the same. *)
Lemma bounded_unique (c : Z) (m m' : positive) (e e' : Z) :
  bounded prec emax m e = true -> bounded prec emax m' e' = true ->
  c <= (emin prec emax) ->
  sval c (Zpos m) e = sval c (Zpos m') e' -> m = m' /\ e = e'.
Proof.
  intros H H' Hc E.
  pose proof (bounded_emin m e H). pose proof (bounded_emin m' e' H').
  apply andb_prop in H, H'. destruct H as [H _], H' as [H' _].
  destruct (canonical_digits prec emax Hprec m e H) as (_ & _ & N).
  destruct (canonical_digits prec emax Hprec m' e' H') as (_ & _ & N').
  destruct (Z.lt_trichotomy e e') as [L|[->|L]].
  - pose proof (sval_canonical_lt prec emax Hprec c m e e' H ltac:(lia) L).
    pose proof (sval_mono c _ _ e' ltac:(lia) (N' ltac:(lia))). lia.
  - split; [|reflexivity].
    assert (Zpos m <= Zpos m') by (apply (sval_cancel c _ _ e'); lia).
    assert (Zpos m' <= Zpos m) by (apply (sval_cancel c _ _ e'); lia).
    lia.
  - pose proof (sval_canonical_lt prec emax Hprec c m' e' e H' ltac:(lia) L).
    pose proof (sval_mono c _ _ e ltac:(lia) (N ltac:(lia))). lia.
Qed.

(** Rounding a representable value is exact. *)
Lemma binary_round_exact (s : bool) (mx : positive) (ex c : Z)
      (m0 : positive) (e0 : Z) :
  c <= ex -> c <= (emin prec emax) ->
  bounded prec emax m0 e0 = true ->
  sval c (Zpos mx) ex = sval c (Zpos m0) e0 ->
  binary_round prec emax s mx ex = S754_finite s m0 e0.
Proof.
  intros Hc Hce Hb E.
  destruct (binary_round_bounds s mx ex c m0 m0 e0 e0) as (m & e & R & Bd & Bs);
    try assumption; try lia.
  destruct (bounded_unique c m m0 e e0 Bd Hb Hce ltac:(lia)) as [-> ->].
  exact R.
Qed.

Lemma binary_round_aux_exact (s : bool) (mx : positive) (ex c : Z)
      (m0 : positive) (e0 : Z) :
  ex <= fexp prec emax (Zpos (digits2_pos mx) + ex) ->
  c <= ex -> c <= (emin prec emax) ->
  bounded prec emax m0 e0 = true ->
  sval c (Zpos mx) ex = sval c (Zpos m0) e0 ->
  binary_round_aux prec emax s (Zpos mx) ex loc_Exact = S754_finite s m0 e0.
Proof.
  intros Hn Hc Hce Hb E.
  pose proof (bounded_emin m0 e0 Hb).
  assert (Hb' := Hb). apply andb_prop in Hb'. destruct Hb' as [Hcan _].
  destruct (binary_round_aux_bounds prec emax Hprec s mx ex c m0 m0 e0 e0)
    as (m & e & R & Bd & _ & Bs); try assumption; try lia.
  destruct (bounded_unique c m m0 e e0 Bd Hb Hce ltac:(lia)) as [-> ->].
  exact R.
Qed.

End Round.

Lemma div_eucl_exact (q b : Z) : 0 < b -> Z.div_eucl (q * b) b = (q, 0).
Proof.
  intros Hb. pose proof (Z.div_mul q b ltac:(lia)) as D.
  pose proof (Z.mod_mul q b ltac:(lia)) as M.
  unfold Z.div, Z.modulo in D, M.
  destruct (Z.div_eucl (q * b) b) as [q' r']. cbn in D, M. subst. reflexivity.
Qed.

Lemma normal_bounded (prec emax : Z) (m : positive) (e : Z) :
  normal prec emax m e -> bounded prec emax m e = true.
Proof.
  intros [D [L U]]. unfold bounded, canonical_mantissa. rewrite D.
  apply andb_true_intro. split; [apply Z.eqb_eq|apply Z.leb_le; lia].
  unfold fexp, emin in *. lia.
Qed.

(** Division of a normal float by [(float) INT_MAX], which is 2^31. *)
Lemma F32_div_two31 (s : bool) (m : positive) (e : Z) :
  normal 24 128 m e -> -117 <= e ->
  F32.div (S754_finite s m e) (F32.of_int INT_MAX) = S754_finite s m (e - 31).
Proof.
  intros N He. pose proof N as [D [L U]].
  change (F32.of_int INT_MAX) with (S754_finite false 8388608 8).
  unfold F32.div, SFdiv, SFdiv_core_binary. cbn [Zdigits2]. rewrite D.
  change (Zpos (digits2_pos 8388608)) with 24.
  replace (Z.min (fexp F32.prec F32.emax (24 + e - (24 + 8))) (e - 8)) with (e - 32)
    by (unfold fexp, emin, F32.prec, F32.emax; lia).
  replace (e - 8 - (e - 32)) with 24 by lia.
  change (Z.shiftl (Zpos m) 24) with (Zpos (Pos.iter xO m 24)).
  rewrite iter_xO_spec.
  replace (Zpos m * 2 ^ 24) with (Zpos m~0 * 8388608) by lia.
  rewrite div_eucl_exact by lia.
  change (new_location 8388608 0) with loc_Exact.
  replace (xorb s false) with s by (destruct s; reflexivity).
  apply (binary_round_aux_exact 24 128 ltac:(lia) s (m~0) (e - 32) (-200)).
  - replace (Zpos (digits2_pos m~0)) with 25 by (cbn [digits2_pos]; lia).
    unfold fexp, emin. lia.
  - lia.
  - unfold emin. lia.
  - apply normal_bounded. split; [exact D|]. unfold emin in *. lia.
  - unfold sval. rewrite (Pos2Z.inj_xO m).
    replace (e - 31 - -200) with (1 + (e - 32 - -200)) by lia.
    rewrite pow2_split by lia. lia.
Qed.

Lemma mul_pow2_pos (m : positive) (k : positive) :
  Zpos (m * 2 ^ k) = Zpos m * 2 ^ Zpos k.
Proof. rewrite Pos2Z.inj_mul, Pos2Z.inj_pow. reflexivity. Qed.

(** A normal float, seen as a double: 29 more zero bits. *)
Lemma F64_of_float_normal (s : bool) (m : positive) (e : Z) :
  normal 24 128 m e ->
  F64.of_float (S754_finite s m e) = S754_finite s (m * 2 ^ 29) (e - 29) /\
  normal 53 1024 (m * 2 ^ 29) (e - 29).
Proof.
  intros [D [L U]]. unfold emin in L.
  assert (N : normal 53 1024 (m * 2 ^ 29) (e - 29)).
  { split; [|unfold emin; lia].
    rewrite (digits2_pos_shift m 29 (m * 2 ^ 29)); [lia|lia|apply mul_pow2_pos]. }
  split; [|exact N].
  unfold F64.of_float.
  apply (binary_round_exact 53 1024 ltac:(lia) s m e (-1074)).
  - lia.
  - unfold emin. lia.
  - apply normal_bounded. exact N.
  - unfold sval. rewrite mul_pow2_pos.
    replace (e - -1074) with (29 + (e - 29 - -1074)) by lia.
    rewrite pow2_split by lia. lia.
Qed.

(** Multiplying a normal double by 0.5 lowers its exponent. *)
Lemma F64_mul_half (s : bool) (m : positive) (e : Z) :
  normal 53 1024 m e -> -1073 <= e ->
  F64.mul (S754_finite s m e) (F64.lit 5 1) = S754_finite s m (e - 1).
Proof.
  intros [D [L U]] He.
  change (F64.lit 5 1) with (S754_finite false (2 ^ 52) (-53)).
  unfold F64.mul, SFmul.
  replace (xorb s false) with s by (destruct s; reflexivity).
  apply (binary_round_aux_exact 53 1024 ltac:(lia) s (m * 2 ^ 52) (e + -53) (-1200)).
  - rewrite (digits2_pos_shift m 52 (m * 2 ^ 52)); [|lia|apply mul_pow2_pos].
    rewrite D. unfold fexp, emin. lia.
  - lia.
  - unfold emin. lia.
  - apply normal_bounded. split; [exact D|unfold emin in *; lia].
  - unfold sval. rewrite mul_pow2_pos.
    replace (e - 1 - -1200) with (52 + (e + -53 - -1200)) by lia.
    rewrite pow2_split by lia. lia.
Qed.

Section Add.

Variables prec emax : Z.
Hypothesis Hprec : 0 < prec.

(** The sum of two positive floats lies between any two representable
    numbers that enclose the exact sum. *)
Lemma SFadd_pos_bounds (mx my : positive) (ex ey c : Z)
      (lm hm : positive) (le he : Z) :
  c <= ex -> c <= ey -> c <= emin prec emax ->
  bounded prec emax lm le = true ->
  bounded prec emax hm he = true ->
  sval c (Zpos lm) le <= sval c (Zpos mx) ex + sval c (Zpos my) ey
    <= sval c (Zpos hm) he ->
  exists m e,
    SFadd prec emax (S754_finite false mx ex) (S754_finite false my ey)
      = S754_finite false m e /\
    bounded prec emax m e = true /\
    sval c (Zpos lm) le <= sval c (Zpos m) e <= sval c (Zpos hm) he.
Proof.
  intros Hx Hy Hc Hlo Hhi HB. unfold SFadd.
  pose proof (shl_align_spec mx ex (Z.min ex ey)) as Sx.
  pose proof (shl_align_spec my ey (Z.min ex ey)) as Sy.
  destruct (shl_align mx ex (Z.min ex ey)) as [ax ezx].
  destruct (shl_align my ey (Z.min ex ey)) as [ay ezy].
  destruct Sx as [Ex Ax], Sy as [Ey Ay]. cbn [fst cond_Zopp Z.add binary_normalize].
  set (ez := Z.min ex ey) in *.
  assert (Hzx : ezx = ez) by lia. assert (Hzy : ezy = ez) by lia.
  clear Ex Ey. subst ezx ezy.
  apply (binary_round_bounds prec emax Hprec false (ax + ay) ez c lm hm le he);
    try assumption; try lia.
  assert (V : sval c (Zpos (ax + ay)) ez = sval c (Zpos mx) ex + sval c (Zpos my) ey).
  { unfold sval. rewrite Pos2Z.inj_add, Ax, Ay.
    replace (ex - c) with ((ex - ez) + (ez - c)) by lia.
    replace (ey - c) with ((ey - ez) + (ez - c)) by lia.
    rewrite !pow2_split by lia. lia. }
  rewrite V. exact HB.
Qed.

End Add.

(** The value of a positive float, scaled by [2 ^ (- c)]. *)
Lemma SF2Q_sval (c : Z) (m : positive) (e : Z) :
  c <= e -> c <= 0 ->
  (SF2Q (S754_finite false m e) * inject_Z (2 ^ (- c)) == inject_Z (sval c (Zpos m) e))%Q.
Proof.
  intros Hce Hc. unfold sval, SF2Q. cbn [cond_Zopp].
  pose proof (pow2_pos (- c) ltac:(lia)).
  destruct e as [|p|p].
  - unfold Qeq, Qmult, inject_Z. cbn [Qnum Qden]. change (0 - c) with (- c). lia.
  - unfold Qeq, Qmult, inject_Z. cbn [Qnum Qden].
    replace (Zpos p - c) with (Zpos p + - c) by lia.
    rewrite pow2_split by lia. lia.
  - unfold Qeq, Qmult, inject_Z. cbn [Qnum Qden].
    rewrite Pos.mul_1_r, Pos2Z.inj_pow.
    replace (- c) with ((Zneg p - c) + Zpos p) by lia.
    rewrite pow2_split by lia. lia.
Qed.

Lemma SF2Q_le_sval (c : Z) (m m' : positive) (e e' : Z) :
  c <= e -> c <= e' -> c <= 0 ->
  sval c (Zpos m) e <= sval c (Zpos m') e' ->
  (SF2Q (S754_finite false m e) <= SF2Q (S754_finite false m' e'))%Q.
Proof.
  intros He He' Hc H.
  pose proof (pow2_pos (- c) ltac:(lia)) as P.
  apply Qmult_le_r with (z := inject_Z (2 ^ (- c))).
  - change 0%Q with (inject_Z 0). rewrite <- Zlt_Qlt. exact P.
  - rewrite !SF2Q_sval by assumption. rewrite <- Zle_Qle. exact H.
Qed.

Section Between.

Variables prec emax : Z.
Hypothesis Hprec : 0 < prec.

(** A representable number between two others has its exponent between
    theirs, and a full mantissa when the lower one is not subnormal. *)
Lemma bounded_between (c : Z) (m lm hm : positive) (e le he : Z) :
  bounded prec emax m e = true ->
  bounded prec emax lm le = true ->
  bounded prec emax hm he = true ->
  c <= emin prec emax -> emin prec emax < le ->
  sval c (Zpos lm) le <= sval c (Zpos m) e <= sval c (Zpos hm) he ->
  le <= e <= he /\ normal prec emax m e.
Proof.
  intros Hb Hlo Hhi Hc Hle [L U].
  pose proof (bounded_emin prec emax Hprec m e Hb).
  pose proof (bounded_emin prec emax Hprec hm he Hhi).
  assert (Hb' := Hb). apply andb_prop in Hb', Hlo, Hhi.
  destruct Hb' as [Cm Em], Hlo as [Cl _], Hhi as [Ch _]. apply Z.leb_le in Em.
  destruct (canonical_digits prec emax Hprec m e Cm) as (Mlt & _ & Mn).
  destruct (canonical_digits prec emax Hprec lm le Cl) as (_ & _ & Ln).
  assert (E1 : le <= e).
  { destruct (Z.le_gt_cases le e) as [|G]; [assumption|exfalso].
    pose proof (sval_canonical_lt prec emax Hprec c m e le Cm ltac:(lia) G).
    pose proof (sval_mono c _ _ le ltac:(lia) (Ln Hle)). lia. }
  assert (E2 : e <= he).
  { destruct (Z.le_gt_cases e he) as [|G]; [assumption|exfalso].
    pose proof (sval_canonical_lt prec emax Hprec c hm he e Ch ltac:(lia) G).
    pose proof (sval_mono c _ _ e ltac:(lia) (Mn ltac:(lia))). lia. }
  split; [lia|]. split; [|lia].
  apply digits2_pos_unique. split; [apply Mn; lia|exact Mlt].
Qed.

End Between.

(** [rand() / ((float) INT_MAX) * 0.5 + 0.25] lies in [[0.25, 0.75]] for
    every value [rand()] can return. *)
Lemma opening_of_rand_bounds (r : Z) :
  0 <= r <= INT_MAX ->
  exists m e, opening_of_rand r = S754_finite false m e /\
              bounded 24 128 m e = true /\
              (1 # 4 <= SF2Q (S754_finite false m e) <= 3 # 4)%Q.
Proof.
  intros [R0 R1]. unfold INT_MAX, Int.max in R1.
  destruct r as [|p|p]; try lia.
  { exists 8388608%positive, (-25). repeat split; try reflexivity;
      unfold Qle; cbn; lia. }
  remember (2 ^ 1072) as t eqn:Et.
  assert (Pt : 0 < t) by (subst t; apply pow2_pos; lia).
  set (c := -1074).
  (* (float) rand() lies between 1 and 2^31 *)
  assert (L1 : sval c 8388608 (-23) = 4 * t) by (subst t; reflexivity).
  assert (H1 : sval c 8388608 8 = 2 ^ 33 * t) by (subst t; reflexivity).
  assert (V0 : sval c (Zpos p) 0 = Zpos p * (4 * t)).
  { unfold sval. f_equal. subst t. reflexivity. }
  destruct (binary_round_bounds 24 128 ltac:(lia) false p 0 c 8388608 8388608 (-23) 8)
    as (mx & ex & EX & BX & VX); try reflexivity; try (unfold c, emin; lia).
  { rewrite L1, H1, V0. nia. }
  rewrite L1, H1 in VX.
  destruct (bounded_between 24 128 ltac:(lia) c mx 8388608 8388608 ex (-23) 8)
    as (RX & NX); try assumption; try reflexivity; try (unfold c, emin; lia).
  { rewrite L1, H1. exact VX. }
  (* the quotient, as a double, halved *)
  destruct (F64_of_float_normal false mx (ex - 31)) as (EZ & NZ).
  { destruct NX as [D _]. split; [exact D|unfold emin; lia]. }
  assert (EW : F64.mul (F64.of_float (F32.div (F32.of_int (Zpos p)) (F32.of_int INT_MAX)))
                       (F64.lit 5 1)
               = S754_finite false (mx * 2 ^ 29) (ex - 31 - 29 - 1)).
  { change (F32.of_int (Zpos p)) with (binary_round 24 128 false p 0).
    rewrite EX, F32_div_two31 by (assumption || lia).
    rewrite EZ. apply F64_mul_half; [exact NZ|lia]. }
  set (vw := sval c (Zpos (mx * 2 ^ 29)) (ex - 31 - 29 - 1)).
  assert (VW : sval c (Zpos mx) ex = 2 ^ 32 * vw).
  { unfold vw, sval. rewrite mul_pow2_pos.
    replace (ex - c) with ((ex - 31 - 29 - 1 - c) + 61) by lia.
    rewrite pow2_split by (unfold c; lia).
    change (2 ^ 61) with (2 ^ 29 * 2 ^ 32). change (2 ^ Zpos 29) with (2 ^ 29). lia. }
  assert (Pw : 0 < vw) by (apply sval_pos; unfold c; lia).
  (* plus 0.25 *)
  assert (Q64 : sval c (2 ^ 52) (-54) = t) by (subst t; reflexivity).
  assert (T64 : sval c (3 * 2 ^ 51) (-53) = 3 * t) by (subst t; reflexivity).
  destruct (SFadd_pos_bounds 53 1024 ltac:(lia) (mx * 2 ^ 29) (2 ^ 52)
              (ex - 31 - 29 - 1) (-54) c (2 ^ 52) (3 * 2 ^ 51) (-54) (-53))
    as (mv & ev & EV & BV & VV); try reflexivity; try (unfold c, emin; lia).
  { change (Zpos (2 ^ 52)) with (2 ^ 52). change (Zpos (3 * 2 ^ 51)) with (3 * 2 ^ 51).
    rewrite Q64, T64. fold vw. lia. }
  change (Zpos (2 ^ 52)) with (2 ^ 52) in VV.
  change (Zpos (3 * 2 ^ 51)) with (3 * 2 ^ 51) in VV.
  rewrite Q64, T64 in VV.
  (* back to float *)
  assert (Q32 : sval c 8388608 (-25) = t) by (subst t; reflexivity).
  assert (T32 : sval c 12582912 (-24) = 3 * t) by (subst t; reflexivity).
  pose proof (bounded_emin 53 1024 ltac:(lia) mv ev BV) as Mv.
  destruct (binary_round_bounds 24 128 ltac:(lia) false mv ev c 8388608 12582912 (-25) (-24))
    as (mu & eu & EU & BU & VU); try reflexivity; try (unfold c, emin in *; lia).
  exists mu, eu. split; [|split; [exact BU|]].
  - unfold opening_of_rand. rewrite EW.
    change (F64.lit 25 2) with (S754_finite false (2 ^ 52) (-54)).
    unfold F64.add, F64.prec, F64.emax. rewrite EV. exact EU.
  - pose proof (bounded_emin 24 128 ltac:(lia) mu eu BU) as Mu.
    split.
    + apply Qle_trans with (SF2Q (S754_finite false 8388608 (-25)));
        [unfold Qle; cbn; lia|].
      apply (SF2Q_le_sval c); try (unfold c, emin in *; lia).
    + apply Qle_trans with (SF2Q (S754_finite false 12582912 (-24)));
        [|unfold Qle; cbn; lia].
      apply (SF2Q_le_sval c); try (unfold c, emin in *; lia).
Qed.

Section Fits.

Variables prec emax : Z.
Hypothesis Hprec : 0 < prec.

(** A value that is representable once its mantissa is shifted left is
    rounded to itself. *)
Lemma binary_round_fits (s : bool) (mx : positive) (ex : Z) (mz : positive) (ez : Z) :
  shl_align mx ex (fexp prec emax (Zpos (digits2_pos mx) + ex)) = (mz, ez) ->
  bounded prec emax mz ez = true ->
  binary_round prec emax s mx ex = S754_finite s mz ez.
Proof.
  intros E Hb.
  pose proof (shl_align_spec mx ex (fexp prec emax (Zpos (digits2_pos mx) + ex))) as SA.
  rewrite E in SA. destruct SA as [Ez Em].
  pose proof (bounded_emin prec emax Hprec mz ez Hb) as Hm.
  apply (binary_round_exact prec emax Hprec s mx ex (Z.min ex (emin prec emax))).
  - lia.
  - lia.
  - exact Hb.
  - unfold sval. rewrite Em.
    replace (ex - Z.min ex (emin prec emax))
      with ((ex - ez) + (ez - Z.min ex (emin prec emax))) by lia.
    rewrite pow2_split by lia. lia.
Qed.

End Fits.

(** An [int] of magnitude below 2^24 converts to [float] without rounding:
    the float is normal and its value is the integer. *)
Lemma F32_of_int_exact (s : bool) (p : positive) :
  Zpos p < 2 ^ 24 ->
  exists m e,
    binary_round 24 128 s p 0 = S754_finite s m e /\
    normal 24 128 m e /\ -23 <= e <= 0 /\ Zpos m = Zpos p * 2 ^ (- e).
Proof.
  intros Hp.
  pose proof (digits2_pos_bounds p) as [DL DU].
  assert (D : Zpos (digits2_pos p) <= 24).
  { destruct (Z.le_gt_cases (Zpos (digits2_pos p)) 24) as [|G]; [assumption|].
    pose proof (pow2_le 24 (Zpos (digits2_pos p) - 1) ltac:(lia)). lia. }
  pose proof (shl_align_spec p 0 (fexp 24 128 (Zpos (digits2_pos p) + 0))) as SA.
  destruct (shl_align p 0 (fexp 24 128 (Zpos (digits2_pos p) + 0))) as [mz ez] eqn:E.
  destruct SA as [Ez Em].
  assert (Ez' : ez = Zpos (digits2_pos p) - 24) by (unfold fexp, emin in Ez; lia).
  assert (N : normal 24 128 mz ez).
  { split; [|unfold emin; lia].
    rewrite (digits2_pos_shift p (0 - ez) mz); [lia|lia|exact Em]. }
  exists mz, ez. split; [|split; [exact N|split; [lia|]]].
  - apply (binary_round_fits 24 128 ltac:(lia) s p 0 mz ez E).
    apply normal_bounded. exact N.
  - rewrite Em. f_equal.
Qed.

(** The sign-magnitude integer behind [cond_Zopp]. *)
Lemma int_of_SF_exact (s : bool) (m : positive) (e : Z) (p : positive) :
  e < 0 -> Zpos m = Zpos p * 2 ^ (- e) -> Zpos p <= Int.max ->
  int_of_SF (S754_finite s m e) = cond_Zopp s (Zpos p).
Proof.
  intros He Em Hp. unfold int_of_SF, SFtrunc.
  destruct e as [|q|q]; try lia.
  change (- Zneg q) with (Zpos q) in Em.
  rewrite Em, Z.div_mul by (pose proof (pow2_pos (Zpos q) ltac:(lia)); lia).
  unfold Int.min, Int.max in *.
  destruct s; cbn [cond_Zopp].
  - destruct (-2147483648 <=? - Zpos p) eqn:A, (- Zpos p <=? 2147483647) eqn:B; cbn;
      rewrite ?Z.leb_le, ?Z.leb_gt in *; try reflexivity; lia.
  - destruct (-2147483648 <=? Zpos p) eqn:A, (Zpos p <=? 2147483647) eqn:B; cbn;
      rewrite ?Z.leb_le, ?Z.leb_gt in *; try reflexivity; lia.
Qed.

(** At the moment of a launch ([t = 0]) the bird is at row [h0]. *)
Lemma position_at_launch (h : Z) :
  - 2 ^ 24 <= h <= 2 ^ 24 -> get_flappy_position (mk_flappy h 0) = h.
Proof.
  intros Hh.
  assert (G : forall (s : bool) (p : positive), Zpos p < 2 ^ 24 ->
            get_flappy_position (mk_flappy (cond_Zopp s (Zpos p)) 0) = cond_Zopp s (Zpos p)).
  { intros s p Hp.
    destruct (F32_of_int_exact s p Hp) as (m & e & E & N & He & Em).
    destruct (F64_of_float_normal s m e N) as (E64 & N64).
    unfold get_flappy_position, flappy_height. cbn [h0 t].
    change (F64.mul (F64.mul (F64.mul (F64.lit 5 1) (F64.of_float GRAV)) (F64.of_int 0))
                    (F64.of_int 0)) with (S754_zero false).
    change (F32.mul V0 (F32.of_int 0)) with (S754_zero true).
    assert (EX : F32.of_int (cond_Zopp s (Zpos p)) = S754_finite s m e).
    { destruct s; exact E. }
    rewrite EX. cbn [F32.add SFadd]. rewrite E64. cbn [F64.add SFadd].
    apply int_of_SF_exact.
    - lia.
    - rewrite mul_pow2_pos, Em. replace (- (e - 29)) with (- e + 29) by lia.
      rewrite pow2_split by lia. change (2 ^ Zpos 29) with (2 ^ 29). lia.
    - unfold Int.max. change (2 ^ 24) with 16777216 in Hp. lia. }
  destruct (Z.eq_dec h (2 ^ 24)) as [->|]; [reflexivity|].
  destruct (Z.eq_dec h (- 2 ^ 24)) as [->|]; [reflexivity|].
  destruct h as [|p|p].
  - reflexivity.
  - apply (G false p). lia.
  - apply (G true p). change (Zpos p < 2 ^ 24). lia.
Qed.

(** ** The rows of the opening of a pipe in play *)

Lemma sval_le_SF2Q (c : Z) (m m' : positive) (e e' : Z) :
  c <= e -> c <= e' -> c <= 0 ->
  (SF2Q (S754_finite false m e) <= SF2Q (S754_finite false m' e'))%Q ->
  sval c (Zpos m) e <= sval c (Zpos m') e'.
Proof.
  intros He He' Hc H.
  pose proof (pow2_pos (- c) ltac:(lia)) as P.
  rewrite Zle_Qle, <- !SF2Q_sval by assumption.
  apply Qmult_le_compat_r; [exact H|].
  change 0%Q with (inject_Z 0). rewrite <- Zle_Qle. lia.
Qed.

Lemma digits2_pos_lower (p : positive) (k : Z) :
  0 <= k -> 2 ^ k <= Zpos p -> k + 1 <= Zpos (digits2_pos p).
Proof.
  intros Hk H. pose proof (digits2_pos_bounds p) as [_ U].
  destruct (Z.le_gt_cases (k + 1) (Zpos (digits2_pos p))) as [|G]; [assumption|].
  pose proof (pow2_le (Zpos (digits2_pos p)) k ltac:(lia)). lia.
Qed.

(** For such a height the float [o * 23] lies in [[5.75, 17.25]]. *)
Lemma opening_times_rows (o : float) :
  opening_in_range o ->
  exists m e, F32.mul o (F32.of_int (Int.sub NUM_ROWS 1)) = S754_finite false m e /\
              bounded 24 128 m e = true /\
              sval (-200) 12058624 (-21) <= sval (-200) (Zpos m) e
                <= sval (-200) 9043968 (-19).
Proof.
  intros (m & e & -> & Hb & Hlo & Hhi).
  pose proof (bounded_emin 24 128 ltac:(lia) m e Hb) as Hmin. unfold emin in Hmin.
  assert (L : sval (-181) 8388608 (-25) <= sval (-181) (Zpos m) e).
  { apply sval_le_SF2Q; try lia. eapply Qle_trans; [|exact Hlo]. unfold Qle; cbn; lia. }
  assert (U : sval (-181) (Zpos m) e <= sval (-181) 12582912 (-24)).
  { apply sval_le_SF2Q; try lia. eapply Qle_trans; [exact Hhi|]. unfold Qle; cbn; lia. }
  destruct (bounded_between 24 128 ltac:(lia) (-181) m 8388608 12582912 e (-25) (-24))
    as (He & N); try assumption; try reflexivity; try (unfold emin; lia).
  destruct N as [D _].
  change (F32.of_int (Int.sub NUM_ROWS 1)) with (S754_finite false 12058624 (-19)).
  unfold F32.mul, SFmul. cbn [xorb].
  assert (M : Zpos (m * 12058624) = Zpos m * 12058624) by lia.
  assert (V : sval (-200) (Zpos (m * 12058624)) (e + -19)
              = 12058624 * sval (-181) (Zpos m) e).
  { unfold sval. rewrite M. replace (e + -19 - -200) with (e - -181) by lia. lia. }
  destruct (binary_round_aux_bounds 24 128 ltac:(lia) false (m * 12058624) (e + -19) (-200)
           12058624 9043968 (-21) (-19)) as (m' & e' & E' & B' & _ & V');
    try reflexivity; try lia; [| |exists m', e'; auto].
  - pose proof (digits2_pos_bounds m) as [DL _]. rewrite D in DL.
    pose proof (digits2_pos_lower (m * 12058624) 46 ltac:(lia)) as G.
    change (2 ^ (24 - 1)) with 8388608 in DL. change (2 ^ 46) with 70368744177664 in G.
    unfold fexp, emin. lia.
  - rewrite V. unfold sval in L, U |- *.
    change (2 ^ (-21 - -200)) with (2 ^ 179).
    change (2 ^ (-19 - -200)) with (2 ^ 181).
    change (2 ^ (-25 - -181)) with (2 ^ 156) in L.
    change (2 ^ (-24 - -181)) with (2 ^ 157) in U.
    change (2 ^ 179) with (2 ^ 23 * 2 ^ 156).
    change (2 ^ 181) with (2 ^ 24 * 2 ^ 157).
    change (2 ^ 23) with 8388608. change (2 ^ 24) with 16777216.
    set (a := 2 ^ 156) in *. set (b := 2 ^ 157) in *.
    set (v := Zpos m * 2 ^ (e - -181)) in *. lia.
Qed.

Section Sub.

Variables prec emax : Z.
Hypothesis Hprec : 0 < prec.

(** The difference of two positive floats lies between any two
    representable positive numbers that enclose the exact difference. *)
Lemma SFsub_pos_bounds (mx my : positive) (ex ey c : Z)
      (lm hm : positive) (le he : Z) :
  c <= ex -> c <= ey -> c <= emin prec emax ->
  bounded prec emax lm le = true ->
  bounded prec emax hm he = true ->
  sval c (Zpos lm) le <= sval c (Zpos mx) ex - sval c (Zpos my) ey
    <= sval c (Zpos hm) he ->
  exists m e,
    SFsub prec emax (S754_finite false mx ex) (S754_finite false my ey)
      = S754_finite false m e /\
    bounded prec emax m e = true /\
    sval c (Zpos lm) le <= sval c (Zpos m) e <= sval c (Zpos hm) he.
Proof.
  intros Hx Hy Hc Hlo Hhi HB. unfold SFsub.
  pose proof (shl_align_spec mx ex (Z.min ex ey)) as Sx.
  pose proof (shl_align_spec my ey (Z.min ex ey)) as Sy.
  destruct (shl_align mx ex (Z.min ex ey)) as [ax ezx].
  destruct (shl_align my ey (Z.min ex ey)) as [ay ezy].
  destruct Sx as [Ex Ax], Sy as [Ey Ay]. cbn [fst cond_Zopp].
  set (ez := Z.min ex ey) in *.
  assert (Hzx : ezx = ez) by lia. assert (Hzy : ezy = ez) by lia.
  clear Ex Ey. subst ezx ezy.
  pose proof (bounded_emin prec emax Hprec lm le Hlo) as Lmin.
  pose proof (sval_pos c (Zpos lm) le ltac:(lia) ltac:(lia)) as Lpos.
  assert (V : sval c (Zpos ax - Zpos ay) ez = sval c (Zpos mx) ex - sval c (Zpos my) ey).
  { unfold sval. rewrite Ax, Ay.
    replace (ex - c) with ((ex - ez) + (ez - c)) by lia.
    replace (ey - c) with ((ey - ez) + (ez - c)) by lia.
    rewrite !pow2_split by lia. lia. }
  destruct (Zpos ax - Zpos ay) as [|d|d] eqn:E.
  - rewrite <- V in HB. unfold sval in HB at 2. lia.
  - cbn [binary_normalize].
    apply (binary_round_bounds prec emax Hprec false d ez c lm hm le he);
      try assumption; try lia.
  - exfalso. rewrite <- V in HB. unfold sval in HB at 2.
    pose proof (pow2_pos (ez - c) ltac:(lia)). nia.
Qed.

End Sub.

(** The [int] part of a positive float below 1 in exponent. *)
Lemma int_of_SF_between (c : Z) (m : positive) (e a b : Z) :
  c <= e -> e <= 0 -> 0 <= a -> b < Int.max ->
  sval c a 0 <= sval c (Zpos m) e < sval c (b + 1) 0 ->
  a <= int_of_SF (S754_finite false m e) <= b.
Proof.
  intros Hc He Ha Hb [L U].
  assert (S : forall k, sval c k 0 = k * 2 ^ (- e) * 2 ^ (e - c)).
  { intros k. unfold sval. replace (0 - c) with (- e + (e - c)) by lia.
    rewrite pow2_split by lia. lia. }
  rewrite S in L, U. unfold sval in L, U.
  pose proof (pow2_pos (e - c) ltac:(lia)) as P.
  pose proof (pow2_pos (- e) ltac:(lia)) as P'.
  assert (L' : a * 2 ^ (- e) <= Zpos m) by nia.
  assert (U' : Zpos m < (b + 1) * 2 ^ (- e)) by nia.
  assert (T : SFtrunc (S754_finite false m e) = Some (Zpos m / 2 ^ (- e))).
  { unfold SFtrunc. cbn [cond_Zopp]. destruct e as [|q|q]; try lia.
    - cbn. rewrite Z.div_1_r. reflexivity.
    - reflexivity. }
  assert (Q1 : a <= Zpos m / 2 ^ (- e)) by (apply Z.div_le_lower_bound; lia).
  assert (Q2 : Zpos m / 2 ^ (- e) < b + 1) by (apply Z.div_lt_upper_bound; lia).
  unfold int_of_SF. rewrite T.
  unfold Int.min, Int.max in *.
  destruct (-2147483648 <=? Zpos m / 2 ^ (- e)) eqn:A1;
    destruct (Zpos m / 2 ^ (- e) <=? 2147483647) eqn:A2; cbn;
    rewrite ?Z.leb_le, ?Z.leb_gt in *; lia.
Qed.

(** The rows of the opening of such a pipe are on the screen. *)
Lemma opening_rows_on_screen (p : vpipe) :
  opening_in_range (opening_height p) ->
  2 <= get_orow p true <= 14 /\ 8 <= get_orow p false <= 20.
Proof.
  intros H. destruct (opening_times_rows _ H) as (m & e & E & B & V).
  pose proof (bounded_emin 24 128 ltac:(lia) m e B) as Hmin. unfold emin in Hmin.
  unfold get_orow, opening_edge, F32.to_int. rewrite E. split.
  - change (F32.of_int (half_opening true)) with (S754_finite false 12582912 (-22)).
    destruct (SFsub_pos_bounds 24 128 ltac:(lia) m 12582912 e (-22) (-200)
                11534336 14942208 (-22) (-20)) as (m' & e' & E' & B' & V');
      try reflexivity; try (unfold emin; lia).
    { revert V. unfold sval.
      change (-21 - -200) with 179. change (-19 - -200) with 181.
      change (-22 - -200) with 178. change (-20 - -200) with 180.
      change (2 ^ 179) with (2 * 2 ^ 178). change (2 ^ 181) with (8 * 2 ^ 178).
      change (2 ^ 180) with (4 * 2 ^ 178).
      set (u := 2 ^ 178). set (v := Zpos m * 2 ^ (e - -200)). lia. }
    unfold F32.sub, F32.prec, F32.emax. rewrite E'.
    pose proof (bounded_emin 24 128 ltac:(lia) m' e' B') as Hmin'. unfold emin in Hmin'.
    destruct (bounded_between 24 128 ltac:(lia) (-200) m' 11534336 14942208 e' (-22) (-20))
      as (He' & _); try assumption; try reflexivity; try (unfold emin; lia).
    apply (int_of_SF_between (-200)); try lia; [unfold Int.max; lia|].
    revert V'. unfold sval.
    change (-22 - -200) with 178. change (-20 - -200) with 180. change (0 - -200) with 200.
    change (2 ^ 200) with (4194304 * 2 ^ 178). change (2 ^ 180) with (4 * 2 ^ 178).
    set (u := 2 ^ 178). set (v := Zpos m' * 2 ^ (e' - -200)). lia.
  - change (F32.sub (S754_finite false m e) (F32.of_int (half_opening false)))
      with (F32.add (S754_finite false m e) (S754_finite false 12582912 (-22))).
    destruct (SFadd_pos_bounds 24 128 ltac:(lia) m 12582912 e (-22) (-200)
                9175040 10616832 (-20) (-19)) as (m' & e' & E' & B' & V');
      try reflexivity; try (unfold emin; lia).
    { revert V. unfold sval.
      change (-21 - -200) with 179. change (-19 - -200) with 181.
      change (-22 - -200) with 178. change (-20 - -200) with 180.
      change (2 ^ 179) with (2 * 2 ^ 178). change (2 ^ 181) with (8 * 2 ^ 178).
      change (2 ^ 180) with (4 * 2 ^ 178).
      set (u := 2 ^ 178). set (v := Zpos m * 2 ^ (e - -200)). lia. }
    unfold F32.add, F32.prec, F32.emax. rewrite E'.
    pose proof (bounded_emin 24 128 ltac:(lia) m' e' B') as Hmin'. unfold emin in Hmin'.
    destruct (bounded_between 24 128 ltac:(lia) (-200) m' 9175040 10616832 e' (-20) (-19))
      as (He' & _); try assumption; try reflexivity; try (unfold emin; lia).
    apply (int_of_SF_between (-200)); try lia; [unfold Int.max; lia|].
    revert V'. unfold sval.
    change (-19 - -200) with 181. change (-20 - -200) with 180. change (0 - -200) with 200.
    change (2 ^ 200) with (1048576 * 2 ^ 180). change (2 ^ 181) with (2 * 2 ^ 180).
    set (u := 2 ^ 180). set (v := Zpos m' * 2 ^ (e' - -200)). lia.
Qed.

(** ** [pipe_refresh] *)

Section PipeFacts.

Variable rand_value : nat -> Z.

Lemma load_store (p : pipe_ptr) (v : vpipe) (g : globals) :
  load p (store p v g) = v.
Proof. destruct p; reflexivity. Qed.

Lemma center_store_center (p : pipe_ptr) (c : Z) (g : globals) :
  center (load p (store_center p c g)) = c.
Proof. unfold store_center. rewrite load_store. reflexivity. Qed.

Lemma opening_store_center (p : pipe_ptr) (c : Z) (g : globals) :
  opening_height (load p (store_center p c g)) = opening_height (load p g).
Proof. unfold store_center. rewrite load_store. reflexivity. Qed.

(** What [pipe_wrap] leaves in the pipe and in the counters. *)
Lemma pipe_wrap_spec (p : pipe_ptr) (g : globals) :
  let g' := pipe_wrap rand_value p g in
  center (load p g') = Int.add NUM_COLS PIPE_RADIUS /\
  opening_height (load p g') = opening_of_rand (rand_value (rand_calls g)) /\
  score g' = Int.add (score g) 1 /\
  rand_calls g' = S (rand_calls g) /\
  best_score g' = best_score g /\
  getch_calls g' = getch_calls g /\
  frame g' = frame g.
Proof.
  unfold pipe_wrap, rand. cbn zeta.
  repeat match goal with |- context [if ?b then _ else _] => destruct b end;
    destruct p; cbn; repeat split; reflexivity.
Qed.

Lemma pipe_refresh_on_screen (p : pipe_ptr) (g : globals) :
  pipe_off_screen (load p g) = false ->
  pipe_refresh rand_value p g = store_center p (Int.sub (center (load p g)) 1) g.
Proof. unfold pipe_refresh. intros ->. reflexivity. Qed.

Lemma pipe_refresh_off_screen (p : pipe_ptr) (g : globals) :
  pipe_off_screen (load p g) = true ->
  pipe_refresh rand_value p g =
    store_center p (Int.sub (Int.add NUM_COLS PIPE_RADIUS) 1) (pipe_wrap rand_value p g).
Proof.
  unfold pipe_refresh. intros ->.
  destruct (pipe_wrap_spec p g) as [-> _]. reflexivity.
Qed.

Lemma store_center_frame (p : pipe_ptr) (c : Z) (g : globals) :
  score (store_center p c g) = score g /\
  sdigs (store_center p c g) = sdigs g /\
  best_score (store_center p c g) = best_score g /\
  bdigs (store_center p c g) = bdigs g /\
  rand_calls (store_center p c g) = rand_calls g /\
  getch_calls (store_center p c g) = getch_calls g /\
  frame (store_center p c g) = frame g.
Proof. destruct p; cbn; repeat split; reflexivity. Qed.

(** The center after one [pipe_refresh]. *)
Lemma pipe_refresh_center (p : pipe_ptr) (g : globals) :
  center (load p (pipe_refresh rand_value p g)) =
    if pipe_off_screen (load p g)
    then Int.sub (Int.add NUM_COLS PIPE_RADIUS) 1
    else Int.sub (center (load p g)) 1.
Proof.
  destruct (pipe_off_screen (load p g)) eqn:E.
  - rewrite pipe_refresh_off_screen by exact E. apply center_store_center.
  - rewrite pipe_refresh_on_screen by exact E. apply center_store_center.
Qed.

(** Refreshing one pipe leaves the other one alone. *)
Lemma pipe_refresh_other (p q : pipe_ptr) (g : globals) :
  p <> q -> load q (pipe_refresh rand_value p g) = load q g.
Proof.
  intros Hpq. unfold pipe_refresh, pipe_wrap, rand. cbn zeta.
  repeat match goal with |- context [if ?b then _ else _] => destruct b end;
    destruct p, q; try congruence; reflexivity.
Qed.

Lemma off_screen_iff (v : vpipe) :
  Int.in_range (center v + PIPE_RADIUS) ->
  (pipe_off_screen v = true <-> center v + PIPE_RADIUS < 0).
Proof.
  intros H. unfold pipe_off_screen. rewrite IntFacts.add_exact by exact H.
  apply Z.ltb_lt.
Qed.

(** One step keeps the center at or above [-(PIPE_RADIUS + 1)]. *)
Lemma pipe_refresh_center_lower (p q : pipe_ptr) (g : globals) :
  - (PIPE_RADIUS + 1) <= center (load q g) ->
  - (PIPE_RADIUS + 1) <= center (load q (pipe_refresh rand_value p g)).
Proof.
  intros H.
  assert (Hpq : p = q \/ p <> q) by (destruct p, q; auto; right; discriminate).
  destruct Hpq as [<- | Hpq].
  2:{ rewrite pipe_refresh_other by exact Hpq. exact H. }
  rewrite pipe_refresh_center.
  destruct (pipe_off_screen (load p g)) eqn:E.
  - vm_compute. discriminate.
  - unfold pipe_off_screen in E. apply Z.ltb_ge in E.
    unfold Int.sub, Int.add in *.
    replace (center (load p g) - 1) with (center (load p g) + PIPE_RADIUS + -4)
      by (unfold PIPE_RADIUS; lia).
    rewrite <- IntFacts.wrap_wrap_add.
    pose proof (IntFacts.wrap_range (center (load p g) + PIPE_RADIUS)) as R.
    unfold Int.in_range, Int.min, Int.max in R.
    rewrite IntFacts.wrap_small.
    + unfold PIPE_RADIUS in *. lia.
    + unfold Int.in_range, Int.min, Int.max. lia.
Qed.

End PipeFacts.

(** ** The obstacle life cycle *)

Section Obstacles.

Variable rand_value : nat -> Z.

Lemma advances_center_lower (ps : list pipe_ptr) (q : pipe_ptr) (g : globals) :
  - (PIPE_RADIUS + 1) <= center (load q g) ->
  - (PIPE_RADIUS + 1) <= center (load q (advances rand_value ps g)).
Proof.
  revert g. induction ps as [|p ps IH]; intros g H; cbn.
  - exact H.
  - apply IH. apply pipe_refresh_center_lower. exact H.
Qed.

Lemma start_game_centers (l : locals) (g : globals) :
  center (p1 (snd (start_game rand_value l g))) = 94 /\
  center (p2 (snd (start_game rand_value l g))) = 138.
Proof. split; reflexivity. Qed.

(** C10. A pipe whose center is at least [-(PIPE_RADIUS + 1)] = -4, as it
    is for both pipes when a game starts (94 and 138), keeps its center at
    or above -4 through any sequence of [pipe_refresh] calls; and a pipe
    that has reached -4 (right edge at column -1) is wrapped by its very
    next [pipe_refresh]. *)
Theorem pipe_center_never_below_respawn_column
    (ps : list pipe_ptr) (q : pipe_ptr) (g : globals) :
  - (PIPE_RADIUS + 1) <= center (load q g) ->
  let g' := advances rand_value ps g in
  - (PIPE_RADIUS + 1) <= center (load q g') /\
  (center (load q g') = - (PIPE_RADIUS + 1) ->
     pipe_off_screen (load q g') = true /\
     center (load q (pipe_refresh rand_value q g')) = NUM_COLS + PIPE_RADIUS - 1) /\
  (forall (l : locals) (g0 : globals),
     let g1 := snd (start_game rand_value l g0) in
     - (PIPE_RADIUS + 1) <= center (p1 g1) /\ - (PIPE_RADIUS + 1) <= center (p2 g1)).
Proof.
  intros H g'. split; [|split].
  - apply advances_center_lower. exact H.
  - intros E.
    assert (O : pipe_off_screen (load q g') = true)
      by (unfold pipe_off_screen; rewrite E; reflexivity).
    split; [exact O|].
    rewrite pipe_refresh_center, O. reflexivity.
  - intros l g0 g1. destruct (start_game_centers l g0) as [E1 E2].
    subst g1. rewrite E1, E2. unfold PIPE_RADIUS. lia.
Qed.

(** [k] consecutive refreshes of a pipe that starts at center [c] with
    [PIPE_RADIUS <= c + PIPE_RADIUS - k + 1]: no wrap, the center goes down
    by [k], nothing else changes. *)
Lemma refresh_without_wrap (k : nat) (p : pipe_ptr) (g : globals) :
  Z.of_nat k <= center (load p g) + PIPE_RADIUS + 1 ->
  center (load p g) <= Int.max - PIPE_RADIUS ->
  let g' := Nat.iter k (pipe_refresh rand_value p) g in
  center (load p g') = center (load p g) - Z.of_nat k /\
  opening_height (load p g') = opening_height (load p g) /\
  score g' = score g /\ rand_calls g' = rand_calls g /\
  best_score g' = best_score g.
Proof.
  induction k as [|k IH]; intros Hk Hc.
  - cbn. repeat split; lia.
  - cbn zeta in *. rewrite Nat.iter_succ.
    destruct IH as (Ec & Eo & Es & Er & Eb); [lia | exact Hc |].
    set (gk := Nat.iter k (pipe_refresh rand_value p) g) in *.
    assert (O : pipe_off_screen (load p gk) = false).
    { unfold pipe_off_screen. apply Z.ltb_ge.
      rewrite IntFacts.add_exact; unfold Int.in_range, Int.min, Int.max in *;
        unfold PIPE_RADIUS in *; lia. }
    rewrite pipe_refresh_on_screen by exact O.
    rewrite center_store_center, opening_store_center.
    destruct (store_center_frame p (Int.sub (center (load p gk)) 1) gk)
      as (-> & _ & -> & _ & -> & _).
    rewrite IntFacts.sub_exact;
      [|unfold Int.in_range, Int.min, Int.max in *; unfold PIPE_RADIUS in *; lia].
    repeat split; try assumption. lia.
Qed.

(** C8. Scenario C: from center 4 (radius 3), eight refreshes bring the
    center to -4 without any wrap (no draw of [rand()], score untouched);
    the ninth finds the pipe off screen, wraps its center to
    [NUM_COLS + PIPE_RADIUS] (then decrements it) and increments the score
    exactly once. *)
Theorem scenario_C_ninth_advance_wraps (p : pipe_ptr) (g : globals) :
  center (load p g) = 4 ->
  let g8 := Nat.iter 8 (pipe_refresh rand_value p) g in
  let g9 := pipe_refresh rand_value p g8 in
  PIPE_RADIUS = 3 /\
  (forall k, (k < 8)%nat ->
     pipe_off_screen (load p (Nat.iter k (pipe_refresh rand_value p) g)) = false) /\
  center (load p g8) = -4 /\
  score g8 = score g /\ rand_calls g8 = rand_calls g /\
  opening_height (load p g8) = opening_height (load p g) /\
  pipe_off_screen (load p g8) = true /\
  center (load p (pipe_wrap rand_value p g8)) = NUM_COLS + PIPE_RADIUS /\
  center (load p g9) = NUM_COLS + PIPE_RADIUS - 1 /\
  score g9 = Int.add (score g) 1 /\
  (Int.min <= score g < Int.max -> score g9 = score g + 1) /\
  rand_calls g9 = S (rand_calls g).
Proof.
  intros H g8 g9.
  assert (A : forall k, (k <= 8)%nat ->
    let gk := Nat.iter k (pipe_refresh rand_value p) g in
    center (load p gk) = 4 - Z.of_nat k /\
    opening_height (load p gk) = opening_height (load p g) /\
    score gk = score g /\ rand_calls gk = rand_calls g).
  { intros k Hk gk.
    destruct (refresh_without_wrap k p g) as (Ec & Eo & Es & Er & _).
    - rewrite H. unfold PIPE_RADIUS. lia.
    - rewrite H. vm_compute. discriminate.
    - subst gk. rewrite Ec, H. auto. }
  destruct (A 8%nat (le_n _)) as (Ec & Eo & Es & Er). fold g8 in Ec, Eo, Es, Er.
  assert (O : pipe_off_screen (load p g8) = true)
    by (unfold pipe_off_screen; rewrite Ec; reflexivity).
  destruct (pipe_wrap_spec rand_value p g8) as (Wc & _ & Ws & Wr & _).
  assert (S9 : score g9 = Int.add (score g) 1).
  { subst g9. rewrite pipe_refresh_off_screen by exact O.
    destruct (store_center_frame p (Int.sub (Int.add NUM_COLS PIPE_RADIUS) 1)
                (pipe_wrap rand_value p g8)) as (-> & _).
    rewrite Ws, Es. reflexivity. }
  repeat split.
  - intros k Hk. destruct (A k ltac:(lia)) as (Ek & _).
    unfold pipe_off_screen. rewrite Ek. apply Z.ltb_ge.
    rewrite IntFacts.add_exact;
      unfold Int.in_range, Int.min, Int.max, PIPE_RADIUS; lia.
  - exact Ec.
  - exact Es.
  - exact Er.
  - exact Eo.
  - exact O.
  - exact Wc.
  - subst g9. rewrite pipe_refresh_center, O. reflexivity.
  - exact S9.
  - intros Hs. rewrite S9. apply IntFacts.add_exact.
    unfold Int.in_range, Int.min, Int.max in *. lia.
  - subst g9. rewrite pipe_refresh_off_screen by exact O.
    destruct (store_center_frame p (Int.sub (Int.add NUM_COLS PIPE_RADIUS) 1)
                (pipe_wrap rand_value p g8)) as (_ & _ & _ & _ & -> & _).
    rewrite Wr, Er. reflexivity.
Qed.

End Obstacles.

(** ** Collisions *)

Lemma int_of_SF_range (x : spec_float) : Int.in_range (int_of_SF x).
Proof.
  unfold int_of_SF, Int.in_range.
  destruct (SFtrunc x) as [z|]; [|unfold Int.min, Int.max; lia].
  destruct (Int.min <=? z) eqn:E1; destruct (z <=? Int.max) eqn:E2; cbn;
    rewrite ?Z.leb_le in *; unfold Int.min, Int.max in *; lia.
Qed.

Lemma get_orow_range (p : vpipe) (top : bool) : Int.in_range (get_orow p top).
Proof. apply int_of_SF_range. Qed.

Lemma get_flappy_position_range (f : flappy) : Int.in_range (get_flappy_position f).
Proof. apply int_of_SF_range. Qed.

(** [crashed_into_pipe], test by test, in the [int] arithmetic of the code. *)
Lemma crashed_into_pipe_iff (f : flappy) (p : vpipe) :
  crashed_into_pipe f p = true <->
  Int.sub (Int.sub (center p) PIPE_RADIUS) 1 <= FLAPPY_COL
    <= Int.add (Int.add (center p) PIPE_RADIUS) 1 /\
  ~ (Int.add (get_orow p true) 1 <= get_flappy_position f
       <= Int.sub (get_orow p false) 1).
Proof.
  unfold crashed_into_pipe. rewrite !Z.geb_leb.
  destruct (Z.leb_spec (Int.sub (Int.sub (center p) PIPE_RADIUS) 1) FLAPPY_COL),
    (Z.leb_spec FLAPPY_COL (Int.add (Int.add (center p) PIPE_RADIUS) 1)),
    (Z.leb_spec (Int.add (get_orow p true) 1) (get_flappy_position f)),
    (Z.leb_spec (get_flappy_position f) (Int.sub (get_orow p false) 1)); cbn;
    split; intros; try discriminate; try reflexivity; lia.
Qed.

(** The band test of [crashed_into_pipe] is the mathematical one for every
    [int] center: where its [int] expressions wrap around, both fail. *)
Lemma band_test_exact (c : Z) :
  Int.in_range c ->
  (Int.sub (Int.sub c PIPE_RADIUS) 1 <= FLAPPY_COL
     <= Int.add (Int.add c PIPE_RADIUS) 1) <->
  (c - PIPE_RADIUS - 1 <= FLAPPY_COL <= c + PIPE_RADIUS + 1).
Proof.
  intros R. unfold Int.sub, Int.add, PIPE_RADIUS, FLAPPY_COL.
  replace (Int.wrap (c - 3) - 1) with (Int.wrap (c - 3) + -1) by lia.
  rewrite !IntFacts.wrap_wrap_add.
  unfold Int.in_range, Int.min, Int.max in R.
  destruct (Z_lt_dec (c - 3 + -1) Int.min) as [Lo|Lo];
    [|destruct (Z_lt_dec Int.max (c + 3 + 1)) as [Hi|Hi]];
    unfold Int.min, Int.max in *.
  - rewrite (IntFacts.wrap_below (c - 3 + -1)) by (unfold Int.min; lia).
    rewrite (IntFacts.wrap_small (c + 3 + 1))
      by (unfold Int.in_range, Int.min, Int.max; lia). lia.
  - rewrite (IntFacts.wrap_above (c + 3 + 1)) by (unfold Int.max; lia).
    rewrite (IntFacts.wrap_small (c - 3 + -1))
      by (unfold Int.in_range, Int.min, Int.max; lia). lia.
  - rewrite !IntFacts.wrap_small by (unfold Int.in_range, Int.min, Int.max; lia).
    lia.
Qed.

(** [failure_screen] never returns 0: a bird that crashed is not drawn. *)
Lemma failure_screen_not_drawn (getch_value : nat -> Z) (g g' : globals) :
  failure_screen getch_value g <> Returned 0 g'.
Proof.
  unfold failure_screen, getch. cbn zeta.
  destruct (char_of_int (getch_value (getch_calls g)) =? KEY_q); intros X;
    discriminate X.
Qed.

(** C2. For every bird and every state of the two pipes whose rows
    [get_orow] are not the extreme [int]s.  The test against the bounds
    holds iff the row of the bird is <= 0 or >= NUM_ROWS - 1; the test
    against a pipe holds iff FLAPPY_COL lies in
    [center - radius - 1, center + radius + 1] and the row lies outside
    [get_orow(p, 1) + 1, get_orow(p, 0) - 1]; out of that band the pipe
    causes no crash, whatever the row.  [draw_flappy] reports the crash,
    by returning what [failure_screen] does, exactly when the bird is out
    of bounds or hits one of the two pipes, and returns 0 exactly when the
    bird is within the bounds and, for each pipe whose band it is in,
    inside the opening. *)
Theorem crash_rules (getch_value : nat -> Z) (f : flappy) (g : globals) :
  (forall p, Int.in_range (center (load p g)) /\
             get_orow (load p g) true < Int.max /\
             Int.min < get_orow (load p g) false) ->
  (crashed_into_bounds f = true <->
     get_flappy_position f <= 0 \/ get_flappy_position f >= NUM_ROWS - 1) /\
  (forall p,
     crashed_into_pipe f (load p g) = true <->
     center (load p g) - PIPE_RADIUS - 1 <= FLAPPY_COL
       <= center (load p g) + PIPE_RADIUS + 1 /\
     ~ (get_orow (load p g) true + 1 <= get_flappy_position f
          <= get_orow (load p g) false - 1)) /\
  (forall p,
     ~ (center (load p g) - PIPE_RADIUS - 1 <= FLAPPY_COL
          <= center (load p g) + PIPE_RADIUS + 1) ->
     forall f' : flappy, crashed_into_pipe f' (load p g) = false) /\
  (draw_flappy getch_value f g = failure_screen getch_value g <->
     (get_flappy_position f <= 0 \/ get_flappy_position f >= NUM_ROWS - 1) \/
     exists p,
       center (load p g) - PIPE_RADIUS - 1 <= FLAPPY_COL
         <= center (load p g) + PIPE_RADIUS + 1 /\
       ~ (get_orow (load p g) true + 1 <= get_flappy_position f
            <= get_orow (load p g) false - 1)) /\
  (draw_flappy getch_value f g = Returned 0 g <->
     0 < get_flappy_position f < NUM_ROWS - 1 /\
     forall p,
       center (load p g) - PIPE_RADIUS - 1 <= FLAPPY_COL
         <= center (load p g) + PIPE_RADIUS + 1 ->
       get_orow (load p g) true + 1 <= get_flappy_position f
         <= get_orow (load p g) false - 1).
Proof.
  intros S.
  assert (B : forall p f', crashed_into_pipe f' (load p g) = true <->
     center (load p g) - PIPE_RADIUS - 1 <= FLAPPY_COL
       <= center (load p g) + PIPE_RADIUS + 1 /\
     ~ (get_orow (load p g) true + 1 <= get_flappy_position f'
          <= get_orow (load p g) false - 1)).
  { intros p f'. destruct (S p) as (Rc & Ht & Hb).
    rewrite crashed_into_pipe_iff, (band_test_exact _ Rc).
    pose proof (get_orow_range (load p g) true) as Rt.
    pose proof (get_orow_range (load p g) false) as Rb.
    rewrite IntFacts.add_exact, IntFacts.sub_exact
      by (unfold Int.in_range, Int.min, Int.max in *; lia).
    reflexivity. }
  assert (Bd : crashed_into_bounds f = true <->
               get_flappy_position f <= 0 \/ get_flappy_position f >= NUM_ROWS - 1).
  { unfold crashed_into_bounds. rewrite orb_true_iff, Z.leb_le, Z.geb_le.
    change (Int.sub NUM_ROWS 1) with (NUM_ROWS - 1). lia. }
  pose proof (failure_screen_not_drawn getch_value g g) as NZ.
  split; [exact Bd|]. split; [intros p; apply B|].
  split; [intros p N f'; apply not_true_is_false; intros E; apply B in E; tauto|].
  unfold draw_flappy.
  destruct (crashed_into_bounds f) eqn:Cb.
  - assert (X : get_flappy_position f <= 0 \/ get_flappy_position f >= NUM_ROWS - 1)
      by (apply Bd; reflexivity).
    split; split.
    + intros _. left. exact X.
    + intros _. reflexivity.
    + intros E. exfalso. exact (NZ E).
    + intros [R _]. exfalso. lia.
  - assert (X : ~ (get_flappy_position f <= 0 \/ get_flappy_position f >= NUM_ROWS - 1))
      by (intros Y; apply Bd in Y; discriminate Y).
    pose proof (B ptr_p1 f) as B1. pose proof (B ptr_p2 f) as B2.
    cbn [load] in B1, B2.
    destruct (crashed_into_pipe f (p1 g)) eqn:C1;
      [|destruct (crashed_into_pipe f (p2 g)) eqn:C2]; cbn [orb].
    + destruct B1 as [B1 _]. specialize (B1 eq_refl). split; split.
      * intros _. right. exists ptr_p1. exact B1.
      * intros _. reflexivity.
      * intros E. exfalso. exact (NZ E).
      * intros [_ A]. exfalso. destruct B1 as [Hb Hn]. apply Hn, (A ptr_p1), Hb.
    + destruct B2 as [B2 _]. specialize (B2 eq_refl). split; split.
      * intros _. right. exists ptr_p2. exact B2.
      * intros _. reflexivity.
      * intros E. exfalso. exact (NZ E).
      * intros [_ A]. exfalso. destruct B2 as [Hb Hn]. apply Hn, (A ptr_p2), Hb.
    + assert (N : forall p,
                ~ (center (load p g) - PIPE_RADIUS - 1 <= FLAPPY_COL
                     <= center (load p g) + PIPE_RADIUS + 1 /\
                   ~ (get_orow (load p g) true + 1 <= get_flappy_position f
                        <= get_orow (load p g) false - 1))).
      { intros p Y. destruct p; cbn [load] in Y.
        - apply B1 in Y. discriminate Y.
        - apply B2 in Y. discriminate Y. }
      split; split.
      * intros E. exfalso. apply NZ. symmetry. exact E.
      * intros [Y|(p & Y)]; exfalso; [exact (X Y)|exact (N p Y)].
      * intros _. split; [lia|]. intros p Hb.
        destruct (Z_le_dec (get_orow (load p g) true + 1) (get_flappy_position f))
          as [L|L];
          [destruct (Z_le_dec (get_flappy_position f) (get_orow (load p g) false - 1))
             as [U|U]; [split; assumption|]|];
          exfalso; apply (N p); split; [exact Hb|lia|exact Hb|lia].
      * intros _. reflexivity.
Qed.

Lemma crash_rules_witness :
  let g := store ptr_p1 (pipe_at half_float 10) initial_globals in
  (forall p, Int.in_range (center (load p g)) /\
             get_orow (load p g) true < Int.max /\
             Int.min < get_orow (load p g) false) /\
  draw_flappy (key_const (-1)) (mk_flappy 8 0) g = failure_screen (key_const (-1)) g /\
  draw_flappy (key_const (-1)) (mk_flappy 12 0) g = Returned 0 g.
Proof.
  cbv zeta.
  assert (H : forall p,
            Int.in_range (center (load p (store ptr_p1 (pipe_at half_float 10)
                                            initial_globals))) /\
            get_orow (load p (store ptr_p1 (pipe_at half_float 10) initial_globals)) true
              < Int.max /\
            Int.min
              < get_orow (load p (store ptr_p1 (pipe_at half_float 10) initial_globals))
                  false).
  { intros p. destruct p; vm_compute; repeat split; discriminate. }
  split; [exact H|].
  destruct (crash_rules (key_const (-1)) (mk_flappy 8 0)
              (store ptr_p1 (pipe_at half_float 10) initial_globals) H)
    as (_ & _ & _ & [_ Crash] & _).
  destruct (crash_rules (key_const (-1)) (mk_flappy 12 0)
              (store ptr_p1 (pipe_at half_float 10) initial_globals) H)
    as (_ & _ & _ & _ & [_ Safe]).
  split.
  - apply Crash. right. exists ptr_p1. vm_compute.
    split; [split; discriminate|]. intros [A _]. apply A. reflexivity.
  - apply Safe. split; [vm_compute; split; reflexivity|].
    intros p. destruct p; vm_compute.
    + intros _. split; discriminate.
    + intros [_ A]. exfalso. apply A. reflexivity.
Defined.

(** ** The score counters *)

Section Scores.

Variable rand_value : nat -> Z.
Variable getch_value : nat -> Z.

Lemma pipe_refresh_keeps_best (p : pipe_ptr) (g : globals) :
  best_score (pipe_refresh rand_value p g) = best_score g /\
  getch_calls (pipe_refresh rand_value p g) = getch_calls g.
Proof.
  unfold pipe_refresh, pipe_wrap, rand. cbn zeta.
  repeat match goal with |- context [if ?b then _ else _] => destruct b end;
    destruct p; cbn; split; reflexivity.
Qed.

Lemma start_game_keeps_scores (l : locals) (g : globals) :
  let g' := snd (start_game rand_value l g) in
  score g' = score g /\ sdigs g' = sdigs g /\
  best_score g' = best_score g /\ bdigs g' = bdigs g /\
  getch_calls g' = getch_calls g /\
  restart (fst (start_game rand_value l g)) = 0.
Proof. cbn. repeat split; reflexivity. Qed.

(** The restart path of [failure_screen]. *)
Lemma failure_screen_restart (g : globals) :
  char_of_int (getch_value (getch_calls g)) <> KEY_q ->
  exists g', failure_screen getch_value g = Returned 1 g' /\
             best_score g' = Z.max (best_score g) (score g) /\
             score g' = 0.
Proof.
  intros H. unfold failure_screen, getch. cbn zeta.
  apply Z.eqb_neq in H. rewrite H.
  eexists. split; [reflexivity|].
  cbn [score best_score set_score set_sdigs set_best_score].
  destruct (score g >? best_score g) eqn:E; cbn;
    repeat match goal with |- context [if ?b then _ else _] => destruct b end; cbn;
    rewrite Z.gtb_ltb in E;
    first [apply Z.ltb_lt in E | apply Z.ltb_ge in E]; split; try reflexivity; lia.
Qed.

(** The quit path of [failure_screen]. *)
Lemma failure_screen_quit (g : globals) :
  char_of_int (getch_value (getch_calls g)) = KEY_q ->
  exists g', failure_screen getch_value g = Exited g' /\
             best_score g' = best_score g /\ score g' = score g.
Proof.
  intros H. unfold failure_screen, getch. cbn zeta.
  apply Z.eqb_eq in H. rewrite H. eexists. split; [reflexivity|]. split; reflexivity.
Qed.

Lemma failure_screen_best (g : globals) :
  best_score g <= best_score (globals_of (failure_screen getch_value g)) /\
  match failure_screen getch_value g with
  | Returned r _ => r = 1
  | Exited g' => best_score g' = best_score g
  end.
Proof.
  destruct (Z.eq_dec (char_of_int (getch_value (getch_calls g))) KEY_q) as [E|E].
  - destruct (failure_screen_quit g E) as (g' & -> & Eb & _). cbn. lia.
  - destruct (failure_screen_restart g E) as (g' & -> & Eb & _). cbn. lia.
Qed.

Lemma draw_flappy_best (f : flappy) (g : globals) :
  best_score g <= best_score (globals_of (draw_flappy getch_value f g)) /\
  match draw_flappy getch_value f g with
  | Returned r g' => r = 0 /\ g' = g \/ r = 1
  | Exited g' => best_score g' = best_score g
  end.
Proof.
  unfold draw_flappy.
  destruct (crashed_into_bounds f).
  - destruct (failure_screen_best g) as [L M]. split; [exact L|].
    destruct (failure_screen getch_value g); auto.
  - destruct (crashed_into_pipe f (p1 g) || crashed_into_pipe f (p2 g)).
    + destruct (failure_screen_best g) as [L M]. split; [exact L|].
      destruct (failure_screen getch_value g); auto.
    + cbn. split; [lia|auto].
Qed.

(** One iteration: [best_score] does not decrease, and it changes only
    when the iteration ends with [restart = 1], that is after a crash
    followed by the choice to play again. *)
Lemma iteration_best (l : locals) (g : globals) :
  best_score g <= best_score (globals_of (iteration rand_value getch_value l g)) /\
  match iteration rand_value getch_value l g with
  | Returned l' g' => restart l' = 1 \/ restart l' = 0 /\ best_score g' = best_score g
  | Exited g' => best_score g' = best_score g
  end.
Proof.
  unfold iteration.
  assert (S : exists l1 g1,
             (if restart l =? 0 then (l, g) else start_game rand_value l g) = (l1, g1)
             /\ best_score g1 = best_score g /\ restart l1 = 0).
  { destruct (restart l =? 0) eqn:E.
    - exists l, g. apply Z.eqb_eq in E. auto.
    - destruct (start_game_keeps_scores l g) as (_ & _ & Eb & _ & _ & Er).
      destruct (start_game rand_value l g) as [l1 g1]. exists l1, g1. auto. }
  destruct S as (l1 & g1 & -> & Eb & Er).
  unfold getch. cbn zeta.
  destruct (getch_value (getch_calls g1) =? KEY_q); [cbn; split; lia|].
  set (g2 := mk_globals _ _ _ _ _ _ _ _ _).
  set (l2 := if _ =? KEY_UP then _ else _).
  assert (Er2 : restart l2 = 0) by (subst l2; destruct (_ =? KEY_UP); exact Er).
  set (g3 := pipe_refresh rand_value ptr_p2 (pipe_refresh rand_value ptr_p1 g2)).
  assert (E3 : best_score g3 = best_score g).
  { subst g3. rewrite (proj1 (pipe_refresh_keeps_best _ _)),
      (proj1 (pipe_refresh_keeps_best _ _)). exact Eb. }
  destruct (draw_flappy_best (f l2) g3) as [L M].
  destruct (draw_flappy getch_value (f l2) g3) as [r g4|g4];
    cbn [globals_of] in L |- *.
  - destruct M as [[M1 M2]|M1]; rewrite M1; cbn [Z.eqb globals_of].
    + rewrite M2. cbn [best_score set_frame]. split; [lia|].
      right. split; [exact Er2|exact E3].
    + cbn [restart]. split; [lia|]. left. reflexivity.
  - split; lia.
Qed.

Lemma iterations_best (n : nat) (l : locals) (g : globals) :
  best_score g <= best_score (globals_of (iterations rand_value getch_value n l g)).
Proof.
  revert l g. induction n as [|n IH]; intros l g; cbn; [lia|].
  pose proof (iteration_best l g) as [L _].
  destruct (iteration rand_value getch_value l g) as [l' g'|g']; cbn in *.
  - specialize (IH l' g'). lia.
  - exact L.
Qed.

(** C7 (amended).  When the player restarts from the failure screen,
    [best_score] becomes [max best_score score] and [score] becomes 0; when
    the player quits there the process ends with both untouched.  An
    iteration of the main loop changes [best_score] only if it ends in such
    a restart, and over any number of iterations [best_score] never
    decreases. *)
Theorem best_score_folded_on_restart (g : globals) :
  (char_of_int (getch_value (getch_calls g)) <> KEY_q ->
     exists g', failure_screen getch_value g = Returned 1 g' /\
                best_score g' = Z.max (best_score g) (score g) /\ score g' = 0) /\
  (char_of_int (getch_value (getch_calls g)) = KEY_q ->
     exists g', failure_screen getch_value g = Exited g' /\
                best_score g' = best_score g /\ score g' = score g) /\
  (forall l : locals,
     match iteration rand_value getch_value l g with
     | Returned l' g' => best_score g' <> best_score g -> restart l' = 1
     | Exited g' => best_score g' = best_score g
     end) /\
  (forall (n : nat) (l : locals),
     best_score g <= best_score (globals_of (iterations rand_value getch_value n l g))).
Proof.
  split; [apply failure_screen_restart|].
  split; [apply failure_screen_quit|].
  split.
  - intros l. destruct (iteration_best l g) as [_ M].
    destruct (iteration rand_value getch_value l g) as [l' g'|g'].
    + intros N. destruct M as [M|[_ M]]; [exact M|contradiction].
    + exact M.
  - intros n l. apply iterations_best.
Qed.

(** C9. A 'q' read by the [getch()] of the main loop ends the process in
    that iteration, and no score counter has changed. *)
Theorem quit_while_playing_keeps_scores (l : locals) (g : globals) :
  getch_value (getch_calls g) = KEY_q ->
  exists g', iteration rand_value getch_value l g = Exited g' /\
             best_score g' = best_score g /\ bdigs g' = bdigs g /\
             score g' = score g /\ sdigs g' = sdigs g.
Proof.
  intros H. unfold iteration.
  destruct (start_game_keeps_scores l g) as (Es & Ed & Eb & Ebd & Eg & _).
  destruct (restart l =? 0).
  - unfold getch. cbn zeta. rewrite H. cbn. eexists. split; [reflexivity|].
    cbn. auto.
  - destruct (start_game rand_value l g) as [l1 g1]. cbn in Es, Ed, Eb, Ebd, Eg.
    unfold getch. cbn zeta. rewrite Eg, H. cbn. eexists. split; [reflexivity|].
    cbn. auto.
Qed.

End Scores.

(** ** The game in play *)

Section Play.

Variable rand_value : nat -> Z.
Variable getch_value : nat -> Z.

(** [rand()] returns a value between 0 and RAND_MAX, itself at most
    INT_MAX. *)
Hypothesis rand_range : forall n, 0 <= rand_value n <= INT_MAX.

Lemma opening_of_rand_in_range (n : nat) : opening_in_range (opening_of_rand (rand_value n)).
Proof.
  destruct (opening_of_rand_bounds _ (rand_range n)) as (m & e & E & B & Q).
  exists m, e. rewrite E. auto.
Qed.

Lemma pipe_refresh_in_play (p q : pipe_ptr) (g : globals) :
  pipe_in_play (load q g) -> pipe_in_play (load q (pipe_refresh rand_value p g)).
Proof.
  intros [[L U] O].
  assert (Hpq : p = q \/ p <> q) by (destruct p, q; auto; right; discriminate).
  destruct Hpq as [<- | Hpq].
  2:{ rewrite pipe_refresh_other by exact Hpq. split; [split|]; assumption. }
  split.
  - split; [apply pipe_refresh_center_lower; exact L|].
    rewrite pipe_refresh_center.
    destruct (pipe_off_screen (load p g)); [vm_compute; discriminate|].
    rewrite IntFacts.sub_exact;
      unfold Int.in_range, Int.min, Int.max, PIPE_RADIUS in *; lia.
  - destruct (pipe_off_screen (load p g)) eqn:E.
    + rewrite pipe_refresh_off_screen, opening_store_center by exact E.
      destruct (pipe_wrap_spec rand_value p g) as (_ & -> & _).
      apply opening_of_rand_in_range.
    + rewrite pipe_refresh_on_screen, opening_store_center by exact E. exact O.
Qed.

Lemma start_game_in_play (l : locals) (g : globals) :
  let '(l', g') := start_game rand_value l g in
  restart l' = 0 /\ f l' = mk_flappy 12 0 /\
  pipe_in_play (p1 g') /\ pipe_in_play (p2 g').
Proof.
  unfold start_game, rand. cbn zeta.
  split; [reflexivity|]. split; [reflexivity|].
  split; (split; [split; [vm_compute; discriminate|vm_compute; discriminate]|]);
    apply opening_of_rand_in_range.
Qed.

Lemma bird_in_play_iff (b : flappy) :
  crashed_into_bounds b = false <-> bird_in_play b.
Proof.
  unfold crashed_into_bounds, bird_in_play.
  change (Int.sub NUM_ROWS 1) with (NUM_ROWS - 1).
  rewrite orb_false_iff, Z.leb_gt, Z.geb_leb, Z.leb_gt. lia.
Qed.

(** One iteration of the loop keeps the game in play. *)
Lemma iteration_in_play (l : locals) (g : globals) :
  in_play l g ->
  match iteration rand_value getch_value l g with
  | Returned l' g' => in_play l' g'
  | Exited _ => True
  end.
Proof.
  intros I. unfold iteration.
  assert (S : exists l1 g1,
             (if restart l =? 0 then (l, g) else start_game rand_value l g) = (l1, g1)
             /\ pipe_in_play (p1 g1) /\ pipe_in_play (p2 g1)).
  { destruct (restart l =? 0) eqn:E.
    - apply Z.eqb_eq in E. destruct (I E) as (_ & P1 & P2). exists l, g. auto.
    - pose proof (start_game_in_play l g) as G.
      destruct (start_game rand_value l g) as [l1 g1]. exists l1, g1. tauto. }
  destruct S as (l1 & g1 & -> & P1 & P2).
  unfold getch. cbn zeta.
  destruct (getch_value (getch_calls g1) =? KEY_q); [exact Logic.I|].
  set (g2 := mk_globals _ _ _ _ _ _ _ _ _).
  assert (P1' : pipe_in_play (load ptr_p1 g2)) by exact P1.
  assert (P2' : pipe_in_play (load ptr_p2 g2)) by exact P2.
  set (l2 := if _ =? KEY_UP then _ else _).
  set (g3 := pipe_refresh rand_value ptr_p2 (pipe_refresh rand_value ptr_p1 g2)).
  assert (Q1 : pipe_in_play (p1 g3)).
  { apply (pipe_refresh_in_play ptr_p2 ptr_p1), (pipe_refresh_in_play ptr_p1 ptr_p1).
    exact P1'. }
  assert (Q2 : pipe_in_play (p2 g3)).
  { apply (pipe_refresh_in_play ptr_p2 ptr_p2), (pipe_refresh_in_play ptr_p1 ptr_p2).
    exact P2'. }
  unfold draw_flappy.
  destruct (crashed_into_bounds (f l2)) eqn:Cb;
    [|destruct (crashed_into_pipe (f l2) (p1 g3) || crashed_into_pipe (f l2) (p2 g3))].
  - destruct (failure_screen_best getch_value g3) as [_ M].
    destruct (failure_screen getch_value g3) as [r g4|g4]; [|exact Logic.I].
    rewrite M. cbn [Z.eqb]. intros R. discriminate R.
  - destruct (failure_screen_best getch_value g3) as [_ M].
    destruct (failure_screen getch_value g3) as [r g4|g4]; [|exact Logic.I].
    rewrite M. cbn [Z.eqb]. intros R. discriminate R.
  - cbn [Z.eqb]. intros _. split; [apply bird_in_play_iff; exact Cb|].
    split; [exact Q1|exact Q2].
Qed.

(** The state at the head of the loop is in play, however long the game
    has run. *)
Lemma iterations_in_play (n : nat) (l : locals) (g : globals) :
  in_play l g ->
  match iterations rand_value getch_value n l g with
  | Returned l' g' => in_play l' g'
  | Exited _ => True
  end.
Proof.
  revert l g. induction n as [|n IH]; intros l g I; cbn [iterations]; [exact I|].
  pose proof (iteration_in_play l g I) as S.
  destruct (iteration rand_value getch_value l g) as [l' g'|g']; [|exact Logic.I].
  apply IH. exact S.
Qed.

Lemma initial_in_play (f0 : flappy) : in_play (initial_locals f0) initial_globals.
Proof. intros R. discriminate R. Qed.

(** So is every state that [main] reaches at the head of its loop. *)
Lemma main_loop_in_play (n : nat) (f0 : flappy) :
  match iterations rand_value getch_value n (initial_locals f0) initial_globals with
  | Returned l g => in_play l g
  | Exited _ => True
  end.
Proof. apply iterations_in_play, initial_in_play. Qed.

(** While the game is in play the side conditions of the collision rules
    and of the boost are met. *)
Lemma in_play_side_conditions (l : locals) (g : globals) :
  in_play l g -> restart l = 0 ->
  - 2 ^ 24 <= get_flappy_position (f l) <= 2 ^ 24 /\
  forall p, Int.in_range (center (load p g)) /\
            get_orow (load p g) true < Int.max /\
            Int.min < get_orow (load p g) false.
Proof.
  intros I R. destruct (I R) as (B & P1 & P2). split.
  - unfold bird_in_play, NUM_ROWS in B. change (2 ^ 24) with 16777216. lia.
  - intros p. assert (P : pipe_in_play (load p g)) by (destruct p; assumption).
    destruct P as [[L U] O].
    destruct (opening_rows_on_screen _ O) as [T Bo].
    unfold Int.in_range, Int.min, Int.max, PIPE_RADIUS in *. lia.
Qed.

End Play.

(** ** The wrap of a pipe *)

Section Wrap.

Variable rand_value : nat -> Z.

(** C1 (amended).  [pipe_refresh] first tests [center + PIPE_RADIUS < 0].
    When the test holds it sets the center to [NUM_COLS + PIPE_RADIUS],
    draws a new opening height [rand() / (float) INT_MAX * 0.5 + 0.25],
    which lies in the closed interval [[0.25, 0.75]], and increments the
    score once; in every case it then decrements the center, so that after
    a wrap the center is [NUM_COLS + PIPE_RADIUS - 1]. *)
Theorem pipe_refresh_wraps_and_decrements (p : pipe_ptr) (g : globals) :
  0 <= rand_value (rand_calls g) <= INT_MAX ->
  let g' := pipe_refresh rand_value p g in
  (Int.in_range (center (load p g) + PIPE_RADIUS) ->
     (pipe_off_screen (load p g) = true <-> center (load p g) + PIPE_RADIUS < 0)) /\
  (pipe_off_screen (load p g) = true ->
     center (load p (pipe_wrap rand_value p g)) = NUM_COLS + PIPE_RADIUS /\
     center (load p g') = NUM_COLS + PIPE_RADIUS - 1 /\
     opening_height (load p g') = opening_of_rand (rand_value (rand_calls g)) /\
     (1 # 4 <= SF2Q (opening_height (load p g')) <= 3 # 4)%Q /\
     rand_calls g' = S (rand_calls g) /\
     score g' = Int.add (score g) 1 /\
     (Int.min <= score g < Int.max -> score g' = score g + 1)) /\
  (pipe_off_screen (load p g) = false ->
     center (load p g') = Int.sub (center (load p g)) 1 /\
     (Int.in_range (center (load p g)) -> center (load p g') = center (load p g) - 1) /\
     opening_height (load p g') = opening_height (load p g) /\
     rand_calls g' = rand_calls g /\
     score g' = score g).
Proof.
  intros Hr g'. split; [|split].
  - apply off_screen_iff.
  - intros O. subst g'. rewrite pipe_refresh_off_screen by exact O.
    destruct (pipe_wrap_spec rand_value p g) as (Wc & Wo & Ws & Wr & _).
    destruct (store_center_frame p (Int.sub (Int.add NUM_COLS PIPE_RADIUS) 1)
                (pipe_wrap rand_value p g)) as (Fs & _ & _ & _ & Fr & _).
    rewrite center_store_center, opening_store_center, Fs, Fr, Wo, Ws, Wr.
    destruct (opening_of_rand_bounds _ Hr) as (m & e & E & _ & B).
    repeat split; try reflexivity; try assumption.
    + rewrite E. apply B.
    + rewrite E. apply B.
    + intros Hs. apply IntFacts.add_exact.
      unfold Int.in_range, Int.min, Int.max in *. lia.
  - intros O. subst g'. rewrite pipe_refresh_on_screen by exact O.
    destruct (store_center_frame p (Int.sub (center (load p g)) 1) g)
      as (Fs & _ & _ & _ & Fr & _).
    rewrite center_store_center, opening_store_center, Fs, Fr.
    repeat split; try reflexivity.
    intros R. apply IntFacts.sub_exact.
    unfold pipe_off_screen in O. apply Z.ltb_ge in O.
    pose proof (IntFacts.wrap_range (center (load p g) + PIPE_RADIUS)) as W.
    unfold Int.add, Int.wrap, Int.in_range, Int.min, Int.max, PIPE_RADIUS in *.
    destruct (Z.le_gt_cases (center (load p g) + 3) 2147483647) as [S|S].
    + rewrite Z.mod_small in O by lia. lia.
    + replace (center (load p g) + 3 + 2 ^ 31)
        with (center (load p g) + 3 - 2 ^ 31 + 1 * 2 ^ 32) in O by lia.
      rewrite Z.mod_add, Z.mod_small in O by lia. lia.
Qed.

End Wrap.

Lemma pipe_refresh_wraps_and_decrements_witness :
  0 <= rand_const 7 (rand_calls off_screen_globals) <= INT_MAX /\
  center (load ptr_p1 (pipe_refresh (rand_const 7) ptr_p1 off_screen_globals)) = 82.
Proof.
  split; [vm_compute; split; discriminate|].
  apply (pipe_refresh_wraps_and_decrements (rand_const 7) ptr_p1 off_screen_globals).
  - vm_compute. split; discriminate.
  - reflexivity.
Defined.

(** C1, as first stated, fails: when [rand()] returns [INT_MAX] the new
    opening height is 0.75, not below it. *)
Lemma opening_height_reaches_three_quarters :
  let g' := pipe_refresh (rand_const INT_MAX) ptr_p1 off_screen_globals in
  pipe_off_screen (load ptr_p1 off_screen_globals) = true /\
  0 <= rand_const INT_MAX (rand_calls off_screen_globals) <= INT_MAX /\
  ~ (SF2Q (opening_height (load ptr_p1 g')) < 3 # 4)%Q.
Proof.
  cbv zeta. split; [reflexivity|]. split; [vm_compute; split; discriminate|].
  vm_compute. discriminate.
Qed.

(** ** The opening of a pipe *)

(** C4 (amended).  [get_orow] returns an [int]: the [float] value
    [opening_height * (NUM_ROWS - 1) - 3] for the top and
    [opening_height * (NUM_ROWS - 1) + 3] for the bottom, truncated toward
    zero, where 3 is the integer quotient [OPENING_WIDTH / 2] = 7 / 2. *)
Theorem get_orow_formula (p : vpipe) :
  Z.quot OPENING_WIDTH 2 = 3 /\
  half_opening true = 3 /\ half_opening false = -3 /\
  get_orow p true =
    F32.to_int (F32.sub (F32.mul (opening_height p) (F32.of_int (NUM_ROWS - 1)))
                        (F32.of_int 3)) /\
  get_orow p false =
    F32.to_int (F32.add (F32.mul (opening_height p) (F32.of_int (NUM_ROWS - 1)))
                        (F32.of_int 3)).
Proof.
  do 4 (split; [reflexivity|]).
  (* [x - (-3)] and [x + 3] are the same computation *)
  unfold get_orow, opening_edge. reflexivity.
Qed.

(** C4, as first stated, fails: with opening height 0.5 the exact formula
    gives 0.5 * 23 + 3.5 = 15 for the bottom row, [get_orow] gives 14. *)
Lemma get_orow_is_not_the_exact_formula :
  let p := pipe_at half_float 10 in
  ~ ((inject_Z (get_orow p true)
        == SF2Q (opening_height p) * inject_Z (NUM_ROWS - 1) - (OPENING_WIDTH # 2))%Q /\
     (inject_Z (get_orow p false)
        == SF2Q (opening_height p) * inject_Z (NUM_ROWS - 1) + (OPENING_WIDTH # 2))%Q).
Proof. cbv zeta. intros [_ H]. vm_compute in H. discriminate. Qed.

(** C3 (amended).  Scenario A: with opening height 0.5 the edges of the
    opening are 8.5 and 14.5 before truncation, rows 8 and 14 after; a bird
    in the band of the pipe is safe exactly on rows 9 to 13: it does not
    crash at row 12, nor at row 10, and crashes at rows 8 and 14. *)
Theorem scenario_A_opening_rows (c : Z) (f : flappy) :
  c - PIPE_RADIUS - 1 <= FLAPPY_COL <= c + PIPE_RADIUS + 1 ->
  let p := pipe_at half_float c in
  PIPE_RADIUS = 3 /\ OPENING_WIDTH = 7 /\ NUM_ROWS = 24 /\
  (SF2Q half_float == 1 # 2)%Q /\
  (SF2Q (opening_edge p true) == 17 # 2)%Q /\
  (SF2Q (opening_edge p false) == 29 # 2)%Q /\
  get_orow p true = 8 /\ get_orow p false = 14 /\
  (crashed_into_pipe f p = false <-> 9 <= get_flappy_position f <= 13) /\
  get_flappy_position (mk_flappy 12 0) = 12 /\
  crashed_into_pipe (mk_flappy 12 0) p = false /\
  get_flappy_position (mk_flappy 10 0) = 10 /\
  crashed_into_pipe (mk_flappy 10 0) p = false /\
  get_flappy_position (mk_flappy 8 0) = 8 /\
  crashed_into_pipe (mk_flappy 8 0) p = true /\
  get_flappy_position (mk_flappy 14 0) = 14 /\
  crashed_into_pipe (mk_flappy 14 0) p = true.
Proof.
  intros Hc p.
  assert (T : get_orow p true = 8) by reflexivity.
  assert (B : get_orow p false = 14) by reflexivity.
  assert (K : forall f', crashed_into_pipe f' p = false <->
                         9 <= get_flappy_position f' <= 13).
  { intros f'. pose proof (crashed_into_pipe_iff f' p) as I.
    rewrite T, B in I. cbn [center p pipe_at] in I.
    unfold FLAPPY_COL, PIPE_RADIUS in *.
    rewrite !(IntFacts.sub_exact c 3), !(IntFacts.add_exact c 3),
      !IntFacts.sub_exact, !IntFacts.add_exact in I
      by (unfold Int.in_range, Int.min, Int.max; lia).
    destruct (crashed_into_pipe f' p).
    - split; [intros X; discriminate X|].
      intros R. destruct I as [I _]. specialize (I eq_refl). lia.
    - split; [|intros _; exact eq_refl].
      intros _. destruct I as [_ I].
      destruct (Z_le_dec 9 (get_flappy_position f')) as [L|L];
        destruct (Z_le_dec (get_flappy_position f') 13) as [U|U]; try lia;
        assert (X : false = true) by (apply I; lia); discriminate X. }
  assert (P12 : get_flappy_position (mk_flappy 12 0) = 12) by reflexivity.
  assert (P10 : get_flappy_position (mk_flappy 10 0) = 10) by reflexivity.
  assert (P8 : get_flappy_position (mk_flappy 8 0) = 8) by reflexivity.
  assert (P14 : get_flappy_position (mk_flappy 14 0) = 14) by reflexivity.
  repeat match goal with |- _ /\ _ => split end; try reflexivity; try assumption.
  - apply K.
  - apply K. rewrite P12. lia.
  - apply K. rewrite P10. lia.
  - apply not_false_is_true. intros N. apply K in N. rewrite P8 in N. lia.
  - apply not_false_is_true. intros N. apply K in N. rewrite P14 in N. lia.
Qed.

Lemma scenario_A_opening_rows_witness :
  10 - PIPE_RADIUS - 1 <= FLAPPY_COL <= 10 + PIPE_RADIUS + 1 /\
  crashed_into_pipe (mk_flappy 10 0) (pipe_at half_float 10) = false.
Proof.
  split; [vm_compute; split; discriminate|].
  apply (scenario_A_opening_rows 10 (mk_flappy 10 0)).
  vm_compute. split; discriminate.
Defined.

(** C3, as first stated, fails: the rows are 8 and 14, not 10.5 and 15,
    and a bird in the band at row 10 does not crash. *)
Lemma scenario_A_row_10_is_safe :
  let p := pipe_at half_float 10 in
  p = pipe_at half_float FLAPPY_COL /\
  get_flappy_position (mk_flappy 10 0) = 10 /\
  ~ ((inject_Z (get_orow p true) == 21 # 2)%Q /\
     (inject_Z (get_orow p false) == 15)%Q /\
     crashed_into_pipe (mk_flappy 12 0) p = false /\
     crashed_into_pipe (mk_flappy 10 0) p = true).
Proof.
  cbv zeta. split; [reflexivity|]. split; [reflexivity|].
  intros (_ & _ & _ & H). vm_compute in H. discriminate.
Qed.

(** ** The bird *)


(** The bound is needed: beyond 2^24 the conversion of [h0] to [float]
    rounds, and a boost would move the bird.  No row of the window is that
    far. *)
Lemma boost_moves_a_far_away_bird :
  let f := mk_flappy 16777220 7 in
  get_flappy_position f = 16777217 /\
  get_flappy_position (boost f) = 16777216 /\
  get_flappy_position (boost f) <> get_flappy_position f.
Proof. cbv zeta. split; [reflexivity|]. split; [reflexivity|]. vm_compute. discriminate. Qed.

(** C6 (amended).  Scenario B: the bird spawns at [h0 = 12], [t = 0]; five
    iterations without input bring [t] to 5; the [double] computed by
    [get_flappy_position] is then exactly
    [12 + V0 * 5 + 0.5 * GRAV * 5 * 5] with [V0 = -0.5] and [GRAV] the [float]
    nearest to 0.05, that is 10.125 + 5 / 2^29, and the row returned is its
    truncation, 10. *)
Theorem scenario_B_position :
  let spawn := mk_flappy (Int.div NUM_ROWS 2) 0 in
  let f5 := Nat.iter 5 fall spawn in
  spawn = mk_flappy 12 0 /\
  f5 = mk_flappy 12 5 /\
  (SF2Q V0 == - (1 # 2))%Q /\
  (SF2Q GRAV == 13421773 # 2 ^ 28)%Q /\
  (SF2Q (flappy_height f5)
     == inject_Z 12 + SF2Q V0 * inject_Z 5
        + (1 # 2) * SF2Q GRAV * inject_Z 5 * inject_Z 5)%Q /\
  (SF2Q (flappy_height f5) == (81 # 8) + (5 # 2 ^ 29))%Q /\
  get_flappy_position f5 = 10.
Proof. cbv zeta. repeat split. Qed.

(** C6, as first stated, fails: the position is an [int], 10, not 10.125. *)
Lemma scenario_B_position_is_not_10_125 :
  let f5 := Nat.iter 5 fall (mk_flappy 12 0) in
  f5 = mk_flappy 12 5 /\
  ~ (inject_Z (get_flappy_position f5) == 81 # 8)%Q.
Proof. cbv zeta. split; [reflexivity|]. vm_compute. discriminate. Qed.

(** ** Witnesses and counterexamples for the game loop *)

Lemma pipe_center_never_below_respawn_column_witness :
  - (PIPE_RADIUS + 1) <= center (load ptr_p2 (spawn_globals (rand_const 0))) /\
  - (PIPE_RADIUS + 1)
    <= center (load ptr_p2 (advances (rand_const 0) [ptr_p1; ptr_p2; ptr_p2]
                                     (spawn_globals (rand_const 0)))).
Proof.
  assert (H : - (PIPE_RADIUS + 1)
              <= center (load ptr_p2 (spawn_globals (rand_const 0))))
    by (vm_compute; discriminate).
  split; [exact H|].
  exact (proj1 (pipe_center_never_below_respawn_column (rand_const 0)
                  [ptr_p1; ptr_p2; ptr_p2] ptr_p2 (spawn_globals (rand_const 0)) H)).
Defined.

Lemma scenario_C_ninth_advance_wraps_witness :
  center (load ptr_p1 (store_center ptr_p1 4 initial_globals)) = 4 /\
  center (load ptr_p1 (pipe_refresh (rand_const 0) ptr_p1
                         (Nat.iter 8 (pipe_refresh (rand_const 0) ptr_p1)
                                   (store_center ptr_p1 4 initial_globals))))
    = NUM_COLS + PIPE_RADIUS - 1.
Proof.
  assert (H : center (load ptr_p1 (store_center ptr_p1 4 initial_globals)) = 4)
    by reflexivity.
  split; [exact H|].
  destruct (scenario_C_ninth_advance_wraps (rand_const 0) ptr_p1
              (store_center ptr_p1 4 initial_globals) H)
    as (_ & _ & _ & _ & _ & _ & _ & _ & E & _).
  exact E.
Defined.

Lemma quit_while_playing_keeps_scores_witness :
  key_const KEY_q (getch_calls initial_globals) = KEY_q /\
  exists g', iteration (rand_const 0) (key_const KEY_q)
               (initial_locals (mk_flappy 0 0)) initial_globals = Exited g' /\
             best_score g' = best_score initial_globals /\
             bdigs g' = bdigs initial_globals /\
             score g' = score initial_globals /\
             sdigs g' = sdigs initial_globals.
Proof.
  assert (H : key_const KEY_q (getch_calls initial_globals) = KEY_q) by reflexivity.
  split; [exact H|].
  exact (quit_while_playing_keeps_scores (rand_const 0) (key_const KEY_q)
           (initial_locals (mk_flappy 0 0)) initial_globals H).
Defined.

(** C7, as first stated, fails on the quit path of the failure screen: the
    game is in the failure state, 'q' is read, and the process ends with
    [best_score] still below [score]. *)
Lemma quit_on_failure_screen_skips_fold :
  let g := set_score 5 initial_globals in
  score g = 5 /\ best_score g = 0 /\
  exists g', failure_screen (key_const KEY_q) g = Exited g' /\
             best_score g' <> Z.max (best_score g) (score g) /\
             score g' <> 0.
Proof.
  cbv zeta. split; [reflexivity|]. split; [reflexivity|].
  eexists. split; [reflexivity|]. split; vm_compute; discriminate.
Qed.

(** * Further properties of the game loop *)

(** ** The outcomes of one iteration *)

Section Outcomes.

Variable rand_value : nat -> Z.
Variable getch_value : nat -> Z.

(** The state after the [if (restart)] block of [main]. *)
Lemma after_restart_block (l : locals) (g : globals) :
  exists l1 g1,
    (if restart l =? 0 then (l, g) else start_game rand_value l g) = (l1, g1) /\
    restart l1 = 0 /\
    (restart l = 0 /\ l1 = l /\ g1 = g \/
     restart l <> 0 /\ (l1, g1) = start_game rand_value l g).
Proof.
  destruct (restart l =? 0) eqn:E.
  - apply Z.eqb_eq in E. exists l, g.
    split; [reflexivity|]. split; [exact E|]. left. repeat split. exact E.
  - apply Z.eqb_neq in E. exists (fst (start_game rand_value l g)), (snd (start_game rand_value l g)).
    split; [reflexivity|]. split; [reflexivity|]. right. split; [exact E|reflexivity].
Qed.

(** Every way one iteration of the loop can end.  [l1], [g1] are the state
    after the [if (restart)] block, [b] the bird once the key is processed,
    [g3] the globals once both pipes are refreshed. *)
Lemma iteration_outcomes (l : locals) (g : globals) :
  exists l1 g1,
    (if restart l =? 0 then (l, g) else start_game rand_value l g) = (l1, g1) /\
    let ch := getch_value (getch_calls g1) in
    let b := if ch =? KEY_UP then boost (f l1) else fall (f l1) in
    let g3 := pipe_refresh rand_value ptr_p2
                (pipe_refresh rand_value ptr_p1 (snd (getch getch_value g1))) in
    match iteration rand_value getch_value l g with
    | Exited g' =>
        ch = KEY_q /\ g' = snd (getch getch_value g1) \/
        ch <> KEY_q /\ failure_screen getch_value g3 = Exited g'
    | Returned l' g' =>
        ch <> KEY_q /\
        (l' = mk_locals b 0 /\ g' = set_frame (Int.add (frame g3) 1) g3 /\
         crashed_into_bounds b = false /\
         crashed_into_pipe b (p1 g3) = false /\
         crashed_into_pipe b (p2 g3) = false
         \/
         l' = mk_locals b 1 /\ failure_screen getch_value g3 = Returned 1 g')
    end.
Proof.
  destruct (after_restart_block l g) as (l1 & g1 & E & R & _).
  exists l1, g1. split; [exact E|]. cbn zeta.
  unfold iteration. rewrite E. unfold getch at 1. cbn [fst snd].
  destruct (getch_value (getch_calls g1) =? KEY_q) eqn:Q.
  - left. apply Z.eqb_eq in Q. split; [exact Q|reflexivity].
  - apply Z.eqb_neq in Q.
    set (b := if getch_value (getch_calls g1) =? KEY_UP then boost (f l1) else fall (f l1)).
    assert (L2 : (if getch_value (getch_calls g1) =? KEY_UP
                  then mk_locals (boost (f l1)) (restart l1)
                  else mk_locals (fall (f l1)) (restart l1)) = mk_locals b 0).
    { subst b. rewrite R. destruct (_ =? KEY_UP); reflexivity. }
    rewrite L2. cbn [f].
    change (mk_globals (frame g1) (score g1) (sdigs g1) (best_score g1) (bdigs g1)
              (p1 g1) (p2 g1) (rand_calls g1) (S (getch_calls g1)))
      with (snd (getch getch_value g1)).
    set (g3 := pipe_refresh rand_value ptr_p2
                 (pipe_refresh rand_value ptr_p1 (snd (getch getch_value g1)))).
    unfold draw_flappy.
    destruct (crashed_into_bounds b) eqn:Cb.
    + destruct (failure_screen_best getch_value g3) as [_ M].
      destruct (failure_screen getch_value g3) as [r g4|g4].
      * rewrite M. cbn [Z.eqb]. split; [exact Q|]. right. split; reflexivity.
      * right. split; [exact Q|reflexivity].
    + destruct (crashed_into_pipe b (p1 g3)) eqn:C1; cbn [orb].
      * destruct (failure_screen_best getch_value g3) as [_ M].
        destruct (failure_screen getch_value g3) as [r g4|g4].
        -- rewrite M. cbn [Z.eqb]. split; [exact Q|]. right. split; reflexivity.
        -- right. split; [exact Q|reflexivity].
      * destruct (crashed_into_pipe b (p2 g3)) eqn:C2.
        -- destruct (failure_screen_best getch_value g3) as [_ M].
           destruct (failure_screen getch_value g3) as [r g4|g4].
           ++ rewrite M. cbn [Z.eqb]. split; [exact Q|]. right. split; reflexivity.
           ++ right. split; [exact Q|reflexivity].
        -- cbn [Z.eqb]. split; [exact Q|]. left. repeat split; reflexivity.
Qed.

(** A property that every iteration keeps holds at the head of the loop
    after any number of iterations; [k] counts the iterations made. *)
Lemma iterations_invariant (Inv : nat -> locals -> globals -> Prop) :
  (forall k l g, Inv k l g ->
     match iteration rand_value getch_value l g with
     | Returned l' g' => Inv (S k) l' g'
     | Exited _ => True
     end) ->
  forall n k l g, Inv k l g ->
    match iterations rand_value getch_value n l g with
    | Returned l' g' => Inv (n + k)%nat l' g'
    | Exited _ => True
    end.
Proof.
  intros Step. induction n as [|n IH]; intros k l g I; cbn [iterations]; [exact I|].
  pose proof (Step k l g I) as S1.
  destruct (iteration rand_value getch_value l g) as [l' g'|g']; [|exact Logic.I].
  specialize (IH (S k) l' g' S1).
  destruct (iterations rand_value getch_value n l' g'); [|exact Logic.I].
  replace (S n + k)%nat with (n + S k)%nat by lia. exact IH.
Qed.

End Outcomes.

(** ** Loops over a range *)

Lemma range_up_In (lo hi z : Z) : lo <= z < hi -> In z (range_up lo hi).
Proof.
  intros H. unfold range_up. apply in_map_iff.
  exists (Z.to_nat (z - lo)). split; [lia|]. apply in_seq. lia.
Qed.

Lemma In_range_up (lo hi z : Z) : In z (range_up lo hi) -> lo <= z < hi.
Proof.
  unfold range_up. intros H. apply in_map_iff in H.
  destruct H as (k & <- & H). apply in_seq in H. lia.
Qed.

Lemma In_range_down (hi lo z : Z) : In z (range_down hi lo) <-> lo < z <= hi.
Proof.
  unfold range_down. rewrite in_map_iff. split.
  - intros (k & <- & H). apply in_seq in H. lia.
  - intros H. exists (Z.to_nat (hi - z)). split; [lia|]. apply in_seq. lia.
Qed.

Lemma forallb_range_up (P : Z -> bool) (lo hi : Z) :
  forallb P (range_up lo hi) = true -> forall z, lo <= z < hi -> P z = true.
Proof.
  intros H z Hz. rewrite forallb_forall in H. apply H, range_up_In, Hz.
Qed.

(** ** The distance between the two pipes *)

Section Apart.

Variable rand_value : nat -> Z.
Variable getch_value : nat -> Z.

(** The centers of two pipes in their cycle, 44 columns apart modulo the
    length 87 of the cycle. *)
Lemma pipe_refresh_center_cycle (p : pipe_ptr) (g : globals) :
  - (PIPE_RADIUS + 1) <= center (load p g) <= 138 ->
  let c' := center (load p (pipe_refresh rand_value p g)) in
  - (PIPE_RADIUS + 1) <= c' <= 138 /\ (c' - (center (load p g) - 1)) mod 87 = 0.
Proof.
  intros [L U]. cbn zeta. rewrite pipe_refresh_center.
  unfold pipe_off_screen.
  rewrite IntFacts.add_exact
    by (unfold Int.in_range, Int.min, Int.max, PIPE_RADIUS in *; lia).
  destruct (Z.ltb_spec (center (load p g) + PIPE_RADIUS) 0) as [O|O].
  - change (Int.sub (Int.add NUM_COLS PIPE_RADIUS) 1) with 82.
    assert (E : center (load p g) = -4) by (unfold PIPE_RADIUS in *; lia).
    rewrite E. split; [unfold PIPE_RADIUS; lia|reflexivity].
  - rewrite IntFacts.sub_exact
      by (unfold Int.in_range, Int.min, Int.max, PIPE_RADIUS in *; lia).
    split; [unfold PIPE_RADIUS in *; lia|].
    replace (center (load p g) - 1 - (center (load p g) - 1)) with 0 by lia.
    reflexivity.
Qed.

Lemma apart_step (l : locals) (g : globals) :
  (restart l = 0 ->
     (- (PIPE_RADIUS + 1) <= center (p1 g) <= 138 /\
      - (PIPE_RADIUS + 1) <= center (p2 g) <= 138) /\
     (center (p2 g) - center (p1 g)) mod 87 = 44) ->
  match iteration rand_value getch_value l g with
  | Returned l' g' =>
      restart l' = 0 ->
      (- (PIPE_RADIUS + 1) <= center (p1 g') <= 138 /\
       - (PIPE_RADIUS + 1) <= center (p2 g') <= 138) /\
      (center (p2 g') - center (p1 g')) mod 87 = 44
  | Exited _ => True
  end.
Proof.
  intros I.
  destruct (after_restart_block rand_value l g) as (l1 & g1 & E & R & W).
  destruct (iteration_outcomes rand_value getch_value l g) as (l1' & g1' & E' & O).
  rewrite E in E'. injection E' as <- <-. cbn zeta in O.
  destruct (iteration rand_value getch_value l g) as [l' g'|g']; [|exact Logic.I].
  destruct O as [_ [(-> & -> & _)|(-> & _)]]; [|intros X; discriminate X].
  intros _.
  assert (I1 : (- (PIPE_RADIUS + 1) <= center (p1 g1) <= 138 /\
                - (PIPE_RADIUS + 1) <= center (p2 g1) <= 138) /\
               (center (p2 g1) - center (p1 g1)) mod 87 = 44).
  { destruct W as [(R0 & -> & ->)|(_ & W)]; [exact (I R0)|].
    assert (E1 : g1 = snd (start_game rand_value l g)) by (rewrite <- W; reflexivity).
    destruct (start_game_centers rand_value l g) as [C1 C2].
    rewrite E1, C1, C2. unfold PIPE_RADIUS. split; [lia|reflexivity]. }
  clear I. destruct I1 as [[B1 B2] D].
  set (g2 := snd (getch getch_value g1)).
  change (center (p1 g1)) with (center (load ptr_p1 g2)) in B1, D.
  change (center (p2 g1)) with (center (load ptr_p2 g2)) in B2, D.
  set (ga := pipe_refresh rand_value ptr_p1 g2).
  pose proof (pipe_refresh_center_cycle ptr_p1 g2 B1) as [Ba Da]. fold ga in Ba, Da.
  assert (Oa : load ptr_p2 ga = load ptr_p2 g2)
    by (apply pipe_refresh_other; discriminate).
  rewrite <- Oa in B2, D.
  pose proof (pipe_refresh_center_cycle ptr_p2 ga B2) as [Bb Db].
  set (gb := pipe_refresh rand_value ptr_p2 ga) in *.
  assert (Ob : load ptr_p1 gb = load ptr_p1 ga)
    by (apply pipe_refresh_other; discriminate).
  change (p1 (set_frame (Int.add (frame gb) 1) gb)) with (load ptr_p1 gb).
  change (p2 (set_frame (Int.add (frame gb) 1) gb)) with (load ptr_p2 gb).
  rewrite Ob. split; [split; assumption|].
  set (a := center (load ptr_p1 g2)) in *. set (a' := center (load ptr_p1 ga)) in *.
  set (b := center (load ptr_p2 ga)) in *. set (b' := center (load ptr_p2 gb)) in *.
  clearbody a a' b b'. clear - D Da Db.
  apply Z.mod_divide in Da; [|lia]. apply Z.mod_divide in Db; [|lia].
  destruct Da as [x Hx], Db as [y Hy].
  replace (b' - a') with (b - a + (y - x) * 87) by lia.
  rewrite Z.mod_add by lia. exact D.
Qed.

End Apart.

(** The two pipes never come close to each other: at the head of the
    loop of [main], in a running game, their centers are at least 43
    columns apart, so that at most one of them is within reach of the
    bird's column. *)
Theorem pipes_stay_apart (rand_value getch_value : nat -> Z) (n : nat) (f0 : flappy) :
  match iterations rand_value getch_value n (initial_locals f0) initial_globals with
  | Returned l g =>
      restart l = 0 ->
      43 <= Z.abs (center (p2 g) - center (p1 g)) /\
      ~ (center (p1 g) - PIPE_RADIUS - 1 <= FLAPPY_COL <= center (p1 g) + PIPE_RADIUS + 1 /\
         center (p2 g) - PIPE_RADIUS - 1 <= FLAPPY_COL <= center (p2 g) + PIPE_RADIUS + 1)
  | Exited _ => True
  end.
Proof.
  pose proof (iterations_invariant rand_value getch_value
    (fun _ l g => restart l = 0 ->
       (- (PIPE_RADIUS + 1) <= center (p1 g) <= 138 /\
        - (PIPE_RADIUS + 1) <= center (p2 g) <= 138) /\
       (center (p2 g) - center (p1 g)) mod 87 = 44)
    (fun _ l g I => apart_step rand_value getch_value l g I)
    n 0%nat (initial_locals f0) initial_globals) as H.
  cbv beta in H.
  destruct (iterations rand_value getch_value n (initial_locals f0) initial_globals)
    as [l g|g]; [|exact I].
  intros R. destruct H as [[B1 B2] D]; [intros X; discriminate X|exact R|].
  unfold PIPE_RADIUS, FLAPPY_COL in *.
  set (a := center (p1 g)) in *. set (b := center (p2 g)) in *. clearbody a b.
  pose proof (Z.div_mod (b - a) 87 ltac:(lia)) as DM. rewrite D in DM.
  assert (Q : -2 <= (b - a) / 87 <= 1) by lia.
  lia.
Qed.

(** ** The arc of the bird *)

(** The rows of the arc, checked launch row by launch row and tick by
    tick. *)
Lemma flap_arc_table (h t : Z) :
  1 <= h <= 22 -> 0 <= t <= 42 ->
  let y := get_flappy_position (mk_flappy h t) in
  (1 <= t <= 19 -> h - 3 <= y < h) /\
  (t = 0 \/ t = 20 \/ t = 21 -> y = h) /\
  (22 <= t -> h < y) /\
  (t = 42 -> NUM_ROWS - 1 <= y).
Proof.
  intros Hh Ht.
  assert (T : forallb (fun h => forallb (fun t =>
              let y := get_flappy_position (mk_flappy h t) in
              (if (1 <=? t) && (t <=? 19) then (h - 3 <=? y) && (y <? h) else true) &&
              (if (t =? 0) || (t =? 20) || (t =? 21) then y =? h else true) &&
              (if 22 <=? t then h <? y else true) &&
              (if t =? 42 then NUM_ROWS - 1 <=? y else true))
              (range_up 0 43)) (range_up 1 23) = true)
    by (vm_compute; reflexivity).
  pose proof (forallb_range_up _ _ _ (forallb_range_up _ _ _ T h ltac:(lia)) t ltac:(lia)) as C.
  cbv beta zeta in C. cbv zeta.
  set (y := get_flappy_position (mk_flappy h t)) in *. clearbody y.
  apply andb_prop in C. destruct C as [C C4].
  apply andb_prop in C. destruct C as [C C3].
  apply andb_prop in C. destruct C as [C1 C2].
  split; [|split; [|split]].
  - intros E. destruct (Z.leb_spec 1 t), (Z.leb_spec t 19); cbn in C1; lia.
  - intros E. destruct (Z.eqb_spec t 0), (Z.eqb_spec t 20), (Z.eqb_spec t 21);
      cbn in C2; lia.
  - intros E. destruct (Z.leb_spec 22 t); lia.
  - intros E. destruct (Z.eqb_spec t 42); lia.
Qed.

(** The arc of a flap.  For a bird launched from a row of the playing
    field: during the first 19 ticks after the flap it is above its launch
    row, by at most three rows; at ticks 20 and 21 it is back on the launch
    row; from tick 22 on it is below. *)
Theorem flap_arc (h t : Z) :
  1 <= h <= NUM_ROWS - 2 -> 0 <= t <= 41 ->
  let y := get_flappy_position (mk_flappy h t) in
  (1 <= t <= 19 -> h - 3 <= y < h) /\
  (t = 0 \/ t = 20 \/ t = 21 -> y = h) /\
  (22 <= t -> h < y).
Proof.
  intros Hh Ht. unfold NUM_ROWS in Hh.
  destruct (flap_arc_table h t ltac:(lia) ltac:(lia)) as (A & B & C & _).
  cbv zeta. auto.
Qed.

Lemma flap_arc_witness :
  (1 <= 12 <= NUM_ROWS - 2) /\ (0 <= 10 <= 41) /\
  let y := get_flappy_position (mk_flappy 12 10) in
  (1 <= 10 <= 19 -> 12 - 3 <= y < 12) /\
  (10 = 0 \/ 10 = 20 \/ 10 = 21 -> y = 12) /\
  (22 <= 10 -> 12 < y).
Proof.
  assert (H1 : 1 <= 12 <= NUM_ROWS - 2) by (unfold NUM_ROWS; lia).
  assert (H2 : 0 <= 10 <= 41) by lia.
  split; [exact H1|]. split; [exact H2|].
  exact (flap_arc 12 10 H1 H2).
Defined.

(** ** The clock of the bird *)

Section Clock.

Variable rand_value : nat -> Z.
Variable getch_value : nat -> Z.

Lemma clock_step (l : locals) (g : globals) :
  (restart l = 0 ->
     bird_in_play (f l) /\ 1 <= h0 (f l) <= 22 /\ 0 <= t (f l) <= 41) ->
  match iteration rand_value getch_value l g with
  | Returned l' g' =>
      restart l' = 0 ->
      bird_in_play (f l') /\ 1 <= h0 (f l') <= 22 /\ 0 <= t (f l') <= 41
  | Exited _ => True
  end.
Proof.
  intros I.
  destruct (after_restart_block rand_value l g) as (l1 & g1 & E & R & W).
  destruct (iteration_outcomes rand_value getch_value l g) as (l1' & g1' & E' & O).
  rewrite E in E'. injection E' as <- <-. cbn zeta in O.
  destruct (iteration rand_value getch_value l g) as [l' g'|g']; [|exact Logic.I].
  destruct O as [_ [(-> & -> & Cb & _)|(-> & _)]]; [|intros X; discriminate X].
  intros _. cbn [f].
  assert (I1 : bird_in_play (f l1) /\ 1 <= h0 (f l1) <= 22 /\ 0 <= t (f l1) <= 41).
  { destruct W as [(R0 & -> & ->)|(_ & W)]; [exact (I R0)|].
    assert (E1 : l1 = fst (start_game rand_value l g)) by (rewrite <- W; reflexivity).
    rewrite E1. change (f (fst (start_game rand_value l g))) with (mk_flappy 12 0).
    cbn [h0 t]. split; [|lia].
    unfold bird_in_play.
    rewrite position_at_launch by (change (2 ^ 24) with 16777216; lia).
    unfold NUM_ROWS. lia. }
  clear I. destruct I1 as (B & H & T).
  apply bird_in_play_iff in Cb.
  split; [exact Cb|].
  destruct (getch_value (getch_calls g1) =? KEY_UP).
  - unfold boost in *. cbn [h0 t]. unfold bird_in_play, NUM_ROWS in B. lia.
  - unfold fall in *. cbn [h0 t].
    rewrite IntFacts.add_exact in * by (unfold Int.in_range, Int.min, Int.max; lia).
    split; [exact H|]. split; [lia|].
    destruct (Z.eq_dec (t (f l1)) 41) as [E41|]; [|lia].
    exfalso. destruct (flap_arc_table (h0 (f l1)) 42 H ltac:(lia)) as (_ & _ & _ & X).
    specialize (X eq_refl). unfold bird_in_play in Cb.
    rewrite E41 in Cb. change (41 + 1) with 42 in Cb.
    destruct (f l1) as [hh tt]. cbn [h0] in *. lia.
Qed.

End Clock.

(** Gravity wins.  At the head of the loop of [main], in a running game,
    the bird is on a row of the playing field, it was launched from such a
    row, and at most 41 ticks have passed since its last flap: on the 42nd
    tick without a flap it is on the floor, whatever its launch row. *)
Theorem bird_falls_within_42_ticks (rand_value getch_value : nat -> Z)
    (n : nat) (f0 : flappy) :
  match iterations rand_value getch_value n (initial_locals f0) initial_globals with
  | Returned l g =>
      restart l = 0 ->
      0 < get_flappy_position (f l) < NUM_ROWS - 1 /\
      1 <= h0 (f l) <= NUM_ROWS - 2 /\
      0 <= t (f l) <= 41 /\
      crashed_into_bounds (mk_flappy (h0 (f l)) 42) = true
  | Exited _ => True
  end.
Proof.
  pose proof (iterations_invariant rand_value getch_value
    (fun _ l g => restart l = 0 ->
       bird_in_play (f l) /\ 1 <= h0 (f l) <= 22 /\ 0 <= t (f l) <= 41)
    (fun _ l g I => clock_step rand_value getch_value l g I)
    n 0%nat (initial_locals f0) initial_globals) as H.
  cbv beta in H.
  destruct (iterations rand_value getch_value n (initial_locals f0) initial_globals)
    as [l g|g]; [|exact I].
  intros R. destruct H as (B & Hh & Ht); [intros X; discriminate X|exact R|].
  split; [exact B|]. split; [unfold NUM_ROWS; lia|]. split; [exact Ht|].
  destruct (flap_arc_table (h0 (f l)) 42 Hh ltac:(lia)) as (_ & _ & _ & X).
  specialize (X eq_refl). unfold crashed_into_bounds.
  change (Int.sub NUM_ROWS 1) with (NUM_ROWS - 1).
  apply orb_true_iff. right. apply Z.geb_le. exact X.
Qed.

(** ** The boost *)



(** ** The cycle of a pipe *)

(** A pipe comes around every 87 frames.  From any center of its cycle
    (-4 to 82), 87 refreshes of a pipe bring its center back where it was;
    on the way it is wrapped exactly once: the score goes up by one, and
    one value of [rand()] is drawn, from which its new opening is made. *)
Theorem pipe_cycle_has_period_87 (rand_value : nat -> Z) (p : pipe_ptr) (g : globals) :
  - (PIPE_RADIUS + 1) <= center (load p g) <= NUM_COLS + PIPE_RADIUS - 1 ->
  Int.min <= score g < Int.max ->
  let g' := Nat.iter 87 (pipe_refresh rand_value p) g in
  center (load p g') = center (load p g) /\
  score g' = score g + 1 /\
  rand_calls g' = S (rand_calls g) /\
  opening_height (load p g') = opening_of_rand (rand_value (rand_calls g)).
Proof.
  intros Hc Hs. unfold PIPE_RADIUS, NUM_COLS in Hc.
  set (c := center (load p g)) in *.
  replace 87%nat with (Z.to_nat (82 - c) + (1 + Z.to_nat (c + 4)))%nat by lia.
  cbv zeta. rewrite Nat.iter_add, Nat.iter_add.
  change (Nat.iter 1 (pipe_refresh rand_value p)
            (Nat.iter (Z.to_nat (c + 4)) (pipe_refresh rand_value p) g))
    with (pipe_refresh rand_value p
            (Nat.iter (Z.to_nat (c + 4)) (pipe_refresh rand_value p) g)).
  destruct (refresh_without_wrap rand_value (Z.to_nat (c + 4)) p g)
    as (C1 & _ & S1 & R1 & _);
    [fold c; unfold PIPE_RADIUS; lia|fold c; unfold Int.max, PIPE_RADIUS; lia|].
  set (g1 := Nat.iter (Z.to_nat (c + 4)) (pipe_refresh rand_value p) g) in *.
  fold c in C1. rewrite Z2Nat.id in C1 by lia.
  assert (O : pipe_off_screen (load p g1) = true).
  { unfold pipe_off_screen. replace (center (load p g1)) with (-4) by lia. reflexivity. }
  pose proof (pipe_refresh_center rand_value p g1) as C2. rewrite O in C2.
  change (Int.sub (Int.add NUM_COLS PIPE_RADIUS) 1) with 82 in C2.
  assert (W : score (pipe_refresh rand_value p g1) = score g + 1 /\
              rand_calls (pipe_refresh rand_value p g1) = S (rand_calls g) /\
              opening_height (load p (pipe_refresh rand_value p g1))
                = opening_of_rand (rand_value (rand_calls g))).
  { rewrite pipe_refresh_off_screen by exact O.
    rewrite opening_store_center.
    destruct (store_center_frame p (Int.sub (Int.add NUM_COLS PIPE_RADIUS) 1)
                (pipe_wrap rand_value p g1)) as (-> & _ & _ & _ & -> & _).
    destruct (pipe_wrap_spec rand_value p g1) as (_ & -> & -> & -> & _).
    rewrite S1, R1.
    rewrite IntFacts.add_exact by (unfold Int.in_range, Int.min, Int.max in *; lia).
    auto. }
  set (g2 := pipe_refresh rand_value p g1) in *.
  destruct W as (S2 & R2 & O2).
  destruct (refresh_without_wrap rand_value (Z.to_nat (82 - c)) p g2)
    as (C3 & O3 & S3 & R3 & _);
    [rewrite C2; unfold PIPE_RADIUS; lia|rewrite C2; unfold Int.max, PIPE_RADIUS; lia|].
  rewrite C3, O3, S3, R3, C2, S2, R2, O2.
  rewrite Z2Nat.id by lia. repeat split. lia.
Qed.

Lemma pipe_cycle_has_period_87_witness :
  (- (PIPE_RADIUS + 1) <= center (load ptr_p1 initial_globals)
     <= NUM_COLS + PIPE_RADIUS - 1) /\
  (Int.min <= score initial_globals < Int.max) /\
  let g' := Nat.iter 87 (pipe_refresh (rand_const 0) ptr_p1) initial_globals in
  center (load ptr_p1 g') = center (load ptr_p1 initial_globals) /\
  score g' = score initial_globals + 1 /\
  rand_calls g' = S (rand_calls initial_globals) /\
  opening_height (load ptr_p1 g')
    = opening_of_rand (rand_const 0 (rand_calls initial_globals)).
Proof.
  assert (H1 : - (PIPE_RADIUS + 1) <= center (load ptr_p1 initial_globals)
               <= NUM_COLS + PIPE_RADIUS - 1) by (vm_compute; split; discriminate).
  assert (H2 : Int.min <= score initial_globals < Int.max)
    by (vm_compute; split; [discriminate|reflexivity]).
  split; [exact H1|]. split; [exact H2|].
  exact (pipe_cycle_has_period_87 (rand_const 0) ptr_p1 initial_globals H1 H2).
Defined.

(** ** The height of the opening *)

(** A small multiple of a power of two is a normal [float]. *)
Lemma float_of_scaled (p : positive) (E : Z) :
  Zpos p < 2 ^ 24 -> -100 <= E <= 0 ->
  exists m e, normal 24 128 m e /\ e <= E /\
              forall c, c <= e -> sval c (Zpos m) e = sval c (Zpos p) E.
Proof.
  intros Hp HE.
  pose proof (digits2_pos_bounds p) as [DL DU].
  assert (D : Zpos (digits2_pos p) <= 24).
  { destruct (Z.le_gt_cases (Zpos (digits2_pos p)) 24) as [|G]; [assumption|].
    pose proof (pow2_le 24 (Zpos (digits2_pos p) - 1) ltac:(lia)). lia. }
  pose proof (shl_align_spec p E (E + Zpos (digits2_pos p) - 24)) as SA.
  destruct (shl_align p E (E + Zpos (digits2_pos p) - 24)) as [mz ez].
  destruct SA as [Ez Em].
  assert (Ez' : ez = E + Zpos (digits2_pos p) - 24) by lia.
  exists mz, ez. split; [|split; [lia|]].
  - split; [|unfold emin; lia].
    rewrite (digits2_pos_shift p (E - ez) mz); [lia|lia|exact Em].
  - intros c Hc. unfold sval. rewrite Em.
    replace (E - c) with ((E - ez) + (ez - c)) by lia.
    rewrite pow2_split by lia. lia.
Qed.

(** The two rows of the opening are 6 or 7 apart. *)
Lemma opening_gap (p : vpipe) :
  opening_in_range (opening_height p) ->
  get_orow p false - get_orow p true = 6 \/ get_orow p false - get_orow p true = 7.
Proof.
  intros H. destruct (opening_times_rows _ H) as (m & e & E & B & V).
  destruct (bounded_between 24 128 ltac:(lia) (-200) m 12058624 9043968 e (-21) (-19))
    as (He & N); try assumption; try reflexivity; try (unfold emin; lia).
  assert (W : 0 < 2 ^ (- e)) by (apply pow2_pos; lia).
  assert (U : 0 < 2 ^ (e - -200)) by (apply pow2_pos; lia).
  assert (S : forall k, sval (-200) k 0 = k * 2 ^ (- e) * 2 ^ (e - -200)).
  { intros k. unfold sval. replace (0 - -200) with (- e + (e - -200)) by lia.
    rewrite pow2_split by lia. lia. }
  assert (N1 : Zpos m / 2 ^ (- e) * 2 ^ (- e) <= Zpos m
               < (Zpos m / 2 ^ (- e) + 1) * 2 ^ (- e)).
  { pose proof (Z.mul_div_le (Zpos m) (2 ^ (- e)) W).
    pose proof (Z.mul_succ_div_gt (Zpos m) (2 ^ (- e)) W). lia. }
  set (n := Zpos m / 2 ^ (- e)) in *. clearbody n.
  assert (NU1 : n * 2 ^ (- e) * 2 ^ (e - -200) <= Zpos m * 2 ^ (e - -200))
    by (apply Z.mul_le_mono_nonneg_r; lia).
  assert (NU2 : Zpos m * 2 ^ (e - -200) < (n + 1) * 2 ^ (- e) * 2 ^ (e - -200))
    by (apply Z.mul_lt_mono_pos_r; lia).
  assert (WU : 0 < 2 ^ (- e) * 2 ^ (e - -200)) by (apply Z.mul_pos_pos; assumption).
  assert (VX : sval (-200) n 0 <= sval (-200) (Zpos m) e < sval (-200) (n + 1) 0).
  { rewrite !S. unfold sval. lia. }
  assert (Hn : 5 <= n <= 17).
  { clear - V VX. unfold sval in V, VX.
    change (0 - -200) with 200 in VX.
    change (-21 - -200) with 179 in V. change (-19 - -200) with 181 in V.
    change (2 ^ 200) with (2097152 * 2 ^ 179) in VX.
    change (2 ^ 181) with (4 * 2 ^ 179) in V.
    pose proof (pow2_pos 179 ltac:(lia)) as P.
    set (u := 2 ^ 179) in *. set (v := Zpos m * 2 ^ (e - -200)) in *. clearbody u v.
    split; nia. }
  assert (T3 : sval (-200) 12582912 (-22) = 3 * 2 ^ (- e) * 2 ^ (e - -200)).
  { rewrite <- S. reflexivity. }
  unfold get_orow, opening_edge, F32.to_int. rewrite E.
  (* the top row: [x - 3] is computed without rounding *)
  assert (Top : int_of_SF (F32.sub (S754_finite false m e) (F32.of_int (half_opening true)))
                = n - 3).
  { change (F32.of_int (half_opening true)) with (S754_finite false 12582912 (-22)).
    assert (Mp : 0 < Zpos m - 3 * 2 ^ (- e)).
    { assert (5 * 2 ^ (- e) <= n * 2 ^ (- e)) by (apply Z.mul_le_mono_nonneg_r; lia).
      lia. }
    destruct (Zpos m - 3 * 2 ^ (- e)) as [|q|q] eqn:Eq; try lia.
    destruct N as [Dm _]. pose proof (digits2_pos_bounds m) as [_ Mu]. rewrite Dm in Mu.
    destruct (float_of_scaled q e ltac:(lia) ltac:(lia)) as (m' & e' & N' & He' & V').
    pose proof (normal_bounded 24 128 m' e' N') as B'.
    pose proof (bounded_emin 24 128 ltac:(lia) m' e' B') as Hmin'. unfold emin in Hmin'.
    assert (VQ : sval (-200) (Zpos m') e'
                 = sval (-200) (Zpos m) e - sval (-200) 12582912 (-22)).
    { rewrite V' by lia. rewrite T3. unfold sval. rewrite <- Eq. lia. }
    destruct (SFsub_pos_bounds 24 128 ltac:(lia) m 12582912 e (-22) (-200) m' m' e' e')
      as (m2 & e2 & E2 & B2 & V2); try assumption; try (unfold emin; lia).
    destruct (bounded_unique 24 128 ltac:(lia) (-200) m2 m' e2 e' B2 B')
      as [-> ->]; [unfold emin; lia|lia|].
    unfold F32.sub, F32.prec, F32.emax. rewrite E2.
    assert (R : n - 3 <= int_of_SF (S754_finite false m' e') <= n - 3); [|lia].
    apply (int_of_SF_between (-200)); try lia; [unfold Int.max; lia|].
    rewrite VQ, T3, !S. unfold sval. clear - NU1 NU2. lia. }
  (* the bottom row: [x + 3] is rounded, to [n + 4] at most *)
  assert (Bot : n + 3 <= int_of_SF (F32.sub (S754_finite false m e)
                           (F32.of_int (half_opening false))) <= n + 4).
  { change (F32.sub (S754_finite false m e) (F32.of_int (half_opening false)))
      with (F32.add (S754_finite false m e) (S754_finite false 12582912 (-22))).
    assert (P3 : 0 < n + 3) by lia. assert (P4 : 0 < n + 4) by lia.
    destruct (n + 3) as [|q3|q3] eqn:E3; try lia.
    destruct (n + 4) as [|q4|q4] eqn:E4; try lia.
    destruct (float_of_scaled q3 0 ltac:(change (2 ^ 24) with 16777216; lia) ltac:(lia))
      as (m3 & e3 & N3 & He3 & V3).
    destruct (float_of_scaled q4 0 ltac:(change (2 ^ 24) with 16777216; lia) ltac:(lia))
      as (m4 & e4 & N4 & He4 & V4).
    pose proof (normal_bounded 24 128 m3 e3 N3) as B3.
    pose proof (normal_bounded 24 128 m4 e4 N4) as B4.
    pose proof (bounded_emin 24 128 ltac:(lia) m3 e3 B3) as Hmin3.
    pose proof (bounded_emin 24 128 ltac:(lia) m4 e4 B4) as Hmin4.
    unfold emin in Hmin3, Hmin4.
    assert (Sum : sval (-200) (Zpos m3) e3
                  <= sval (-200) (Zpos m) e + sval (-200) 12582912 (-22)
                  <= sval (-200) (Zpos m4) e4).
    { rewrite V3, V4 by lia. rewrite T3, <- E3, <- E4, !S. unfold sval.
      clear - NU1 NU2. lia. }
    destruct (SFadd_pos_bounds 24 128 ltac:(lia) m 12582912 e (-22) (-200) m3 m4 e3 e4)
      as (m5 & e5 & E5 & B5 & V5); try assumption; try (unfold emin; lia).
    pose proof (bounded_emin 24 128 ltac:(lia) m5 e5 B5) as Hmin5. unfold emin in Hmin5.
    assert (He5 : e5 <= 0).
    { destruct (Z.le_gt_cases e5 e4) as [|G]; [lia|exfalso].
      apply andb_prop in B4. destruct B4 as [C4 _].
      pose proof (sval_canonical_lt 24 128 ltac:(lia) (-200) m4 e4 e5 C4 ltac:(lia) G) as X.
      apply andb_prop in B5. destruct B5 as [C5 _].
      destruct (canonical_digits 24 128 ltac:(lia) m5 e5 C5) as (_ & _ & N5).
      pose proof (sval_mono (-200) _ _ e5 ltac:(lia) (N5 ltac:(unfold emin; lia))).
      lia. }
    unfold F32.add, F32.prec, F32.emax. rewrite E5.
    apply (int_of_SF_between (-200)); try lia; [unfold Int.max; lia|].
    rewrite V3, V4 in V5 by lia.
    split; [exact (proj1 V5)|].
    apply Z.le_lt_trans with (sval (-200) (Zpos q4) 0); [exact (proj2 V5)|].
    rewrite !S. clear - WU. lia. }
  rewrite Top. lia.
Qed.

(** The opening of a pipe.  For every opening height that the game can
    draw (a [float] in [[0.25, 0.75]]), the upper edge of the opening is a
    row from 2 to 14 and the lower edge a row from 8 to 20, both on the
    playing field; the lower edge is 6 or 7 rows below the upper one, so
    that 5 or 6 rows are free between them: [x - 3] is computed exactly,
    while [x + 3] may be rounded up to the next integer. *)
Theorem opening_rows (p : vpipe) :
  opening_in_range (opening_height p) ->
  2 <= get_orow p true <= 14 /\ 8 <= get_orow p false <= 20 /\
  (get_orow p false - get_orow p true = 6 \/ get_orow p false - get_orow p true = 7).
Proof.
  intros H. destruct (opening_rows_on_screen p H) as [T B].
  split; [exact T|]. split; [exact B|]. apply opening_gap, H.
Qed.

Lemma opening_rows_witness :
  let p := mk_vpipe (opening_of_rand 420159744) 0 in
  opening_in_range (opening_height p) /\
  2 <= get_orow p true <= 14 /\ 8 <= get_orow p false <= 20 /\
  (get_orow p false - get_orow p true = 6 \/ get_orow p false - get_orow p true = 7).
Proof.
  cbv zeta.
  assert (H : opening_in_range
                (opening_height (mk_vpipe (opening_of_rand 420159744) 0))).
  { exists 11671106%positive, (-25).
    split; [vm_compute; reflexivity|]. split; [reflexivity|].
    split; vm_compute; discriminate. }
  split; [exact H|].
  exact (opening_rows (mk_vpipe (opening_of_rand 420159744) 0) H).
Defined.

(** Both heights occur: [rand() = 0] gives 5 free rows, [rand() =
    420159744] gives 6. *)
Lemma opening_of_six_free_rows :
  let p := mk_vpipe (opening_of_rand 0) 0 in
  let q := mk_vpipe (opening_of_rand 420159744) 0 in
  get_orow p false - get_orow p true = 6 /\ get_orow q false - get_orow q true = 7.
Proof. split; vm_compute; reflexivity. Qed.

(** ** The pipes of a running game *)

(** The pipes stay in play.  Provided [rand()] returns values from 0 to
    [INT_MAX], at the head of the loop of [main], in a running game, each
    pipe has its center between -4 and 138 and an opening height in
    [[0.25, 0.75]], so that the edges of its opening are rows of the
    playing field. *)
Theorem pipes_in_play_at_loop_head (rand_value getch_value : nat -> Z)
    (n : nat) (f0 : flappy) :
  (forall k, 0 <= rand_value k <= INT_MAX) ->
  match iterations rand_value getch_value n (initial_locals f0) initial_globals with
  | Returned l g =>
      restart l = 0 ->
      forall p,
        - (PIPE_RADIUS + 1) <= center (load p g) <= 138 /\
        (1 # 4 <= SF2Q (opening_height (load p g)) <= 3 # 4)%Q /\
        0 < get_orow (load p g) true < get_orow (load p g) false /\
        get_orow (load p g) false < NUM_ROWS - 1
  | Exited _ => True
  end.
Proof.
  intros Hr. pose proof (main_loop_in_play rand_value getch_value Hr n f0) as H.
  destruct (iterations rand_value getch_value n (initial_locals f0) initial_globals)
    as [l g|g]; [|exact I].
  intros R p. destruct (H R) as (_ & P1 & P2).
  assert (P : pipe_in_play (load p g)) by (destruct p; assumption).
  destruct P as [C O]. split; [exact C|].
  destruct (opening_rows_on_screen _ O) as [T B].
  pose proof (opening_gap _ O) as G.
  destruct O as (m & e & -> & _ & Q). split; [exact Q|].
  unfold NUM_ROWS. lia.
Qed.

Lemma pipes_in_play_at_loop_head_witness :
  (forall k, 0 <= rand_const 0 k <= INT_MAX) /\
  match iterations (rand_const 0) (key_const (-1)) 2
          (initial_locals (mk_flappy 0 0)) initial_globals with
  | Returned l g =>
      restart l = 0 ->
      forall p,
        - (PIPE_RADIUS + 1) <= center (load p g) <= 138 /\
        (1 # 4 <= SF2Q (opening_height (load p g)) <= 3 # 4)%Q /\
        0 < get_orow (load p g) true < get_orow (load p g) false /\
        get_orow (load p g) false < NUM_ROWS - 1
  | Exited _ => True
  end.
Proof.
  assert (H : forall k, 0 <= rand_const 0 k <= INT_MAX)
    by (intros k; vm_compute; split; discriminate).
  split; [exact H|].
  exact (pipes_in_play_at_loop_head (rand_const 0) (key_const (-1)) 2 (mk_flappy 0 0) H).
Defined.

(** ** The pose of the bird *)

Section AddNeg.

Variables prec emax : Z.
Hypothesis Hprec : 0 < prec.

(** The sum of two negative floats is negative, and its magnitude lies
    between any two representable numbers that enclose the exact one. *)
Lemma SFadd_neg_bounds (mx my : positive) (ex ey c : Z)
      (lm hm : positive) (le he : Z) :
  c <= ex -> c <= ey -> c <= emin prec emax ->
  bounded prec emax lm le = true ->
  bounded prec emax hm he = true ->
  sval c (Zpos lm) le <= sval c (Zpos mx) ex + sval c (Zpos my) ey
    <= sval c (Zpos hm) he ->
  exists m e,
    SFadd prec emax (S754_finite true mx ex) (S754_finite true my ey)
      = S754_finite true m e /\
    bounded prec emax m e = true /\
    sval c (Zpos lm) le <= sval c (Zpos m) e <= sval c (Zpos hm) he.
Proof.
  intros Hx Hy Hc Hlo Hhi HB. unfold SFadd.
  pose proof (shl_align_spec mx ex (Z.min ex ey)) as Sx.
  pose proof (shl_align_spec my ey (Z.min ex ey)) as Sy.
  destruct (shl_align mx ex (Z.min ex ey)) as [ax ezx].
  destruct (shl_align my ey (Z.min ex ey)) as [ay ezy].
  destruct Sx as [Ex Ax], Sy as [Ey Ay]. cbn [fst cond_Zopp Z.opp Z.add binary_normalize].
  set (ez := Z.min ex ey) in *.
  assert (Hzx : ezx = ez) by lia. assert (Hzy : ezy = ez) by lia.
  clear Ex Ey. subst ezx ezy.
  apply (binary_round_bounds prec emax Hprec true (ax + ay) ez c lm hm le he);
    try assumption; try lia.
  assert (V : sval c (Zpos (ax + ay)) ez = sval c (Zpos mx) ex + sval c (Zpos my) ey).
  { unfold sval. rewrite Pos2Z.inj_add, Ax, Ay.
    replace (ex - c) with ((ex - ez) + (ez - c)) by lia.
    replace (ey - c) with ((ey - ez) + (ez - c)) by lia.
    rewrite !pow2_split by lia. lia. }
  rewrite V. exact HB.
Qed.

End AddNeg.

(** [GRAV * t], for an [int] [t] that is not 0: the sign is that of [t],
    the magnitude at least 0.05 * |t| rounded down to [lo]. *)
Lemma grav_times (s : bool) (p : positive) (k : Z) (lm : positive) (le : Z) :
  k <= Zpos p <= 2 ^ 31 -> 1 <= k <= 11 ->
  bounded 24 128 lm le = true -> -100 <= le ->
  sval (-200) (Zpos lm) le <= sval (-200) (13421773 * k) (-28) ->
  exists m e,
    F32.mul GRAV (F32.of_int (cond_Zopp s (Zpos p))) = S754_finite s m e /\
    bounded 24 128 m e = true /\
    sval (-200) (Zpos lm) le <= sval (-200) (Zpos m) e <= sval (-200) 8388608 4.
Proof.
  intros Hp Hk Bl Hle HL.
  assert (O : F32.of_int (cond_Zopp s (Zpos p)) = binary_round 24 128 s p 0)
    by (destruct s; reflexivity).
  rewrite O. clear O.
  assert (U : 0 < 2 ^ 200) by (apply pow2_pos; lia).
  destruct (binary_round_bounds 24 128 ltac:(lia) s p 0 (-200) 8388608 8388608 (-23) 8)
    as (m1 & e1 & E1 & B1 & V1); try reflexivity; try lia; try (unfold emin; lia).
  { unfold sval. change (0 - -200) with 200.
    change (-23 - -200) with 177. change (8 - -200) with 208.
    change (2 ^ 200) with (8388608 * 2 ^ 177). change (2 ^ 208) with (2147483648 * 2 ^ 177).
    change (2 ^ 31) with 2147483648 in Hp.
    pose proof (pow2_pos 177 ltac:(lia)) as P. set (u := 2 ^ 177) in *. clearbody u.
    assert (1 * u <= Zpos p * u) by (apply Z.mul_le_mono_nonneg_r; lia).
    assert (Zpos p * u <= 2147483648 * u) by (apply Z.mul_le_mono_nonneg_r; lia).
    clear - H H0. lia. }
  rewrite E1.
  destruct (bounded_between 24 128 ltac:(lia) (-200) m1 8388608 8388608 e1 (-23) 8)
    as (He1 & N1); try assumption; try reflexivity; try (unfold emin; lia).
  change GRAV with (S754_finite false 13421773 (-28)).
  unfold F32.mul, SFmul, F32.prec, F32.emax. cbn [xorb].
  (* the value of [t] as a float is at least [k] *)
  assert (VK : sval (-200) k 0 <= sval (-200) (Zpos m1) e1).
  { destruct (Z.le_gt_cases (sval (-200) k 0) (sval (-200) (Zpos m1) e1)) as [|G];
      [assumption|exfalso].
    assert (Pk : 0 < k) by lia.
    destruct k as [|q|q] eqn:Eqk; try lia.
    destruct (float_of_scaled q 0 ltac:(change (2 ^ 24) with 16777216; lia) ltac:(lia))
      as (mk & ek & Nk & Hek & Vk).
    pose proof (normal_bounded 24 128 mk ek Nk) as Bk.
    pose proof (bounded_emin 24 128 ltac:(lia) mk ek Bk) as Hmk. unfold emin in Hmk.
    destruct (binary_round_bounds 24 128 ltac:(lia) s p 0 (-200) mk 8388608 ek 8)
      as (m1' & e1' & E1' & _ & V1'); try reflexivity; try assumption; try lia;
      try (unfold emin; lia).
    - rewrite Vk by lia. unfold sval. change (0 - -200) with 200.
      change (8 - -200) with 208.
      change (2 ^ 208) with (256 * 2 ^ 200).
      change (2 ^ 31) with 2147483648 in Hp.
      set (u := 2 ^ 200) in *. clearbody u.
      assert (Zpos q * u <= Zpos p * u) by (apply Z.mul_le_mono_nonneg_r; lia).
      assert (Zpos p * u <= 2147483648 * u) by (apply Z.mul_le_mono_nonneg_r; lia).
      clear - H H0. lia.
    - rewrite E1 in E1'. injection E1' as <- <-.
      rewrite Vk in V1' by lia. lia. }
  assert (M : Zpos (13421773 * m1) = 13421773 * Zpos m1) by lia.
  destruct (binary_round_aux_bounds 24 128 ltac:(lia) s (13421773 * m1) (-28 + e1) (-200)
              lm 8388608 le 4) as (m2 & e2 & E2 & B2 & _ & V2);
    try reflexivity; try lia.
  - destruct N1 as [D1 _]. pose proof (digits2_pos_bounds m1) as [DL _]. rewrite D1 in DL.
    pose proof (digits2_pos_lower (13421773 * m1) 46 ltac:(lia)) as G.
    change (2 ^ (24 - 1)) with 8388608 in DL. change (2 ^ 46) with 70368744177664 in G.
    unfold fexp, emin. lia.
  - apply andb_prop in Bl. destruct Bl as [Cl _]. exact Cl.
  - assert (S1 : sval (-200) (Zpos (13421773 * m1)) (-28 + e1) * 2 ^ 28
                 = 13421773 * sval (-200) (Zpos m1) e1).
    { unfold sval. rewrite M. replace (e1 - -200) with ((-28 + e1 - -200) + 28) by lia.
      rewrite pow2_split by lia. lia. }
    assert (S2 : sval (-200) (13421773 * k) (-28) * 2 ^ 28 = 13421773 * sval (-200) k 0).
    { unfold sval. change (0 - -200) with (-28 - -200 + 28).
      rewrite pow2_split by lia. lia. }
    assert (S3 : sval (-200) 8388608 4 * 2 ^ 28 = 16777216 * sval (-200) 8388608 8).
    { reflexivity. }
    destruct V1 as [_ V1u].
    set (a := sval (-200) (Zpos (13421773 * m1)) (-28 + e1)) in *.
    set (b := sval (-200) (13421773 * k) (-28)) in *.
    set (h := sval (-200) 8388608 4) in *.
    set (v := sval (-200) (Zpos m1) e1) in *.
    set (w := sval (-200) 8388608 8) in *.
    set (l := sval (-200) (Zpos lm) le) in *.
    set (vk := sval (-200) k 0) in *.
    assert (W0 : 0 <= w) by (subst w; vm_compute; discriminate).
    change (2 ^ 28) with 268435456 in *.
    clearbody a b h v w l vk. clear - S1 S2 S3 V1u VK HL W0. lia.
  - exists m2, e2. split; [exact E2|]. split; [exact B2|exact V2].
Qed.

(** The bird glides from the eleventh tick on.  The test
    [GRAV * f.t + V0 > 0] that chooses between the gliding pose and the
    flapping one holds exactly when more than 10 ticks have passed since
    the last flap, for every [int] [t]: in [float] arithmetic [GRAV * 10]
    is rounded to 0.5, so that tick 10 still counts as going up. *)
Theorem glide_from_tick_11 (f : flappy) :
  Int.in_range (t f) -> (going_down f = true <-> 10 < t f).
Proof.
  intros R. unfold Int.in_range, Int.min, Int.max in R.
  unfold going_down. change (F32.of_int 0) with (S754_zero false).
  revert R. destruct (t f) as [|p|p] eqn:Et; intros R.
  - split; [intros X; vm_compute in X; discriminate X|lia].
  - destruct (Z_le_gt_dec (Zpos p) 10) as [Small|Big].
    + assert (C : Zpos p = 1 \/ Zpos p = 2 \/ Zpos p = 3 \/ Zpos p = 4 \/ Zpos p = 5 \/
                  Zpos p = 6 \/ Zpos p = 7 \/ Zpos p = 8 \/ Zpos p = 9 \/ Zpos p = 10)
        by lia.
      split; [|lia]. intros X. exfalso.
      repeat (destruct C as [C|C];
              [injection C as ->; vm_compute in X; discriminate X|]).
      injection C as ->. vm_compute in X. discriminate X.
    + split; [lia|]. intros _.
      destruct (grav_times false p 11 8912896 (-24)) as (m2 & e2 & E2 & B2 & V2);
        try reflexivity; try lia; [vm_compute; discriminate|].
      change (cond_Zopp false (Zpos p)) with (Zpos p) in E2. rewrite E2.
      pose proof (bounded_emin 24 128 ltac:(lia) m2 e2 B2) as Hm2. unfold emin in Hm2.
      change V0 with (S754_finite true 8388608 (-24)).
      change (F32.add (S754_finite false m2 e2) (S754_finite true 8388608 (-24)))
        with (F32.sub (S754_finite false m2 e2) (S754_finite false 8388608 (-24))).
      destruct (SFsub_pos_bounds 24 128 ltac:(lia) m2 8388608 e2 (-24) (-200)
                  8388608 8388608 (-28) 4) as (m3 & e3 & E3 & _);
        try reflexivity; try lia; try (unfold emin; lia).
      { assert (A1 : sval (-200) 8388608 (-28) + sval (-200) 8388608 (-24)
                     = sval (-200) 8912896 (-24)) by reflexivity.
        assert (A2 : 0 <= sval (-200) 8388608 (-24)) by (vm_compute; discriminate).
        set (a := sval (-200) 8388608 (-28)) in *.
        set (b := sval (-200) 8388608 (-24)) in *.
        set (c := sval (-200) 8912896 (-24)) in *.
        set (h := sval (-200) 8388608 4) in *.
        set (v := sval (-200) (Zpos m2) e2) in *.
        clearbody a b c h v. clear - A1 A2 V2. lia. }
      unfold F32.sub, F32.prec, F32.emax. rewrite E3. reflexivity.
  - split; [|lia]. intros X. exfalso.
    destruct (grav_times true p 1 8388608 (-28)) as (m2 & e2 & E2 & B2 & V2);
      try reflexivity; try lia; [vm_compute; discriminate|].
    change (cond_Zopp true (Zpos p)) with (Zneg p) in E2. rewrite E2 in X.
    pose proof (bounded_emin 24 128 ltac:(lia) m2 e2 B2) as Hm2. unfold emin in Hm2.
    change V0 with (S754_finite true 8388608 (-24)) in X.
    destruct (SFadd_neg_bounds 24 128 ltac:(lia) m2 8388608 e2 (-24) (-200)
                8388608 8388608 (-24) 5) as (m3 & e3 & E3 & _);
      try reflexivity; try lia; try (unfold emin; lia).
    { assert (A1 : sval (-200) 8388608 4 + sval (-200) 8388608 (-24)
                   <= sval (-200) 8388608 5) by (vm_compute; discriminate).
      assert (A2 : 0 <= sval (-200) 8388608 (-28)) by (vm_compute; discriminate).
      set (a := sval (-200) 8388608 (-28)) in *.
      set (b := sval (-200) 8388608 (-24)) in *.
      set (c := sval (-200) 8388608 5) in *.
      set (h := sval (-200) 8388608 4) in *.
      set (v := sval (-200) (Zpos m2) e2) in *.
      clearbody a b c h v. clear - A1 A2 V2. lia. }
    unfold F32.add, F32.prec, F32.emax in X. rewrite E3 in X.
    discriminate X.
Qed.

Lemma glide_from_tick_11_witness :
  Int.in_range (t (mk_flappy 12 11)) /\
  (going_down (mk_flappy 12 11) = true <-> 10 < t (mk_flappy 12 11)).
Proof.
  assert (H : Int.in_range (t (mk_flappy 12 11))) by (vm_compute; split; discriminate).
  split; [exact H|]. exact (glide_from_tick_11 (mk_flappy 12 11) H).
Defined.

(** ** Drawing a pipe *)

Lemma column_visible_iff (x : Z) :
  column_visible x = true <-> 0 <= x <= NUM_COLS - 2.
Proof.
  unfold column_visible. change (Int.sub NUM_COLS 1) with 79. unfold NUM_COLS.
  rewrite andb_true_iff, Z.geb_le, Z.ltb_lt. lia.
Qed.

(** The cells of one row of the walls. *)
Lemma In_pipe_walls (p : vpipe) (vch : ascii) (i : Z) (r x : Z) (s : string) :
  In (mk_print r x s) (pipe_walls p vch i) <->
  r = i /\ s = chtostr vch /\ column_visible x = true /\
  (x = Int.sub (center p) PIPE_RADIUS \/ x = Int.add (center p) PIPE_RADIUS).
Proof.
  unfold pipe_walls. rewrite in_app_iff.
  destruct (column_visible (Int.sub (center p) PIPE_RADIUS)) eqn:A;
    destruct (column_visible (Int.add (center p) PIPE_RADIUS)) eqn:B;
    cbn [In]; split.
  all: try (intros [[E|[]]|[E|[]]]; injection E as <- <- <-; auto).
  all: try (intros [[E|[]]|[]]; injection E as <- <- <-; auto).
  all: try (intros [[]|[E|[]]]; injection E as <- <- <-; auto).
  all: try (intros [[]|[]]).
  all: intros (-> & -> & V & [->| ->]); auto; congruence.
Qed.

(** The cells of a cap. *)
Lemma In_pipe_cap (p : vpipe) (hch : ascii) (row : Z) (r x : Z) (s : string) :
  In (mk_print r x s) (pipe_cap p hch row) <->
  r = row /\ s = chtostr hch /\ column_visible x = true /\
  exists i, - PIPE_RADIUS <= i <= PIPE_RADIUS /\ x = Int.add (center p) i.
Proof.
  unfold pipe_cap. rewrite in_flat_map. split.
  - intros (i & Hi & Hq). apply In_range_up in Hi.
    destruct (column_visible (Int.add (center p) i)) eqn:V; [|destruct Hq].
    destruct Hq as [E|[]]. injection E as <- <- <-.
    repeat split; try assumption. exists i. split; [lia|reflexivity].
  - intros (-> & -> & V & i & Hi & ->). exists i.
    split; [apply range_up_In; lia|]. rewrite V. left. reflexivity.
Qed.

(** The cells that [draw_pipe] prints, whatever the pipe and the rows of
    the ceiling and of the floor. *)
Lemma In_draw_pipe (p : vpipe) (vch hcht hchb : ascii) (cr fr : Z)
      (r x : Z) (s : string) :
  In (mk_print r x s) (draw_pipe p vch hcht hchb cr fr) <->
  column_visible x = true /\
  (Int.add cr 1 <= r < get_orow p true /\ s = chtostr vch /\
     (x = Int.sub (center p) PIPE_RADIUS \/ x = Int.add (center p) PIPE_RADIUS)
   \/
   r = upper_terminus p cr /\ s = chtostr hcht /\
     (exists i, - PIPE_RADIUS <= i <= PIPE_RADIUS /\ x = Int.add (center p) i)
   \/
   get_orow p false < r <= Int.sub fr 1 /\ s = chtostr vch /\
     (x = Int.sub (center p) PIPE_RADIUS \/ x = Int.add (center p) PIPE_RADIUS)
   \/
   r = lower_terminus p fr /\ s = chtostr hchb /\
     (exists i, - PIPE_RADIUS <= i <= PIPE_RADIUS /\ x = Int.add (center p) i)).
Proof.
  unfold draw_pipe. rewrite !in_app_iff, !in_flat_map.
  setoid_rewrite In_pipe_walls. rewrite !In_pipe_cap. split.
  - intros [(i & Hi & -> & -> & V & C)|[(-> & -> & V & C)|
            [(i & Hi & -> & -> & V & C)|(-> & -> & V & C)]]].
    + apply In_range_up in Hi. split; [exact V|]. left. auto.
    + split; [exact V|]. right. left. auto.
    + apply In_range_down in Hi. split; [exact V|]. right. right. left. auto.
    + split; [exact V|]. right. right. right. auto.
  - intros [V [(Hr & -> & C)|[(-> & -> & C)|[(Hr & -> & C)|(-> & -> & C)]]]].
    + left. exists r. split; [apply range_up_In; exact Hr|]. auto.
    + right. left. auto.
    + right. right. left. exists r. split; [apply In_range_down; exact Hr|]. auto.
    + right. right. right. auto.
Qed.

(** What [draw_pipe] puts on the screen for a pipe of the running game.
    Every cell is in a column from 0 to 78.  Above the opening the two
    walls (columns [center - 3] and [center + 3]) go from row 1 to the row
    above the upper edge of the opening, and a cap seven columns wide
    closes them on that edge; below, the walls go from the row under the
    lower edge down to row 22, with a cap on the lower edge.  Nothing else
    is printed: no cell on the ceiling or floor rows, none in the last
    column, none strictly inside the opening. *)
Theorem draw_pipe_cells (p : vpipe) (vch hcht hchb : ascii) (r x : Z) (s : string) :
  pipe_in_play p ->
  In (mk_print r x s) (draw_pipe p vch hcht hchb 0 (NUM_ROWS - 1)) <->
  0 <= x <= NUM_COLS - 2 /\
  (0 < r < get_orow p true /\ s = chtostr vch /\
     (x = center p - PIPE_RADIUS \/ x = center p + PIPE_RADIUS)
   \/
   r = get_orow p true /\ s = chtostr hcht /\
     center p - PIPE_RADIUS <= x <= center p + PIPE_RADIUS
   \/
   get_orow p false < r < NUM_ROWS - 1 /\ s = chtostr vch /\
     (x = center p - PIPE_RADIUS \/ x = center p + PIPE_RADIUS)
   \/
   r = get_orow p false /\ s = chtostr hchb /\
     center p - PIPE_RADIUS <= x <= center p + PIPE_RADIUS).
Proof.
  intros [[L U] O]. destruct (opening_rows_on_screen p O) as [T B].
  rewrite In_draw_pipe, column_visible_iff.
  unfold upper_terminus, lower_terminus.
  change (Int.add 0 1) with 1. change (Int.sub (NUM_ROWS - 1) 1) with 22.
  rewrite Z.max_r, Z.min_r by lia.
  unfold PIPE_RADIUS, NUM_ROWS, NUM_COLS in *.
  rewrite IntFacts.sub_exact, IntFacts.add_exact
    by (unfold Int.in_range, Int.min, Int.max; lia).
  assert (C : (exists i, - (3) <= i <= 3 /\ x = Int.add (center p) i) <->
              center p - 3 <= x <= center p + 3).
  { split.
    - intros (i & Hi & ->).
      rewrite IntFacts.add_exact by (unfold Int.in_range, Int.min, Int.max; lia). lia.
    - intros Hx. exists (x - center p). split; [lia|].
      rewrite IntFacts.add_exact by (unfold Int.in_range, Int.min, Int.max; lia). lia. }
  rewrite C. clear C.
  split; (intros [V H]; split; [exact V|]);
    destruct H as [(Hr & Hs & Hx)|[(Hr & Hs & Hx)|[(Hr & Hs & Hx)|(Hr & Hs & Hx)]]].
  all: first [ left; split; [lia|split; assumption]
             | right; left; split; [lia|split; assumption]
             | right; right; left; split; [lia|split; assumption]
             | right; right; right; split; [lia|split; assumption] ].
Qed.

Lemma draw_pipe_cells_witness :
  pipe_in_play (pipe_at half_float 40) /\
  (In (mk_print 8 40 (chtostr "="))
      (draw_pipe (pipe_at half_float 40) "|" "=" "=" 0 (NUM_ROWS - 1)) <->
   0 <= 40 <= NUM_COLS - 2 /\
   (0 < 8 < get_orow (pipe_at half_float 40) true /\ chtostr "=" = chtostr "|" /\
      (40 = center (pipe_at half_float 40) - PIPE_RADIUS \/
       40 = center (pipe_at half_float 40) + PIPE_RADIUS)
    \/
    8 = get_orow (pipe_at half_float 40) true /\ chtostr "=" = chtostr "=" /\
      center (pipe_at half_float 40) - PIPE_RADIUS <= 40
        <= center (pipe_at half_float 40) + PIPE_RADIUS
    \/
    get_orow (pipe_at half_float 40) false < 8 < NUM_ROWS - 1 /\
      chtostr "=" = chtostr "|" /\
      (40 = center (pipe_at half_float 40) - PIPE_RADIUS \/
       40 = center (pipe_at half_float 40) + PIPE_RADIUS)
    \/
    8 = get_orow (pipe_at half_float 40) false /\ chtostr "=" = chtostr "=" /\
      center (pipe_at half_float 40) - PIPE_RADIUS <= 40
        <= center (pipe_at half_float 40) + PIPE_RADIUS)).
Proof.
  assert (H : pipe_in_play (pipe_at half_float 40)).
  { split; [vm_compute; split; discriminate|].
    exists 8388608%positive, (-24).
    split; [vm_compute; reflexivity|]. split; [reflexivity|].
    split; vm_compute; discriminate. }
  split; [exact H|].
  exact (draw_pipe_cells (pipe_at half_float 40) "|" "=" "=" 8 40 (chtostr "=") H).
Defined.

(** ** The bird on the screen *)



(** ** Drawing and colliding *)

(** The pipe kills where it is drawn.  For a pipe of the running game
    whose band contains the column of the bird, and a bird on the playing
    field: [crashed_into_pipe] reports a crash exactly when [draw_pipe]
    prints some cell of that pipe on the row of the bird.  The rows
    strictly inside the opening, where nothing is drawn, are the safe
    ones. *)
Theorem crash_iff_pipe_drawn_on_bird_row (f : flappy) (p : vpipe) (vch hcht hchb : ascii) :
  pipe_in_play p -> bird_in_play f ->
  center p - PIPE_RADIUS - 1 <= FLAPPY_COL <= center p + PIPE_RADIUS + 1 ->
  (crashed_into_pipe f p = true <->
   exists x s, In (mk_print (get_flappy_position f) x s)
                  (draw_pipe p vch hcht hchb 0 (NUM_ROWS - 1))).
Proof.
  intros [[L U] O] B Band. destruct (opening_rows_on_screen p O) as [T Bo].
  unfold bird_in_play, NUM_ROWS in B. unfold PIPE_RADIUS in L.
  rewrite crashed_into_pipe_iff.
  assert (R : Int.in_range (center p)) by (unfold Int.in_range, Int.min, Int.max; lia).
  rewrite (band_test_exact (center p) R).
  rewrite IntFacts.add_exact, IntFacts.sub_exact
    by (unfold Int.in_range, Int.min, Int.max; lia).
  set (h := get_flappy_position f) in *. clearbody h.
  unfold PIPE_RADIUS, FLAPPY_COL in Band.
  assert (Cs : Int.sub (center p) PIPE_RADIUS = center p - 3)
    by (apply IntFacts.sub_exact; unfold Int.in_range, Int.min, Int.max, PIPE_RADIUS; lia).
  assert (C0 : Int.add (center p) 0 = center p)
    by (rewrite IntFacts.add_exact; unfold Int.in_range, Int.min, Int.max; lia).
  assert (V3 : column_visible (center p - 3) = true)
    by (apply column_visible_iff; unfold NUM_COLS; lia).
  assert (V0 : column_visible (center p) = true)
    by (apply column_visible_iff; unfold NUM_COLS; lia).
  assert (Ut : upper_terminus p 0 = get_orow p true)
    by (unfold upper_terminus; change (Int.add 0 1) with 1; lia).
  assert (Lt : lower_terminus p (NUM_ROWS - 1) = get_orow p false)
    by (unfold lower_terminus; change (Int.sub (NUM_ROWS - 1) 1) with 22; lia).
  split.
  - intros [_ N].
    destruct (Z.lt_trichotomy h (get_orow p true)) as [C|[C|C]];
      [| |destruct (Z.lt_trichotomy h (get_orow p false)) as [D|[D|D]]; [exfalso; lia| |]].
    + exists (center p - 3), (chtostr vch). apply In_draw_pipe.
      split; [exact V3|]. left. change (Int.add 0 1) with 1. rewrite Cs. auto with zarith.
    + exists (center p), (chtostr hcht). apply In_draw_pipe.
      split; [exact V0|]. right. left. rewrite Ut. split; [exact C|]. split; [reflexivity|].
      exists 0. rewrite C0. unfold PIPE_RADIUS. split; [lia|reflexivity].
    + exists (center p), (chtostr hchb). apply In_draw_pipe.
      split; [exact V0|]. right. right. right. rewrite Lt.
      split; [exact D|]. split; [reflexivity|].
      exists 0. rewrite C0. unfold PIPE_RADIUS. split; [lia|reflexivity].
    + exists (center p - 3), (chtostr vch). apply In_draw_pipe.
      split; [exact V3|]. right. right. left.
      change (Int.sub (NUM_ROWS - 1) 1) with 22. rewrite Cs.
      split; [lia|]. split; [reflexivity|]. left. reflexivity.
  - intros (x & s & H). apply In_draw_pipe in H. rewrite Ut, Lt in H.
    change (Int.add 0 1) with 1 in H. change (Int.sub (NUM_ROWS - 1) 1) with 22 in H.
    split; [unfold PIPE_RADIUS, FLAPPY_COL; lia|].
    destruct H as [_ [(Hr & _)|[(Hr & _)|[(Hr & _)|(Hr & _)]]]]; lia.
Qed.

Lemma crash_iff_pipe_drawn_on_bird_row_witness :
  pipe_in_play (pipe_at half_float 10) /\ bird_in_play (mk_flappy 8 0) /\
  (center (pipe_at half_float 10) - PIPE_RADIUS - 1 <= FLAPPY_COL
     <= center (pipe_at half_float 10) + PIPE_RADIUS + 1) /\
  (crashed_into_pipe (mk_flappy 8 0) (pipe_at half_float 10) = true <->
   exists x s, In (mk_print (get_flappy_position (mk_flappy 8 0)) x s)
                  (draw_pipe (pipe_at half_float 10) "|" "=" "=" 0 (NUM_ROWS - 1))).
Proof.
  assert (H1 : pipe_in_play (pipe_at half_float 10)).
  { split; [vm_compute; split; discriminate|].
    exists 8388608%positive, (-24).
    split; [vm_compute; reflexivity|]. split; [reflexivity|].
    split; vm_compute; discriminate. }
  assert (H2 : bird_in_play (mk_flappy 8 0)) by (vm_compute; split; reflexivity).
  assert (H3 : center (pipe_at half_float 10) - PIPE_RADIUS - 1 <= FLAPPY_COL
               <= center (pipe_at half_float 10) + PIPE_RADIUS + 1)
    by (vm_compute; split; discriminate).
  split; [exact H1|]. split; [exact H2|]. split; [exact H3|].
  exact (crash_iff_pipe_drawn_on_bird_row (mk_flappy 8 0) (pipe_at half_float 10)
           "|" "=" "=" H1 H2 H3).
Defined.

(** ** The floor and the ceiling *)

Section FloorAndCeiling.

Variables (ceiling_row floor_row : Z) (c : string) (spacing sd bd : Z).

(** The loop of [draw_floor_and_ceiling] with a positive spacing, from the
    value [i] of its counter: with enough fuel it ends, and it has printed
    [c] on the floor row at [i], [i + spacing], ... below column 79, and on
    the ceiling row at those of these columns that are left of the score
    line. *)
Lemma floor_and_ceiling_loop_spec (fuel : nat) (i : Z) :
  0 < spacing <= 2 ^ 30 -> Int.min <= i ->
  (Z.to_nat (NUM_COLS - 1 - i) <= fuel)%nat ->
  exists out,
    floor_and_ceiling_loop fuel ceiling_row floor_row c spacing sd bd i = Some out /\
    forall r x s,
      In (mk_print r x s) out <->
      s = c /\ i <= x < NUM_COLS - 1 /\ (spacing | x - i) /\
      (r = floor_row \/
       r = ceiling_row /\ x < Int.sub (Int.sub SCORE_START_COL sd) bd).
Proof.
  intros Hs. revert i. induction fuel as [|fuel IH]; intros i Hi Hf.
  - cbn [floor_and_ceiling_loop]. change (Int.sub NUM_COLS 1) with 79.
    unfold NUM_COLS in *.
    destruct (Z.ltb_spec i 79) as [Lt|Ge]; [lia|].
    exists []. split; [reflexivity|]. intros r x s. cbn [In]. split; [tauto|lia].
  - cbn [floor_and_ceiling_loop]. change (Int.sub NUM_COLS 1) with 79.
    unfold NUM_COLS in *.
    destruct (Z.ltb_spec i 79) as [Lt|Ge].
    2:{ exists []. split; [reflexivity|]. intros r x s. cbn [In]. split; [tauto|lia]. }
    assert (Ei : Int.add i spacing = i + spacing).
    { apply IntFacts.add_exact. change (2 ^ 30) with 1073741824 in Hs.
      unfold Int.in_range, Int.min, Int.max in *. lia. }
    rewrite Ei.
    destruct (IH (i + spacing)) as (rest & -> & Hrest);
      [unfold Int.min in *; lia|lia|].
    eexists. split; [reflexivity|].
    intros r x s. rewrite !in_app_iff, Hrest. clear Hrest IH.
    assert (D : i <= x -> ((spacing | x - i) <->
                           x = i \/ i + spacing <= x /\ (spacing | x - (i + spacing)))).
    { intros Hx. split.
      - intros [k Hk]. destruct (Z.eq_dec k 0) as [->|Nk]; [left; lia|right].
        assert (0 < k) by nia. split; [nia|]. exists (k - 1). lia.
      - intros [->|[_ [k Hk]]]; [exists 0; lia|exists (k + 1); lia]. }
    destruct (Z.ltb_spec i (Int.sub (Int.sub SCORE_START_COL sd) bd)) as [Lc|Gc];
      cbn [In]; split.
    + intros [[[E|[]]|[E|[]]]|(-> & Hx & Hd & Hr)].
      * injection E as <- <- <-. split; [reflexivity|]. split; [lia|].
        split; [exists 0; lia|]. right. split; [reflexivity|exact Lc].
      * injection E as <- <- <-. split; [reflexivity|]. split; [lia|].
        split; [exists 0; lia|]. left. reflexivity.
      * split; [reflexivity|]. split; [lia|]. split; [apply D; [lia|right; tauto]|].
        exact Hr.
    + intros (-> & Hx & Hd & Hr). apply D in Hd; [|lia].
      destruct Hd as [->|[Hx' Hd]].
      * left. destruct Hr as [->|[-> _]]; [right|left]; left; reflexivity.
      * right. split; [reflexivity|]. split; [lia|]. split; [exact Hd|exact Hr].
    + intros [[[]|[E|[]]]|(-> & Hx & Hd & Hr)].
      * injection E as <- <- <-. split; [reflexivity|]. split; [lia|].
        split; [exists 0; lia|]. left. reflexivity.
      * split; [reflexivity|]. split; [lia|]. split; [apply D; [lia|right; tauto]|].
        exact Hr.
    + intros (-> & Hx & Hd & Hr). apply D in Hd; [|lia].
      destruct Hd as [->|[Hx' Hd]].
      * left. destruct Hr as [->|[-> Hc]]; [right; left; reflexivity|lia].
      * right. split; [reflexivity|]. split; [lia|]. split; [exact Hd|exact Hr].
Qed.

End FloorAndCeiling.

(** The floor and the ceiling.  With a positive spacing (at most 2^30, so
    that the counter cannot overflow) and enough fuel, the loop of
    [draw_floor_and_ceiling] ends; it prints the character on the floor row
    in every column [col_start + k * spacing] below 79, and on the ceiling
    row in those of these columns that are left of column
    [SCORE_START_COL - sdigs - bdigs], where the score line begins; it
    prints nothing else. *)
Theorem floor_and_ceiling_cells (fuel : nat) (ceiling_row floor_row : Z) (ch : ascii)
    (spacing col_start : Z) (g : globals) :
  0 < spacing <= 2 ^ 30 -> Int.min <= col_start ->
  (Z.to_nat (NUM_COLS - 1 - col_start) <= fuel)%nat ->
  exists out,
    draw_floor_and_ceiling fuel ceiling_row floor_row ch spacing col_start g = Some out /\
    forall r x s,
      In (mk_print r x s) out <->
      s = chtostr ch /\ col_start <= x < NUM_COLS - 1 /\ (spacing | x - col_start) /\
      (r = floor_row \/
       r = ceiling_row /\ x < Int.sub (Int.sub SCORE_START_COL (sdigs g)) (bdigs g)).
Proof.
  intros Hs Hc Hf. unfold draw_floor_and_ceiling.
  apply floor_and_ceiling_loop_spec; assumption.
Qed.

Lemma floor_and_ceiling_cells_witness :
  0 < 3 <= 2 ^ 30 /\ Int.min <= 2 /\
  (Z.to_nat (NUM_COLS - 1 - 2) <= 80)%nat /\
  exists out,
    draw_floor_and_ceiling 80 0 (NUM_ROWS - 1) "/" 3 2 initial_globals = Some out /\
    forall r x s,
      In (mk_print r x s) out <->
      s = chtostr "/" /\ 2 <= x < NUM_COLS - 1 /\ (3 | x - 2) /\
      (r = NUM_ROWS - 1 \/
       r = 0 /\ x < Int.sub (Int.sub SCORE_START_COL (sdigs initial_globals))
                            (bdigs initial_globals)).
Proof.
  assert (H1 : 0 < 3 <= 2 ^ 30) by (vm_compute; split; [reflexivity|discriminate]).
  assert (H2 : Int.min <= 2) by (vm_compute; discriminate).
  assert (H3 : (Z.to_nat (NUM_COLS - 1 - 2) <= 80)%nat) by (vm_compute; lia).
  split; [exact H1|]. split; [exact H2|]. split; [exact H3|].
  exact (floor_and_ceiling_cells 80 0 (NUM_ROWS - 1) "/" 3 2 initial_globals H1 H2 H3).
Defined.

(** A spacing of 0 hangs the program: the counter of the loop of
    [draw_floor_and_ceiling] never advances, so that from a starting column
    below 79 the loop runs forever, whatever the fuel. *)
Theorem floor_and_ceiling_hangs_without_spacing (fuel : nat)
    (ceiling_row floor_row : Z) (ch : ascii) (col_start : Z) (g : globals) :
  Int.min <= col_start < NUM_COLS - 1 ->
  draw_floor_and_ceiling fuel ceiling_row floor_row ch 0 col_start g = None.
Proof.
  intros Hc. unfold draw_floor_and_ceiling.
  induction fuel as [|fuel IH]; cbn [floor_and_ceiling_loop];
    change (Int.sub NUM_COLS 1) with 79; unfold NUM_COLS in *;
    destruct (Z.ltb_spec col_start 79) as [Lt|Ge]; try lia; [reflexivity|].
  assert (Ei : Int.add col_start 0 = col_start).
  { rewrite IntFacts.add_exact; unfold Int.in_range, Int.min, Int.max in *; lia. }
  rewrite Ei, IH. reflexivity.
Qed.

Lemma floor_and_ceiling_hangs_without_spacing_witness :
  (Int.min <= 0 < NUM_COLS - 1) /\
  draw_floor_and_ceiling 1000 0 (NUM_ROWS - 1) "/" 0 0 initial_globals = None.
Proof.
  assert (H : Int.min <= 0 < NUM_COLS - 1) by (vm_compute; split; [discriminate|reflexivity]).
  split; [exact H|].
  exact (floor_and_ceiling_hangs_without_spacing 1000 0 (NUM_ROWS - 1) "/" 0
           initial_globals H).
Defined.

(** ** The width of the score counters *)

Section Digits.

Variable rand_value : nat -> Z.
Variable getch_value : nat -> Z.

(** What [pipe_wrap] does to the counters of the score line. *)
Lemma pipe_wrap_digits (p : pipe_ptr) (g : globals) :
  let g' := pipe_wrap rand_value p g in
  let s := Int.add (score g) 1 in
  score g' = s /\
  sdigs g' = (if (sdigs g =? 1) && (s >? 9) then Int.add (sdigs g) 1
              else if (sdigs g =? 2) && (s >? 99) then Int.add (sdigs g) 1
              else sdigs g) /\
  best_score g' = best_score g /\ bdigs g' = bdigs g.
Proof.
  unfold pipe_wrap, rand. cbn zeta.
  destruct p; cbn;
    repeat match goal with |- context [if ?b then _ else _] => destruct b end;
    cbn; repeat split; reflexivity.
Qed.

(** One [pipe_refresh]: the score grows by at most one, and [sdigs] stays
    the number of digits of the score (3 from 100 on). *)
Lemma pipe_refresh_digits (p : pipe_ptr) (g : globals) :
  0 <= score g < Int.max -> score_width_ok g ->
  let g' := pipe_refresh rand_value p g in
  score g <= score g' <= score g + 1 /\ score_width_ok g' /\
  best_score g' = best_score g /\ bdigs g' = bdigs g /\ frame g' = frame g.
Proof.
  intros Hs Hd. cbn zeta. unfold pipe_refresh, score_width_ok in *.
  destruct (pipe_off_screen (load p g)).
  - destruct (store_center_frame p
                (Int.sub (center (load p (pipe_wrap rand_value p g))) 1)
                (pipe_wrap rand_value p g)) as (-> & -> & -> & -> & _ & _ & ->).
    destruct (pipe_wrap_digits p g) as (-> & -> & -> & ->).
    destruct (pipe_wrap_spec rand_value p g) as (_ & _ & _ & _ & _ & _ & ->).
    rewrite IntFacts.add_exact by (unfold Int.in_range, Int.min, Int.max in *; lia).
    split; [lia|]. split; [|repeat split; reflexivity].
    destruct Hd as [[D S]|[[D S]|[D S]]]; rewrite D; cbn [Z.eqb Pos.eqb andb].
    + destruct (Z.gtb_spec (score g + 1) 9); [right; left|left];
        (split; [reflexivity|lia]).
    + destruct (Z.gtb_spec (score g + 1) 99); [right; right|right; left];
        (split; [reflexivity|lia]).
    + right. right. split; [reflexivity|lia].
  - destruct (store_center_frame p (Int.sub (center (load p g)) 1) g)
      as (-> & -> & -> & -> & _ & _ & ->).
    split; [lia|]. split; [exact Hd|repeat split; reflexivity].
Qed.

(** The counters after a restart from the failure screen: the new game
    starts with a one-digit score; [bdigs] has grown by at most one, and is
    1 exactly while the best score has one digit. *)
Lemma failure_screen_digits (g : globals) :
  0 <= score g -> 0 <= best_score g -> best_width_ok g ->
  match failure_screen getch_value g with
  | Returned _ g' =>
      score g' = 0 /\ sdigs g' = 1 /\
      best_score g' = Z.max (best_score g) (score g) /\
      best_width_ok g' /\ frame g' = frame g
  | Exited _ => True
  end.
Proof.
  intros Hs Hb Hd. unfold failure_screen, getch, best_width_ok in *. cbn zeta.
  destruct (char_of_int (getch_value (getch_calls g)) =? KEY_q); [exact I|].
  cbn [score best_score bdigs sdigs set_score set_sdigs set_best_score set_bdigs].
  destruct (Z.gtb_spec (score g) (best_score g)) as [G|G];
    cbn [score best_score bdigs sdigs set_score set_sdigs set_best_score set_bdigs];
    destruct Hd as [[D S]|[[D S]|[D S]]]; rewrite D; cbn [Z.eqb Pos.eqb andb];
    repeat match goal with
           | |- context [?a >? ?b] => destruct (Z.gtb_spec a b)
           end;
    cbn [score best_score bdigs sdigs frame set_score set_sdigs set_best_score set_bdigs];
    change (Int.add 1 1) with 2; change (Int.add 2 1) with 3;
    (split; [reflexivity|]); (split; [reflexivity|]); (split; [lia|]);
    (split; [lia|reflexivity]).
Qed.

(** One iteration keeps the counters right. *)
Lemma counters_step (k : nat) (l : locals) (g : globals) :
  Z.of_nat k < 2 ^ 29 -> counters_ok k g ->
  match iteration rand_value getch_value l g with
  | Returned l' g' => counters_ok (S k) g'
  | Exited _ => True
  end.
Proof.
  intros Hk (Hf & [Hs Hsd] & [Hb Hbd]).
  destruct (after_restart_block rand_value l g) as (l1 & g1 & E & R & W).
  destruct (iteration_outcomes rand_value getch_value l g) as (l1' & g1' & E' & O).
  rewrite E in E'. injection E' as <- <-. cbn zeta in O.
  assert (K : score g1 = score g /\ sdigs g1 = sdigs g /\
              best_score g1 = best_score g /\ bdigs g1 = bdigs g /\
              frame g1 = frame g).
  { destruct W as [(_ & _ & ->)|(_ & W)]; [repeat split|].
    assert (E1 : g1 = snd (start_game rand_value l g)) by (rewrite <- W; reflexivity).
    rewrite E1. repeat split; reflexivity. }
  destruct K as (K1 & K2 & K3 & K4 & K5).
  set (g2 := snd (getch getch_value g1)) in *.
  assert (S2 : score g2 = score g) by exact K1.
  assert (D2 : sdigs g2 = sdigs g) by exact K2.
  assert (B2 : best_score g2 = best_score g) by exact K3.
  assert (C2 : bdigs g2 = bdigs g) by exact K4.
  assert (F2 : frame g2 = frame g) by exact K5.
  change (2 ^ 29) with 536870912 in Hk.
  destruct (pipe_refresh_digits ptr_p1 g2) as (Sa & Da & Ba & Ca & Fa);
    [unfold Int.max; lia|unfold score_width_ok in *; rewrite S2, D2; exact Hsd|].
  set (ga := pipe_refresh rand_value ptr_p1 g2) in *.
  destruct (pipe_refresh_digits ptr_p2 ga) as (Sb & Db & Bb & Cb & Fb);
    [unfold Int.max; lia|exact Da|].
  set (gb := pipe_refresh rand_value ptr_p2 ga) in *.
  assert (Hbd' : best_width_ok gb).
  { unfold best_width_ok in *. rewrite Bb, Ba, B2, Cb, Ca, C2. exact Hbd. }
  destruct (iteration rand_value getch_value l g) as [l' g'|g']; [|exact I].
  destruct O as [_ [(-> & -> & _)|(-> & F)]].
  - unfold counters_ok, score_width_ok, best_width_ok in *.
    cbn [score sdigs best_score bdigs frame set_frame].
    rewrite IntFacts.add_exact by (unfold Int.in_range, Int.min, Int.max; lia).
    split; [lia|]. split; [split; [lia|exact Db]|split; [lia|exact Hbd']].
  - pose proof (failure_screen_digits gb ltac:(lia) ltac:(lia) Hbd') as X.
    rewrite F in X. destruct X as (X1 & X2 & X3 & X4 & X5).
    unfold counters_ok, score_width_ok.
    rewrite X1, X2, X3, X5. split; [lia|].
    split; [split; [lia|left; split; [reflexivity|lia]]|].
    split; [lia|exact X4].
Qed.

End Digits.

(** The counters at the head of the loop. *)
Lemma loop_counters (rand_value getch_value : nat -> Z) (n : nat) (f0 : flappy) :
  Z.of_nat n < 2 ^ 29 ->
  match iterations rand_value getch_value n (initial_locals f0) initial_globals with
  | Returned l g => counters_ok n g
  | Exited _ => True
  end.
Proof.
  intros Hn.
  pose proof (iterations_invariant rand_value getch_value
    (fun k _ g => Z.of_nat k <= Z.of_nat n -> counters_ok k g)) as H.
  cbv beta in H.
  assert (Step : forall k l g,
            (Z.of_nat k <= Z.of_nat n -> counters_ok k g) ->
            match iteration rand_value getch_value l g with
            | Returned _ g' => Z.of_nat (S k) <= Z.of_nat n -> counters_ok (S k) g'
            | Exited _ => True
            end).
  { intros k l g I.
    destruct (Z_le_gt_dec (Z.of_nat (S k)) (Z.of_nat n)) as [Le|Gt].
    - pose proof (counters_step rand_value getch_value k l g ltac:(lia) (I ltac:(lia)))
        as D.
      destruct (iteration rand_value getch_value l g); [|exact Logic.I].
      intros _. exact D.
    - destruct (iteration rand_value getch_value l g); [|exact Logic.I].
      intros Le. exfalso. lia. }
  specialize (H Step n 0%nat (initial_locals f0) initial_globals).
  destruct (iterations rand_value getch_value n (initial_locals f0) initial_globals)
    as [l g|g]; [|exact I].
  rewrite Nat.add_0_r in H. apply H; [|lia].
  intros _. unfold counters_ok, score_width_ok, best_width_ok.
  vm_compute. repeat split; try discriminate; left; split; congruence.
Qed.

(** The widths [sdigs] and [bdigs] used to place the score line.  At the
    head of the loop of [main] (here within the first 2^29 iterations, so
    that the score cannot overflow), [sdigs] is the number of decimal
    digits of [score], with 3 standing for three or more; [bdigs] never
    exceeds the number of digits of [best_score], and is 1 exactly while
    the best score has one digit. *)
Theorem score_widths_follow_the_scores (rand_value getch_value : nat -> Z)
    (n : nat) (f0 : flappy) :
  Z.of_nat n < 2 ^ 29 ->
  match iterations rand_value getch_value n (initial_locals f0) initial_globals with
  | Returned l g =>
      0 <= score g /\ 0 <= best_score g /\
      (sdigs g = 1 /\ score g <= 9 \/ sdigs g = 2 /\ 10 <= score g <= 99 \/
       sdigs g = 3 /\ 100 <= score g) /\
      (bdigs g = 1 /\ best_score g <= 9 \/ bdigs g = 2 /\ 10 <= best_score g \/
       bdigs g = 3 /\ 100 <= best_score g)
  | Exited _ => True
  end.
Proof.
  intros Hn. pose proof (loop_counters rand_value getch_value n f0 Hn) as D.
  destruct (iterations rand_value getch_value n (initial_locals f0) initial_globals)
    as [l g|g]; [|exact I].
  destruct D as (_ & [[S0 _] Sd] & [[B0 _] Bd]). auto.
Qed.

Lemma score_widths_follow_the_scores_witness :
  Z.of_nat 2 < 2 ^ 29 /\
  match iterations (rand_const 0) (key_const (-1)) 2
          (initial_locals (mk_flappy 0 0)) initial_globals with
  | Returned l g =>
      0 <= score g /\ 0 <= best_score g /\
      (sdigs g = 1 /\ score g <= 9 \/ sdigs g = 2 /\ 10 <= score g <= 99 \/
       sdigs g = 3 /\ 100 <= score g) /\
      (bdigs g = 1 /\ best_score g <= 9 \/ bdigs g = 2 /\ 10 <= best_score g \/
       bdigs g = 3 /\ 100 <= best_score g)
  | Exited _ => True
  end.
Proof.
  assert (H : Z.of_nat 2 < 2 ^ 29) by (vm_compute; reflexivity).
  split; [exact H|].
  exact (score_widths_follow_the_scores (rand_const 0) (key_const (-1)) 2
           (mk_flappy 0 0) H).
Defined.

(** [bdigs] can lag behind.  A restart from the failure screen widens
    [bdigs] by one column at most: when a game that scored 100 or more ends
    while the best score still had one digit, the best score has three
    digits afterwards but [bdigs] is 2, and the score line of the next game
    is placed one column too far to the right. *)
Theorem bdigs_lags_after_a_jump (getch_value : nat -> Z) (g : globals) :
  char_of_int (getch_value (getch_calls g)) <> KEY_q ->
  bdigs g = 1 -> best_score g <= 9 -> 99 < score g ->
  exists g', failure_screen getch_value g = Returned 1 g' /\
             best_score g' = score g /\ bdigs g' = 2.
Proof.
  intros Hq Hd Hb Hs. unfold failure_screen, getch. cbn zeta.
  apply Z.eqb_neq in Hq. rewrite Hq.
  cbn [score best_score bdigs sdigs set_score set_sdigs set_best_score set_bdigs].
  destruct (Z.gtb_spec (score g) (best_score g)) as [G|G]; [|lia].
  cbn [score best_score bdigs sdigs set_score set_sdigs set_best_score set_bdigs].
  rewrite Hd. cbn [Z.eqb Pos.eqb andb].
  destruct (Z.gtb_spec (score g) 9) as [G9|G9]; [|lia].
  eexists. split; [reflexivity|]. split; reflexivity.
Qed.

Lemma bdigs_lags_after_a_jump_witness :
  let g := set_score 100 initial_globals in
  char_of_int (key_const (-1) (getch_calls g)) <> KEY_q /\
  bdigs g = 1 /\ best_score g <= 9 /\ 99 < score g /\
  exists g', failure_screen (key_const (-1)) g = Returned 1 g' /\
             best_score g' = score g /\ bdigs g' = 2.
Proof.
  cbv zeta.
  assert (H1 : char_of_int (key_const (-1) (getch_calls (set_score 100 initial_globals)))
               <> KEY_q) by (vm_compute; discriminate).
  assert (H2 : bdigs (set_score 100 initial_globals) = 1) by reflexivity.
  assert (H3 : best_score (set_score 100 initial_globals) <= 9) by (vm_compute; discriminate).
  assert (H4 : 99 < score (set_score 100 initial_globals)) by reflexivity.
  split; [exact H1|]. split; [exact H2|]. split; [exact H3|]. split; [exact H4|].
  exact (bdigs_lags_after_a_jump (key_const (-1)) (set_score 100 initial_globals)
           H1 H2 H3 H4).
Defined.

(** The failure screen reads its key into a [char]: it quits on every key
    code whose low byte is that of 'q' (113, but also 369, a function key
    of ncurses), and restarts on every other one, the arrow keys and "no
    key" (-1) included. *)
Theorem failure_screen_quits_on_low_byte (getch_value : nat -> Z) (g : globals) :
  ((exists g', failure_screen getch_value g = Exited g') <->
     getch_value (getch_calls g) mod 256 = KEY_q) /\
  ((exists g', failure_screen getch_value g = Returned 1 g') <->
     getch_value (getch_calls g) mod 256 <> KEY_q).
Proof.
  assert (C : char_of_int (getch_value (getch_calls g)) = KEY_q <->
              getch_value (getch_calls g) mod 256 = KEY_q).
  { unfold char_of_int, KEY_q. split; intros H; Z.div_mod_to_equations; lia. }
  destruct (Z.eq_dec (char_of_int (getch_value (getch_calls g))) KEY_q) as [E|E].
  - destruct (failure_screen_quit getch_value g E) as (g' & F & _).
    split; split.
    + intros _. apply C, E.
    + intros _. exists g'. exact F.
    + intros (g'' & F'). rewrite F in F'. discriminate F'.
    + intros N. exfalso. apply N, C, E.
  - destruct (failure_screen_restart getch_value g E) as (g' & F & _).
    split; split.
    + intros (g'' & F'). rewrite F in F'. discriminate F'.
    + intros N. exfalso. apply E, C, N.
    + intros _ N. apply E, C, N.
    + intros _. exists g'. exact F.
Qed.

Lemma string_length_append (s1 s2 : string) :
  String.length (s1 ++ s2) = (String.length s1 + String.length s2)%nat.
Proof.
  induction s1 as [|a s1 IH]; cbn [String.append String.length]; [reflexivity|].
  rewrite IH. reflexivity.
Qed.

(** The length of what ["%d"] prints, for the scores below 1000. *)
Lemma decimal_length (z : Z) :
  0 <= z <= 999 ->
  String.length (decimal z) =
    if z <=? 9 then 1%nat else if z <=? 99 then 2%nat else 3%nat.
Proof.
  intros Hz.
  assert (T : forallb (fun z => Nat.eqb (String.length (decimal z))
                (if z <=? 9 then 1%nat else if z <=? 99 then 2%nat else 3%nat))
                (range_up 0 1000) = true) by (vm_compute; reflexivity).
  pose proof (forallb_range_up _ _ _ T z ltac:(lia)) as C. cbv beta in C.
  apply Nat.eqb_eq in C. exact C.
Qed.



(** ** A whole frame *)

Lemma chtostr_length (ch : ascii) : String.length (chtostr ch) = 1%nat.
Proof. reflexivity. Qed.

(** The cells of a pipe with an opening of the game are on the playing
    field, wherever its center is. *)
Lemma draw_pipe_on_field (p : vpipe) (vch hcht hchb : ascii) (q : print) :
  opening_in_range (opening_height p) ->
  In q (draw_pipe p vch hcht hchb 0 (Int.sub NUM_ROWS 1)) ->
  1 <= print_row q <= NUM_ROWS - 2 /\ 0 <= print_col q <= NUM_COLS - 2 /\
  String.length (print_text q) = 1%nat.
Proof.
  intros O H. destruct (opening_rows_on_screen p O) as [T B].
  destruct q as [r x s]. apply In_draw_pipe in H. cbn [print_row print_col print_text].
  destruct H as [V H]. apply column_visible_iff in V.
  unfold upper_terminus, lower_terminus in H.
  change (Int.add 0 1) with 1 in H. change (Int.sub (Int.sub NUM_ROWS 1) 1) with 22 in H.
  unfold NUM_ROWS, NUM_COLS in *.
  destruct H as [(Hr & -> & _)|[(-> & -> & _)|[(Hr & -> & _)|(-> & -> & _)]]];
    (split; [lia|split; [lia|apply chtostr_length]]).
Qed.

(** The cells of a bird on the playing field are on the screen. *)
Lemma flappy_prints_on_screen (f : flappy) (fr : Z) (q : print) :
  bird_in_play f -> In q (flappy_prints f fr) ->
  0 <= print_row q <= NUM_ROWS - 1 /\
  FLAPPY_COL - 2 <= print_col q <= FLAPPY_COL + 2 /\
  String.length (print_text q) = 1%nat.
Proof.
  intros B. unfold bird_in_play, NUM_ROWS in B. unfold flappy_prints.
  change (Int.sub FLAPPY_COL 1) with 9. change (Int.sub FLAPPY_COL 2) with 8.
  change (Int.add FLAPPY_COL 1) with 11. change (Int.add FLAPPY_COL 2) with 12.
  unfold FLAPPY_COL, NUM_ROWS.
  rewrite IntFacts.sub_exact, IntFacts.add_exact
    by (unfold Int.in_range, Int.min, Int.max; lia).
  set (h := get_flappy_position f) in *. clearbody h.
  destruct (going_down f); [|destruct (Z.rem fr 6 <? 3)]; cbn [app In]; intros Hq.
  all: repeat (destruct Hq as [Hq|Hq]; [subst q; cbn [print_row print_col print_text]|]).
  all: try (destruct Hq).
  all: split; [lia|split; [lia|reflexivity]].
Qed.

(** Nothing is drawn outside the window.  Take any state that [main]
    reaches at the head of its loop in a running game (with [rand()]
    between 0 and [INT_MAX], within the first 2^29 iterations), and an
    iteration from there in which the bird does not crash.  While both
    scores are below 1000, every [mvprintw] of that iteration (floor and
    ceiling, both pipes, the bird, the score line) starts on a row from 0
    to 23 and in a column from 0 on, and its text ends within the 80
    columns of the window; the loop of [draw_floor_and_ceiling] ends. *)
Theorem frame_stays_in_window (rand_value getch_value : nat -> Z)
    (n : nat) (f0 : flappy) :
  (forall k, 0 <= rand_value k <= INT_MAX) ->
  Z.of_nat n < 2 ^ 29 ->
  match iterations rand_value getch_value n (initial_locals f0) initial_globals with
  | Returned l g =>
      restart l = 0 ->
      match iteration rand_value getch_value l g with
      | Returned l' g' =>
          restart l' = 0 -> score g' <= 999 -> best_score g' <= 999 ->
          exists out,
            frame_prints rand_value 80 (f l') (snd (getch getch_value g)) = Some out /\
            forall q, In q out ->
              0 <= print_row q <= NUM_ROWS - 1 /\ 0 <= print_col q /\
              print_col q + Z.of_nat (String.length (print_text q)) <= NUM_COLS
      | Exited _ => True
      end
  | Exited _ => True
  end.
Proof.
  intros Hr Hn.
  pose proof (main_loop_in_play rand_value getch_value Hr n f0) as P.
  pose proof (loop_counters rand_value getch_value n f0 Hn) as C.
  destruct (iterations rand_value getch_value n (initial_locals f0) initial_globals)
    as [l g|g]; [|exact I].
  intros R0. destruct (P R0) as (_ & P1 & P2).
  destruct (iteration_outcomes rand_value getch_value l g) as (l1 & g1 & E & O).
  rewrite R0 in E. cbn [Z.eqb] in E. injection E as <- <-. cbn zeta in O.
  pose proof (counters_step rand_value getch_value n l g Hn C) as C'.
  destruct (iteration rand_value getch_value l g) as [l' g'|g']; [|exact I].
  intros R' Hs Hb.
  destruct O as [_ [(-> & -> & Cb & _)|(-> & _)]]; [|discriminate R'].
  cbn [f]. apply bird_in_play_iff in Cb.
  set (b := if getch_value (getch_calls g) =? KEY_UP then boost (f l) else fall (f l)) in *.
  set (g2 := snd (getch getch_value g)) in *.
  set (g3 := pipe_refresh rand_value ptr_p2 (pipe_refresh rand_value ptr_p1 g2)) in *.
  destruct C as ([F0 _] & _). destruct C' as (_ & [[S0 _] Sd] & [[B0 _] Bd]).
  unfold score_width_ok, best_width_ok in Sd, Bd.
  cbn [score sdigs best_score bdigs set_frame] in Sd, Bd, Hs, Hb, S0, B0.
  unfold frame_prints, draw_floor_and_ceiling.
  pose proof (Z.rem_bound_pos (frame g) 3 F0 ltac:(lia)) as Rm.
  change (frame g2) with (frame g).
  destruct (floor_and_ceiling_loop_spec 0 (Int.sub NUM_ROWS 1) (chtostr "/") 3
              (sdigs g2) (bdigs g2) 80 (Z.rem (frame g) 3)) as (fc & -> & Hfc);
    [change (2 ^ 30) with 1073741824; lia|unfold Int.min; lia|unfold NUM_COLS; lia|].
  eexists. split; [reflexivity|]. fold g3.
  intros q Hq. rewrite !in_app_iff in Hq.
  destruct Hq as [H|[H|[H|[H|H]]]].
  - destruct q as [r x s]. apply Hfc in H. cbn [print_row print_col print_text].
    destruct H as (-> & Hx & _ & Hrow). rewrite chtostr_length.
    change (Int.sub NUM_ROWS 1) with 23 in Hrow. unfold NUM_ROWS, NUM_COLS in *.
    destruct Hrow as [->|[-> _]]; lia.
  - destruct (draw_pipe_on_field (p1 g2) "|" "=" "=" q (proj2 P1) H) as (A & B & ->).
    unfold NUM_ROWS, NUM_COLS in *. lia.
  - destruct (draw_pipe_on_field (p2 g2) "|" "=" "=" q (proj2 P2) H) as (A & B & ->).
    unfold NUM_ROWS, NUM_COLS in *. lia.
  - destruct (flappy_prints_on_screen b (frame g3) q Cb H) as (A & B & ->).
    unfold NUM_ROWS, NUM_COLS, FLAPPY_COL in *. lia.
  - destruct H as [<-|[]]. unfold score_line. cbn [print_row print_col print_text].
    rewrite !string_length_append.
    rewrite (decimal_length (score g3)), (decimal_length (best_score g3)) by lia.
    change (String.length " Score: ") with 8%nat.
    change (String.length "  Best: ") with 8%nat.
    unfold SCORE_START_COL, NUM_ROWS, NUM_COLS.
    destruct Sd as [[Es S1]|[[Es S1]|[Es S1]]];
      destruct Bd as [[Eb B1]|[[Eb B1]|[Eb B1]]];
      rewrite Es, Eb;
      destruct (Z.leb_spec (score g3) 9); destruct (Z.leb_spec (score g3) 99); try lia;
      destruct (Z.leb_spec (best_score g3) 9); destruct (Z.leb_spec (best_score g3) 99);
      try lia; vm_compute; repeat split; discriminate.
Qed.

Lemma frame_stays_in_window_witness :
  (forall k, 0 <= rand_const 0 k <= INT_MAX) /\
  Z.of_nat 2 < 2 ^ 29 /\
  match iterations (rand_const 0) (key_const (-1)) 2
          (initial_locals (mk_flappy 0 0)) initial_globals with
  | Returned l g =>
      restart l = 0 ->
      match iteration (rand_const 0) (key_const (-1)) l g with
      | Returned l' g' =>
          restart l' = 0 -> score g' <= 999 -> best_score g' <= 999 ->
          exists out,
            frame_prints (rand_const 0) 80 (f l') (snd (getch (key_const (-1)) g))
              = Some out /\
            forall q, In q out ->
              0 <= print_row q <= NUM_ROWS - 1 /\ 0 <= print_col q /\
              print_col q + Z.of_nat (String.length (print_text q)) <= NUM_COLS
      | Exited _ => True
      end
  | Exited _ => True
  end.
Proof.
  assert (H1 : forall k, 0 <= rand_const 0 k <= INT_MAX)
    by (intros k; vm_compute; split; discriminate).
  assert (H2 : Z.of_nat 2 < 2 ^ 29) by (vm_compute; reflexivity).
  split; [exact H1|]. split; [exact H2|].
  exact (frame_stays_in_window (rand_const 0) (key_const (-1)) 2 (mk_flappy 0 0) H1 H2).
Defined.

